(** * spotify-mcp: the aggregation-and-curation pipelines

    A shallow embedding of the curation code of [src/spotify_mcp/server.py]
    (the tool handlers ArtistDeepDive, PlaylistLibrarian, MyTopMusic and
    Discover) and of the batch helpers of [src/spotify_mcp/spotify_api.py],
    followed by the properties proved about them.

    Conventions.
    - Python [int] is [Z], and [nat] where it counts (a length, a counter,
      a score); [str] is [string] (UTF-8 bytes, whose lexicographic order
      is the order of the code points).
    - A [dict] whose iteration order is observed is an association list in
      insertion order ([Py.odict]); a [set] is a [gset], listed in the
      order the interpreter chooses ([set_to_list]); a counter [dict] that
      is only looked up is a [gmap].
    - A quotient of counts is a binary64 [float], rounded as [round] does.
    - A call of the Spotify client is an event of a trace; the answer of the
      service is an arbitrary function of the trace so far. *)

From stdpp Require Import base list strings gmap sets pretty.
From Stdlib Require Import ZArith Sorted.
From Stdlib Require PrimFloat FloatOps SpecFloat Uint63.

Open Scope string_scope.
Open Scope list_scope.
Open Scope nat_scope.

(** ** Python primitives *)

(** What the interpreter decides and the source does not: [str.lower]
    (Unicode aware), the iteration order of a [set] of strings (hash
    order) and the clock read by [datetime.now().strftime("%b %Y")]. *)
Class Python := {
  lower : string → string;
  set_to_list : gset string → list string;
  set_to_list_perm : ∀ X, set_to_list X ≡ₚ elements X;
  month_year : string
}.

Module Py.

(** [xs[:n]]: a negative bound counts from the end. *)
Definition slice_to {A} (xs : list A) (n : Z) : list A :=
  if (0 <=? n)%Z then take (Z.to_nat n) xs
  else take (length xs - Z.to_nat (- n)) xs.

(** [range(0, n, step)] *)
Definition range0 (n step : nat) : list nat :=
  (λ j, j * step) <$> seq 0 ((n + step - 1) / step).

(** [[xs[i:i+step] for i in range(0, len(xs), step)]] *)
Definition batches {A} (step : nat) (xs : list A) : list (list A) :=
  (λ i, take step (drop i xs)) <$> range0 (length xs) step.

(** [sorted] and [list.sort] are stable: an element is placed before the
    first element that does not precede it. *)
Fixpoint insert_by {A K} (kle : K → K → bool) (key : A → K) (x : A) (l : list A)
  : list A :=
  match l with
  | [] => [x]
  | y :: l' =>
      if kle (key x) (key y) then x :: l else y :: insert_by kle key x l'
  end.

Definition sort_by {A K} (kle : K → K → bool) (key : A → K) (l : list A) : list A :=
  foldr (insert_by kle key) [] l.

(** [sorted(l, key=key)] with integer keys *)
Definition sorted {A} (key : A → Z) (l : list A) : list A :=
  sort_by Z.leb key l.

(** [sorted(l, key=key, reverse=True)]: descending, still stable *)
Definition sorted_reverse {A} (key : A → Z) (l : list A) : list A :=
  sort_by (λ a b, Z.leb b a) key l.

(** [sorted(l, key=key)] with string keys *)
Definition sorted_str {A} (key : A → string) (l : list A) : list A :=
  sort_by String.leb key l.

(** [s.startswith(p)] *)
Fixpoint startswith (s p : string) {struct p} : bool :=
  match p, s with
  | EmptyString, _ => true
  | String a p', String b s' => if decide (a = b) then startswith s' p' else false
  | String _ _, EmptyString => false
  end.

(** [kw in s] on strings: [kw] occurs in [s] *)
Fixpoint contains (kw s : string) : bool :=
  startswith s kw ||
  match s with
  | EmptyString => false
  | String _ s' => contains kw s'
  end.

(** A [dict] with string keys, in insertion order. *)
Definition odict (V : Type) : Type := list (string * V).

Fixpoint get {V} (k : string) (d : odict V) : option V :=
  match d with
  | [] => None
  | (k', v) :: d' => if decide (k = k') then Some v else get k d'
  end.

(** [d[k] = v]: an existing key keeps its place. *)
Fixpoint set {V} (k : string) (v : V) (d : odict V) : odict V :=
  match d with
  | [] => [(k, v)]
  | (k', v') :: d' =>
      if decide (k = k') then (k, v) :: d' else (k', v') :: set k v d'
  end.

Definition keys {V} (d : odict V) : list string := fst <$> d.
Definition values {V} (d : odict V) : list V := snd <$> d.

(** Truth value of a string. *)
Definition truthy (s : string) : bool := negb (String.eqb s "").

End Py.

(** ** Data model *)

(** Objects of the catalog, with the fields the pipelines read. A field
    read with [.get(key, default)] or tested for truth is an [option] or a
    list (an absent list and an empty list are both false). *)

Module Artist.
Record t := {
  id : string;
  name : string;
  genres : list string            (* [artist.get('genres', [])] *)
}.
End Artist.

Module TrackObj.
Record t := {
  id : string;
  name : string;
  artists : list Artist.t;        (* [track.get('artists')], primary first *)
  popularity : option Z;          (* [track.get('popularity', d)] *)
  duration_ms : option Z          (* [track.get('duration_ms', 0)] *)
}.
End TrackObj.

Module Album.
Record t := { id : string; name : string }.
End Album.

Module Playlist.
Record t := { id : string; name : string; owner_id : string }.
End Playlist.

(** An entry of [get_playlist_tracks]: [None] for a false entry, and the
    [id] it carries, if any. *)
Module PlaylistTrack.
Record t := { id : option string }.
End PlaylistTrack.

(** The records ArtistDeepDive collects (server.py, lines 499-506). *)
Module Track.
Record t := {
  id : string;
  name : string;
  popularity : Z;
  release_date : string;
  album_type : string;
  album_name : string
}.
End Track.

(** The ranking records of Discover (server.py, lines 862-869, 892-899). *)
Module Candidate.
Record t := {
  id : string;
  name : string;
  artist : string;
  artist_id : option string;
  popularity : Z;
  source_genre : string
}.
End Candidate.

(** A tool argument: [arguments.get(key)] and [arguments.get(key, d)]
    differ on a key that is present with value [null]. *)
Inductive Arg (A : Type) : Type :=
| Absent
| Null
| Val (a : A).
Arguments Absent {A}.
Arguments Null {A}.
Arguments Val {A} a.

Definition arg_get {A} (a : Arg A) : option A :=
  match a with Val v => Some v | _ => None end.

Definition arg_get_default {A} (a : Arg A) (d : A) : option A :=
  match a with Absent => Some d | Null => None | Val v => Some v end.

(** ** The Spotify client as a collaborator *)

Inductive exn : Type :=
| SpotifyException (msg : string)
| Exception (msg : string).

Inductive result (A : Type) : Type :=
| Ok (a : A)
| Raise (e : exn).
Arguments Ok {A} a.
Arguments Raise {A} e.

(** The calls the pipelines make. They are the methods of
    [spotify_api.Client] that server.py calls (those that wrap one request
    of spotipy, those that page through a collection, and [get_artist],
    [search_by_genre], [get_recent_track_ids], [get_user_saved_track_ids],
    which server.py calls and spotify_api.py does not define), taken as
    they are called; and [sp.current_user], [sp.tracks], [sp.artists] of
    spotipy, which server.py and the batch helpers of [Client] call. *)
Inductive Req : Type :=
| SearchArtist (query : option string) (limit : Z)
| GetArtist (artist_id : string)
| GetTrack (track_id : string)
| GetArtistAlbums (artist_id : string) (include_singles : option bool)
| GetAlbumTracksFull (album_id : string)
| GetArtistTopTracks (artist_id : string)
| GetAllPlaylists
| CurrentUser
| GetPlaylistTracks (playlist_id : string)
| SpTracks (batch : list string)
| SpArtists (batch : list string)
| ChangePlaylistDetails (playlist_id : string) (new_name : string)
| CreatePlaylist (playlist_name description : string)
| AddTracksToPlaylist (playlist_id : string) (track_ids : list string)
| GetTopTracks (time_range : string) (limit : Z)
| GetTopArtists (time_range : string) (limit : Z)
| GetRecentTrackIds (limit : Z)
| GetUserSavedTrackIds (limit : Z)
| SearchByGenre (genre : string) (year_range : option string) (limit : Z).

Definition resp (r : Req) : Type :=
  match r with
  | SearchArtist _ _ => list Artist.t
  | GetArtist _ => Artist.t
  | GetTrack _ => TrackObj.t
  | GetArtistAlbums _ _ => list Album.t
  | GetAlbumTracksFull _ => (list TrackObj.t * string * string)%type
  | GetArtistTopTracks _ => list TrackObj.t
  | GetAllPlaylists => list Playlist.t
  | CurrentUser => string
  | GetPlaylistTracks _ => list (option PlaylistTrack.t)
  | SpTracks _ => list (option TrackObj.t)
  | SpArtists _ => list (option Artist.t)
  | ChangePlaylistDetails _ _ => unit
  | CreatePlaylist _ _ => Playlist.t
  | AddTracksToPlaylist _ _ => unit
  | GetTopTracks _ _ => list TrackObj.t
  | GetTopArtists _ _ => list Artist.t
  | GetRecentTrackIds _ => list string
  | GetUserSavedTrackIds _ => list string
  | SearchByGenre _ _ _ => list TrackObj.t
  end.

(** A call together with what the service answered. *)
Definition Event : Type := { r : Req & result (resp r) }.

Definition request (ev : Event) : Req := projT1 ev.

(** The service: its answer to a call may depend on everything that
    happened before. *)
Class Catalog := {
  answer : list Event → ∀ r : Req, result (resp r)
}.

(** Computations that call the service and may raise. *)
Definition M (A : Type) : Type := list Event → list Event * result A.

Definition ret {A} (a : A) : M A := λ log, (log, Ok a).

Definition raise {A} (e : exn) : M A := λ log, (log, Raise e).

Definition bind {A B} (m : M A) (k : A → M B) : M B :=
  λ log,
    match m log with
    | (log', Ok a) => k a log'
    | (log', Raise e) => (log', Raise e)
    end.

Notation "x <- m ;; k" := (bind m (λ x, k))
  (at level 20, m at level 99, k at level 200, only parsing).
(** [try: m  except Exception: ...], the outcome handed to the caller. *)
Definition attempt {A} (m : M A) : M (result A) :=
  λ log, let '(log', r) := m log in (log', Ok r).

Definition call `{Catalog} (r : Req) : M (resp r) :=
  λ log, let x := answer log r in (log ++ [existT r x], x).

(** A [for] loop threading its variables. *)
Fixpoint for_each {A S} (xs : list A) (body : S → A → M S) (s : S) : M S :=
  match xs with
  | [] => ret s
  | x :: xs' => s' <- body s x ;; for_each xs' body s'
  end.

(** ** spotify_api.py: batch helpers of [Client] *)

Section Client.
Context `{Python} `{Catalog}.

(** lines 426-428 *)
Definition add_first_artist (artist_ids : gset string) (t : option TrackObj.t)
  : gset string :=
  match t with
  | Some t =>
      match TrackObj.artists t with
      | a :: _ => artist_ids ∪ {[ Artist.id a ]}
      | [] => artist_ids
      end
  | None => artist_ids
  end.

(** [Client.get_artists_for_tracks], lines 420-429 *)
Definition get_artists_for_tracks (track_ids : list string) : M (list string) :=
  artist_ids <- for_each (Py.batches 50 track_ids)
    (λ artist_ids batch,
       tracks <- call (SpTracks batch) ;;
       ret (foldl add_first_artist artist_ids tracks)) ∅ ;;
  ret (set_to_list artist_ids).

(** lines 438-439 *)
Definition add_genres (genres : Py.odict (list string)) (artist : option Artist.t)
  : Py.odict (list string) :=
  match artist with
  | Some artist => Py.set (Artist.id artist) (Artist.genres artist) genres
  | None => genres
  end.

(** [Client.get_artists_genres], lines 431-440 *)
Definition get_artists_genres (artist_ids : list string)
  : M (Py.odict (list string)) :=
  for_each (Py.batches 50 artist_ids)
    (λ genres batch,
       results <- call (SpArtists batch) ;;
       ret (foldl add_genres genres results)) [].

End Client.

(** ** server.py *)

(** lines 42-53 *)
Definition GENRE_CATEGORIES : list (string * list string) := [
  ("🎸 Rock", ["rock"; "metal"; "punk"; "grunge"; "alternative"; "indie rock"; "hard rock"]);
  ("🎵 Pop", ["pop"; "dance pop"; "electropop"; "synth-pop"; "indie pop"]);
  ("🎤 Hip-Hop", ["hip hop"; "rap"; "trap"; "southern hip hop"; "gangster rap"]);
  ("🎧 Electronic", ["electronic"; "edm"; "house"; "techno"; "dubstep"; "trance"; "drum and bass"]);
  ("🎷 Jazz", ["jazz"; "bebop"; "swing"; "smooth jazz"; "jazz fusion"]);
  ("🎻 Classical", ["classical"; "orchestra"; "symphony"; "baroque"; "opera"]);
  ("🤠 Country", ["country"; "americana"; "folk"; "bluegrass"; "country rock"]);
  ("🎺 R&B", ["r&b"; "soul"; "funk"; "neo soul"; "motown"]);
  ("🌍 World", ["latin"; "reggae"; "afrobeat"; "k-pop"; "j-pop"; "reggaeton"; "bossa nova"]);
  ("😴 Chill", ["ambient"; "lo-fi"; "chill"; "downtempo"; "chillwave"])
].

Section Deduplicate.
Context `{Python}.

(** lines 516-518: one iteration of the loop over [all_tracks]. *)
Definition dedup_step (seen : Py.odict Track.t) (track : Track.t)
  : Py.odict Track.t :=
  let key := lower (Track.name track) in
  match Py.get key seen with
  | None => Py.set key track seen
  | Some best =>
      if (Track.popularity best <? Track.popularity track)%Z
      then Py.set key track seen
      else seen
  end.

(** lines 514-519 *)
Definition deduplicate (all_tracks : list Track.t) : list Track.t :=
  Py.values (foldl dedup_step [] all_tracks).

End Deduplicate.

(** *** ArtistDeepDive (lines 472-568) *)

Module DeepDiveArgs.
Record t := {
  artist_name : Arg string;
  include_singles : Arg bool;
  deep_cuts_max_popularity : Arg Z
}.
End DeepDiveArgs.

Record PlaylistInfo := {
  info_name : string;
  info_id : string;
  info_track_count : nat
}.

Module DeepDiveResult.
Record t := {
  artist_name : string;
  artist_id : string;
  playlists_created : list PlaylistInfo;
  total_albums_analyzed : nat;
  total_tracks_analyzed : nat
}.
End DeepDiveResult.

(** [f"{x}"] of a value that may be [None] *)
Definition fmt (o : option string) : string := default "None" o.

(** lines 523-524 *)
Definition best_of (unique_tracks : list Track.t) : list Track.t :=
  take 20 (Py.sorted_reverse Track.popularity unique_tracks).

Definition id_set (tracks : list Track.t) : gset string :=
  list_to_set (Track.id <$> tracks).

(** lines 533-537 *)
Definition deep_cuts_of (deep_cuts_threshold : Z) (best_of_ids : gset string)
    (unique_tracks : list Track.t) : list Track.t :=
  take 25 (Py.sorted Track.popularity
    (filter (λ t, (Track.popularity t < deep_cuts_threshold)%Z
                  ∧ (Track.id t ∉ best_of_ids)
                  ∧ Track.album_type t = "album") unique_tracks)).

(** line 546 *)
Definition chronological_of (unique_tracks : list Track.t) : list Track.t :=
  Py.sorted_str Track.release_date unique_tracks.

Section ArtistDeepDive.
Context `{Python} `{Catalog}.

(** lines 497-506, inside the [try] of line 495: an exception of
    [get_track] leaves the loop with the tracks appended so far. *)
Fixpoint append_album_tracks (album : Album.t) (release_date album_type : string)
    (tracks : list TrackObj.t) (all_tracks : list Track.t) : M (list Track.t) :=
  match tracks with
  | [] => ret all_tracks
  | track :: tracks' =>
      r <- attempt (call (GetTrack (TrackObj.id track))) ;;
      match r with
      | Raise _ => ret all_tracks
      | Ok full_track =>
          append_album_tracks album release_date album_type tracks'
            (all_tracks ++ [{|
               Track.id := TrackObj.id track;
               Track.name := TrackObj.name track;
               Track.popularity := default 0%Z (TrackObj.popularity full_track);
               Track.release_date := release_date;
               Track.album_type := album_type;
               Track.album_name := Album.name album |}])
      end
  end.

(** lines 494-509: one album; its failure is logged and skipped. *)
Definition collect_album (all_tracks : list Track.t) (album : Album.t)
  : M (list Track.t) :=
  r <- attempt (call (GetAlbumTracksFull (Album.id album))) ;;
  match r with
  | Raise _ => ret all_tracks
  | Ok (tracks, release_date, album_type) =>
      append_album_tracks album release_date album_type tracks all_tracks
  end.

(** lines 551-554 *)
Definition add_in_chunks (playlist_id : string) (track_ids : list string) : M unit :=
  for_each (Py.batches 100 track_ids)
    (λ _ chunk, call (AddTracksToPlaylist playlist_id chunk)) ().

Definition when (b : bool) (m : M unit) : M unit := if b then m else ret ().

Definition nonempty {A} (l : list A) : bool :=
  match l with [] => false | _ => true end.

(** lines 513-568, once the tracks are collected *)
Definition build_playlists (artist_id artist_display_name : string)
    (deep_cuts_threshold : option Z) (albums : list Album.t)
    (all_tracks : list Track.t) : M DeepDiveResult.t :=
  let unique_tracks := deduplicate all_tracks in
  let best_of_tracks := best_of unique_tracks in
  let best_of_ids := id_set best_of_tracks in
  best_of_playlist <- call (CreatePlaylist
    ("Best of " +:+ artist_display_name)
    ("Top 20 most popular tracks by " +:+ artist_display_name)) ;;
  _ <- when (nonempty best_of_tracks)
    (call (AddTracksToPlaylist (Playlist.id best_of_playlist)
       (Track.id <$> best_of_tracks))) ;;
  deep_cuts <-
    match deep_cuts_threshold, unique_tracks with
    | Some threshold, _ => ret (deep_cuts_of threshold best_of_ids unique_tracks)
    | None, [] => ret []
    | None, _ :: _ =>
        raise (Exception
          "'<' not supported between instances of 'int' and 'NoneType'")
    end ;;
  deep_cuts_playlist <- call (CreatePlaylist
    (artist_display_name +:+ ": Deep Cuts")
    ("Hidden gems and lesser-known tracks by " +:+ artist_display_name)) ;;
  _ <- when (nonempty deep_cuts)
    (call (AddTracksToPlaylist (Playlist.id deep_cuts_playlist)
       (Track.id <$> deep_cuts))) ;;
  let chronological := chronological_of unique_tracks in
  chrono_playlist <- call (CreatePlaylist
    (artist_display_name +:+ ": Through the Years")
    ("Complete discography of " +:+ artist_display_name
       +:+ " in chronological order")) ;;
  _ <- when (nonempty chronological)
    (add_in_chunks (Playlist.id chrono_playlist) (Track.id <$> chronological)) ;;
  ret {|
    DeepDiveResult.artist_name := artist_display_name;
    DeepDiveResult.artist_id := artist_id;
    DeepDiveResult.playlists_created := [
      {| info_name := Playlist.name best_of_playlist;
         info_id := Playlist.id best_of_playlist;
         info_track_count := length best_of_tracks |};
      {| info_name := Playlist.name deep_cuts_playlist;
         info_id := Playlist.id deep_cuts_playlist;
         info_track_count := length deep_cuts |};
      {| info_name := Playlist.name chrono_playlist;
         info_id := Playlist.id chrono_playlist;
         info_track_count := length chronological |} ];
    DeepDiveResult.total_albums_analyzed := length albums;
    DeepDiveResult.total_tracks_analyzed := length unique_tracks |}.

(** lines 472-568; [inl] is the text of an early return. *)
Definition artist_deep_dive (arguments : DeepDiveArgs.t)
  : M (string + DeepDiveResult.t) :=
  let artist_name := arg_get (DeepDiveArgs.artist_name arguments) in
  let include_singles :=
    arg_get_default (DeepDiveArgs.include_singles arguments) true in
  let deep_cuts_threshold :=
    arg_get_default (DeepDiveArgs.deep_cuts_max_popularity arguments) 40%Z in
  search_results <- call (SearchArtist artist_name 1) ;;
  match search_results with
  | [] => ret (inl ("Artist '" +:+ fmt artist_name +:+ "' not found."))
  | artist :: _ =>
      albums <- call (GetArtistAlbums (Artist.id artist) include_singles) ;;
      all_tracks <- for_each albums collect_album [] ;;
      r <- build_playlists (Artist.id artist) (Artist.name artist)
             deep_cuts_threshold albums all_tracks ;;
      ret (inr r)
  end.

End ArtistDeepDive.

(** *** PlaylistLibrarian (lines 570-669) *)

Module LibrarianArgs.
Record t := { dry_run : Arg bool; category_style : Arg string }.
End LibrarianArgs.

Module Change.
Record t := {
  playlist_id : string;
  original_name : string;
  new_name : string;
  detected_category : string;
  applied : bool
}.
End Change.

Module LibrarianResult.
Record t := {
  playlists_analyzed : nat;
  playlists_categorized : nat;
  playlists_skipped : nat;
  dry_run : option bool;
  changes : list Change.t;
  category_summary : Py.odict nat
}.
End LibrarianResult.

(** [s.split()]: the maximal runs of characters that are not white space.
    The white space of a [str] is that of Unicode: U+0009..U+000D,
    U+001C..U+0020, U+0085, U+00A0, U+1680, U+2000..U+200A, U+2028, U+2029,
    U+202F, U+205F and U+3000. [is_space] is its ASCII part; [space_width s]
    is the number of bytes of the white-space character at the head of the
    UTF-8 string [s], and 0 when [s] starts with another character. *)
Definition is_space (c : Ascii.ascii) : bool :=
  bool_decide (Ascii.nat_of_ascii c ∈ [9; 10; 11; 12; 13; 28; 29; 30; 31; 32]).

Definition space_width (s : string) : nat :=
  match s with
  | String c1 (String c2 (String c3 _)) =>
      let b1 := Ascii.nat_of_ascii c1 in
      let b2 := Ascii.nat_of_ascii c2 in
      let b3 := Ascii.nat_of_ascii c3 in
      if is_space c1 then 1
      else if (b1 =? 194) && ((b2 =? 133) || (b2 =? 160)) then 2
      else if (b1 =? 225) && (b2 =? 154) && (b3 =? 128) then 3
      else if (b1 =? 226) && (b2 =? 128)
              && (((128 <=? b3) && (b3 <=? 138))
                  || (b3 =? 168) || (b3 =? 169) || (b3 =? 175)) then 3
      else if (b1 =? 226) && (b2 =? 129) && (b3 =? 159) then 3
      else if (b1 =? 227) && (b2 =? 128) && (b3 =? 128) then 3
      else 0
  | String c1 (String c2 EmptyString) =>
      let b1 := Ascii.nat_of_ascii c1 in
      let b2 := Ascii.nat_of_ascii c2 in
      if is_space c1 then 1
      else if (b1 =? 194) && ((b2 =? 133) || (b2 =? 160)) then 2
      else 0
  | String c1 EmptyString => if is_space c1 then 1 else 0
  | EmptyString => 0
  end.

(** [skip] counts the bytes still to pass of a white-space character that
    has been recognised. *)
Fixpoint split_ws_go (skip : nat) (cur : string) (s : string) : list string :=
  match s with
  | EmptyString => if Py.truthy cur then [cur] else []
  | String c s' =>
      match skip with
      | S skip' => split_ws_go skip' cur s'
      | 0 =>
          match space_width (String c s') with
          | 0 => split_ws_go 0 (cur +:+ String c "") s'
          | S width =>
              (if Py.truthy cur then [cur] else []) ++ split_ws_go width "" s'
          end
      end
  end.

Definition split_ws (s : string) : list string := split_ws_go 0 "" s.

(** [round(c / total * 100)] on counts: the true division and the product
    are those of IEEE 754 binary64, and [round] goes to the nearest integer,
    a tie to the even one. The counts are numbers of genre tags, far below
    2^53, so that their conversion to [float] is exact. *)
Definition float_of_nat (n : nat) : PrimFloat.float :=
  PrimFloat.of_uint63 (Uint63.of_Z (Z.of_nat n)).

Definition round_half_even (x : PrimFloat.float) : Z :=
  match FloatOps.Prim2SF x with
  | SpecFloat.S754_finite sign m e =>
      let magnitude :=
        match e with
        | Zneg p =>
            let d := Z.pow_pos 2 p in
            let q := (Z.pos m / d)%Z in
            let r := (Z.pos m mod d)%Z in
            if (2 * r <? d)%Z then q
            else if (d <? 2 * r)%Z then (q + 1)%Z
            else if Z.even q then q else (q + 1)%Z
        | Z0 => Z.pos m
        | Zpos p => (Z.pos m * Z.pow_pos 2 p)%Z
        end in
      if sign then (- magnitude)%Z else magnitude
  | _ => 0%Z
  end.

Definition percent (c total : nat) : Z :=
  round_half_even
    (PrimFloat.mul (PrimFloat.div (float_of_nat c) (float_of_nat total))
                   (float_of_nat 100)).

Section Classifier.
Context `{Python}.

(** line 631: [sum(1 for g in all_genres if any(kw in g.lower() for kw in keywords))] *)
Definition genre_score (keywords all_genres : list string) : nat :=
  foldr (λ g n, if existsb (λ kw, Py.contains kw (lower g)) keywords
                then 1 + n else n) 0 all_genres.

(** lines 630-634: one iteration over the table *)
Definition classify_step (all_genres : list string)
    (best : option string * nat) (entry : string * list string)
  : option string * nat :=
  let '(best_category, best_score) := best in
  let '(category, keywords) := entry in
  let score := genre_score keywords all_genres in
  if (best_score <? score)%nat then (Some category, score) else best.

(** lines 628-634 *)
Definition classify (taxonomy : list (string * list string))
    (all_genres : list string) : option string * nat :=
  foldl (classify_step all_genres) (None, 0) taxonomy.

(** line 636: [best_category and best_score > 0] *)
Definition classified (best : option string * nat) : option string :=
  match best with
  | (Some category, best_score) =>
      if Py.truthy category && (0 <? best_score)%nat then Some category else None
  | (None, _) => None
  end.

End Classifier.

Section PlaylistLibrarian.
Context `{Python} `{Catalog}.

(** The variables of the loop of lines 585-659. *)
Record LibrarianState := {
  st_changes : list Change.t;
  st_category_counts : Py.odict nat;
  st_skipped : nat
}.

Definition skip (st : LibrarianState) : LibrarianState :=
  {| st_changes := st_changes st;
     st_category_counts := st_category_counts st;
     st_skipped := S (st_skipped st) |}.

(** line 605: [[t['id'] for t in tracks if t and t.get('id')]] *)
Definition sampled_ids (tracks : list (option PlaylistTrack.t)) : list string :=
  omap (λ t, match t with
             | Some {| PlaylistTrack.id := Some i |} =>
                 if Py.truthy i then Some i else None
             | _ => None
             end) tracks.

(** lines 611-621: [inl] when the playlist is skipped *)
Definition playlist_genres (track_ids : list string)
  : M (unit + Py.odict (list string)) :=
  r <- attempt (
    artist_ids <- get_artists_for_tracks track_ids ;;
    match artist_ids with
    | [] => ret (inl ())
    | _ => artist_genres <- get_artists_genres artist_ids ;;
           ret (inr artist_genres)
    end) ;;
  match r with
  | Raise _ => ret (inl ())
  | Ok x => ret x
  end.

(** lines 637-641 *)
Definition prefixed_name (style : option string) (best_category name : string)
  : M string :=
  if bool_decide (style = Some "emoji")
  then ret (best_category +:+ "/" +:+ name)
  else match split_ws best_category !! 1 with
       | Some text_cat => ret ("[" +:+ text_cat +:+ "] " +:+ name)
       | None => raise (Exception "list index out of range")
       end.

(** lines 643-657 *)
Definition record_change (dry_run : bool) (style : option string)
    (playlist : Playlist.t) (best_category : string) (st : LibrarianState)
  : M LibrarianState :=
  let name := Playlist.name playlist in
  new_name <- prefixed_name style best_category name ;;
  let change applied := {|
    Change.playlist_id := Playlist.id playlist;
    Change.original_name := name;
    Change.new_name := new_name;
    Change.detected_category := best_category;
    Change.applied := applied |} in
  let category_counts :=
    Py.set best_category
      (1 + default 0 (Py.get best_category (st_category_counts st)))
      (st_category_counts st) in
  let st' applied := {|
    st_changes := st_changes st ++ [change applied];
    st_category_counts := category_counts;
    st_skipped := st_skipped st |} in
  if dry_run then ret (st' false)
  else
    r <- attempt (call (ChangePlaylistDetails (Playlist.id playlist) new_name)) ;;
    match r with
    | Ok _ => ret (st' true)
    | Raise _ => ret (st' false)
    end.

(** lines 585-659: one playlist of [owned] *)
Definition librarian_step (dry_run : bool) (style : option string)
    (st : LibrarianState) (playlist : Playlist.t) : M LibrarianState :=
  let name := Playlist.name playlist in
  if existsb (λ entry, Py.startswith name entry.1) GENRE_CATEGORIES
  then ret (skip st)
  else
    r <- attempt (call (GetPlaylistTracks (Playlist.id playlist))) ;;
    match r with
    | Raise _ => ret (skip st)
    | Ok tracks =>
        let tracks := take 30 tracks in
        match tracks, sampled_ids tracks with
        | [], _ => ret (skip st)
        | _, [] => ret (skip st)
        | _, track_ids =>
            g <- playlist_genres track_ids ;;
            match g with
            | inl _ => ret (skip st)
            | inr artist_genres =>
                let all_genres := concat (Py.values artist_genres) in
                match classified (classify GENRE_CATEGORIES all_genres) with
                | Some best_category =>
                    record_change dry_run style playlist best_category st
                | None => ret (skip st)
                end
            end
        end
    end.

(** lines 570-669 *)
Definition playlist_librarian (arguments : LibrarianArgs.t)
  : M LibrarianResult.t :=
  let dry_run := arg_get_default (LibrarianArgs.dry_run arguments) true in
  let style := arg_get_default (LibrarianArgs.category_style arguments) "emoji" in
  all_playlists <- call GetAllPlaylists ;;
  user_id <- call CurrentUser ;;
  let owned := filter (λ p, Playlist.owner_id p = user_id) all_playlists in
  st <- for_each owned (librarian_step (default false dry_run) style)
          {| st_changes := [];
             st_category_counts := (λ entry, (entry.1, 0)) <$> GENRE_CATEGORIES;
             st_skipped := 0 |} ;;
  ret {|
    LibrarianResult.playlists_analyzed := length owned;
    LibrarianResult.playlists_categorized := length (st_changes st);
    LibrarianResult.playlists_skipped := st_skipped st;
    LibrarianResult.dry_run := dry_run;
    LibrarianResult.changes := st_changes st;
    LibrarianResult.category_summary :=
      filter (λ kv, (0 < kv.2)%nat) (st_category_counts st) |}.

End PlaylistLibrarian.

(** *** MyTopMusic (lines 671-764) *)

Module TopMusicArgs.
Record t := {
  time_range : Arg string;
  top_count : Arg Z;
  create_playlist : Arg bool
}.
End TopMusicArgs.

Record RankedTrack := {
  rt_rank : nat; rt_name : string; rt_artist : string; rt_id : string
}.

Record RankedArtist := {
  ra_rank : nat; ra_name : string; ra_genres : list string
}.

(** [genre_breakdown] holds the rounded percentages of the reply. The
    duration is kept in milliseconds, the integer from which the reply's
    [round(total_duration_ms / 3600000, 1)] is computed. *)
Module TopMusicResult.
Record t := {
  time_range : string;
  period_label : string;
  top_tracks : list RankedTrack;
  top_artists : list RankedArtist;
  genre_breakdown : list (string * Z);
  top_tracks_analyzed : nat;
  top_artists_analyzed : nat;
  total_duration_ms : Z;
  recap_playlist : option PlaylistInfo
}.
End TopMusicResult.

(** lines 677-681 *)
Definition period_labels : Py.odict string := [
  ("short_term", "Last 4 Weeks");
  ("medium_term", "Last 6 Months");
  ("long_term", "All Time")
].

(** [d[k] = d.get(k, 0) + 1] *)
Definition count_up (k : string) (d : Py.odict nat) : Py.odict nat :=
  Py.set k (default 0 (Py.get k d) + 1) d.

(** [sorted(..., key=lambda x: -count)]: ascending in the negated count *)
Definition by_count_desc {A} (count : A → nat) (l : list A) : list A :=
  Py.sorted (λ x, (- Z.of_nat (count x))%Z) l.

Definition truthy_arg (a : option bool) : bool := default false a.

Section MyTopMusic.
Context `{Python} `{Catalog}.

(** lines 697-704 *)
Fixpoint rank_tracks (i : nat) (tracks : list TrackObj.t)
    (total_duration_ms : Z) (display : list RankedTrack)
  : M (Z * list RankedTrack) :=
  match tracks with
  | [] => ret (total_duration_ms, display)
  | track :: tracks' =>
      match TrackObj.artists track with
      | [] => raise (Exception "list index out of range")
      | a :: _ =>
          rank_tracks (S i) tracks'
            (total_duration_ms + default 0 (TrackObj.duration_ms track))%Z
            (display ++ [{| rt_rank := i + 1; rt_name := TrackObj.name track;
                            rt_artist := Artist.name a;
                            rt_id := TrackObj.id track |}])
      end
  end.

(** lines 709-716 *)
Definition rank_artists (artists : list Artist.t) : list RankedArtist :=
  imap (λ i artist, {| ra_rank := i + 1; ra_name := Artist.name artist;
                       ra_genres := take 3 (Artist.genres artist) |}) artists.

(** lines 720-722 *)
Definition bucket (genre_counts : Py.odict nat) (genre : string)
  : M (Py.odict nat) :=
  if Py.truthy genre
  then match split_ws genre with
       | simple :: _ => ret (count_up simple genre_counts)
       | [] => raise (Exception "list index out of range")
       end
  else ret (count_up "other" genre_counts).

(** lines 671-764; [inl] is the text of an early return. *)
Definition my_top_music (arguments : TopMusicArgs.t)
  : M (string + TopMusicResult.t) :=
  let time_range := arg_get_default (TopMusicArgs.time_range arguments) "short_term" in
  top_count <-
    match arg_get_default (TopMusicArgs.top_count arguments) 10%Z with
    | Some n => ret (Z.min n 50)
    | None => raise (Exception
        "int() argument must be a string, a bytes-like object or a real number, not 'NoneType'")
    end ;;
  let create_playlist_flag :=
    truthy_arg (arg_get_default (TopMusicArgs.create_playlist arguments) false) in
  match time_range ≫= λ tr, (λ label, (tr, label)) <$> Py.get tr period_labels with
  | None =>
      ret (inl ("Invalid time_range: " +:+ fmt time_range
           +:+ ". Must be 'short_term', 'medium_term', or 'long_term'."))
  | Some (time_range, period_label) =>
      top_tracks <- call (GetTopTracks time_range 50) ;;
      top_artists <- call (GetTopArtists time_range 50) ;;
      ranked <- rank_tracks 0 (Py.slice_to top_tracks top_count) 0%Z [] ;;
      let top_artists_shown := Py.slice_to top_artists top_count in
      let all_genres := concat (Artist.genres <$> top_artists_shown) in
      genre_counts <- for_each all_genres bucket [] ;;
      let total_genres :=
        match sum_list (Py.values genre_counts) with 0 => 1 | n => n end in
      recap_playlist <-
        (if create_playlist_flag && nonempty top_tracks
         then
           playlist <- call (CreatePlaylist
             ("My Top Tracks - " +:+ month_year)
             ("Your top tracks for " +:+ period_label)) ;;
           let track_ids := TrackObj.id <$> Py.slice_to top_tracks top_count in
           _ <- call (AddTracksToPlaylist (Playlist.id playlist) track_ids) ;;
           ret (Some {| info_name := Playlist.name playlist;
                        info_id := Playlist.id playlist;
                        info_track_count := length track_ids |})
         else ret None) ;;
      ret (inr {|
        TopMusicResult.time_range := time_range;
        TopMusicResult.period_label := period_label;
        TopMusicResult.top_tracks := ranked.2;
        TopMusicResult.top_artists := rank_artists top_artists_shown;
        TopMusicResult.genre_breakdown :=
          (λ gc, (gc.1, percent gc.2 total_genres))
            <$> take 5 (by_count_desc snd genre_counts);
        TopMusicResult.top_tracks_analyzed := length top_tracks;
        TopMusicResult.top_artists_analyzed := length top_artists;
        TopMusicResult.total_duration_ms := ranked.1;
        TopMusicResult.recap_playlist := recap_playlist |})
  end.

End MyTopMusic.

(** *** Discover (lines 766-948) *)

Module DiscoverArgs.
Record t := {
  seed_type : Arg string;
  seed_value : Arg string;
  year_range : Arg string;
  limit : Arg Z;
  create_playlist : Arg bool
}.
End DiscoverArgs.

Module Recommendation.
Record t := { name : string; artist : string; id : string; popularity : Z }.
End Recommendation.

Module DiscoverResult.
Record t := {
  seed_type : string;
  seed_value : string;
  seed_genres : list string;
  year_range : option string;
  recommendations : list Recommendation.t;
  count : nat;
  playlist_created : option PlaylistInfo
}.
End DiscoverResult.

(** What step 1 determines (lines 788-790). *)
Record Seed := {
  seed_genres : list string;
  seed_artist_name : option string;
  seed_popularity : Z
}.

(** The variables of steps 3 and 4 (lines 841-843). *)
Record Stage := {
  recommendations : list Candidate.t;
  seen_track_ids : gset string;
  artist_track_counts : gmap string nat
}.

(** The values of one run of steps 2 to 5. *)
Record DiscoverRun := {
  run_exclude_ids : gset string;
  run_genre_stage : Stage;                 (* after step 3 *)
  run_candidates : list Candidate.t;       (* after step 4 *)
  run_recommendations : list Candidate.t   (* after step 5 *)
}.

(** lines 841-843 *)
Definition stage0 : Stage :=
  {| recommendations := []; seen_track_ids := ∅; artist_track_counts := ∅ |}.

(** [s.split(':')[-1]] *)
Fixpoint last_segment (cur s : string) : string :=
  match s with
  | EmptyString => cur
  | String c s' =>
      if bool_decide (c = Ascii.ascii_of_nat 58) then last_segment "" s'
      else last_segment (cur +:+ String c "") s'
  end.

Definition truthy_str (o : option string) : bool :=
  match o with Some s => Py.truthy s | None => false end.

(** line 854 *)
Definition primary_artist_id (track : TrackObj.t) : option string :=
  match TrackObj.artists track with
  | a :: _ => Some (Artist.id a)
  | [] => None
  end.

(** lines 849-869: one track of a genre search *)
Definition genre_track (exclude_ids : gset string) (genre : string)
    (st : Stage) (track : TrackObj.t) : Stage :=
  let track_id := TrackObj.id track in
  if bool_decide (track_id ∈ seen_track_ids st ∨ track_id ∈ exclude_ids) then st
  else
    let artist_id := primary_artist_id track in
    let count a := default 0 (artist_track_counts st !! a) in
    match artist_id with
    | Some a =>
        if Py.truthy a && (3 <=? count a)%nat then st
        else {|
          recommendations := recommendations st ++ [{|
            Candidate.id := track_id;
            Candidate.name := TrackObj.name track;
            Candidate.artist :=
              match TrackObj.artists track with
              | a0 :: _ => Artist.name a0
              | [] => "Unknown"
              end;
            Candidate.artist_id := artist_id;
            Candidate.popularity := default 0%Z (TrackObj.popularity track);
            Candidate.source_genre := genre |}];
          seen_track_ids := seen_track_ids st ∪ {[ track_id ]};
          artist_track_counts :=
            if Py.truthy a then <[ a := count a + 1 ]> (artist_track_counts st)
            else artist_track_counts st |}
    | None => {|
        recommendations := recommendations st ++ [{|
          Candidate.id := track_id;
          Candidate.name := TrackObj.name track;
          Candidate.artist := "Unknown";
          Candidate.artist_id := None;
          Candidate.popularity := default 0%Z (TrackObj.popularity track);
          Candidate.source_genre := genre |}];
        seen_track_ids := seen_track_ids st ∪ {[ track_id ]};
        artist_track_counts := artist_track_counts st |}
    end.

(** lines 887-899: one top track of a matching artist *)
Definition top_track (exclude_ids : gset string) (artist : Artist.t)
    (st : Stage) (track : TrackObj.t) : Stage :=
  let track_id := TrackObj.id track in
  if bool_decide (track_id ∈ seen_track_ids st ∨ track_id ∈ exclude_ids) then st
  else {|
    recommendations := recommendations st ++ [{|
      Candidate.id := track_id;
      Candidate.name := TrackObj.name track;
      Candidate.artist := Artist.name artist;
      Candidate.artist_id := Some (Artist.id artist);
      Candidate.popularity := default 0%Z (TrackObj.popularity track);
      Candidate.source_genre := "top_artist_match" |}];
    seen_track_ids := seen_track_ids st ∪ {[ track_id ]};
    artist_track_counts := artist_track_counts st |}.

(** lines 880-881: [set(artist.get('genres', [])).intersection(seed_genres)] *)
Definition shares_genre (seed_genres : list string) (artist : Artist.t) : bool :=
  existsb (λ g, bool_decide (g ∈ seed_genres)) (Artist.genres artist).

(** lines 907-909 *)
Definition score_track (seed_popularity : Z) (t : Candidate.t) : Z :=
  Z.abs (Candidate.popularity t - seed_popularity).

(** lines 911-912 *)
Definition rank (seed_popularity limit : Z) (recommendations : list Candidate.t)
  : list Candidate.t :=
  Py.slice_to (Py.sorted (score_track seed_popularity) recommendations) limit.

Section Discover.
Context `{Python} `{Catalog}.

(** lines 819-821 *)
Definition count_genres (genre_counts : Py.odict nat) (artist : Artist.t)
  : Py.odict nat :=
  foldl (λ d genre, count_up genre d) genre_counts (Artist.genres artist).

(** lines 792-824; [inl] is the text of an early return. *)
Definition resolve_seed (seed_type : string) (seed_value : option string)
  : M (string + Seed) :=
  if bool_decide (seed_type = "artist") then
    search_results <- call (SearchArtist seed_value 1) ;;
    match search_results with
    | [] => ret (inl ("Artist '" +:+ fmt seed_value +:+ "' not found."))
    | artist :: _ =>
        artist_details <- call (GetArtist (Artist.id artist)) ;;
        ret (inr {| seed_genres := take 3 (Artist.genres artist_details);
                    seed_artist_name := Some (Artist.name artist);
                    seed_popularity := 50 |})
    end
  else if bool_decide (seed_type = "track") then
    match seed_value with
    | None => raise (Exception "argument of type 'NoneType' is not iterable")
    | Some seed_value =>
        let track_id := last_segment "" seed_value in
        track <- call (GetTrack track_id) ;;
        let seed_popularity := default 50%Z (TrackObj.popularity track) in
        match TrackObj.artists track with
        | a :: _ =>
            artist_details <- call (GetArtist (Artist.id a)) ;;
            ret (inr {| seed_genres := take 3 (Artist.genres artist_details);
                        seed_artist_name := Some (Artist.name artist_details);
                        seed_popularity := seed_popularity |})
        | [] =>
            ret (inr {| seed_genres := [];
                        seed_artist_name := None;
                        seed_popularity := seed_popularity |})
        end
    end
  else if bool_decide (seed_type = "listening_history") then
    top_artists <- call (GetTopArtists "medium_term" 10) ;;
    let genre_counts := foldl count_genres [] top_artists in
    ret (inr {| seed_genres := take 3 (fst <$> by_count_desc snd genre_counts);
                seed_artist_name := None;
                seed_popularity := 50 |})
  else
    ret (inr {| seed_genres := []; seed_artist_name := None;
                seed_popularity := 50 |}).

(** lines 833-838 *)
Definition exclusion_set : M (gset string) :=
  recent <- attempt (call (GetRecentTrackIds 50)) ;;
  match recent with
  | Raise _ => ret ∅
  | Ok recent =>
      saved <- attempt (call (GetUserSavedTrackIds 100)) ;;
      match saved with
      | Raise _ => ret (list_to_set recent)
      | Ok saved => ret (list_to_set recent ∪ list_to_set saved)
      end
  end.

(** lines 845-872: one seed genre *)
Definition genre_search (exclude_ids : gset string) (year_range : option string)
    (st : Stage) (genre : string) : M Stage :=
  r <- attempt (call (SearchByGenre genre year_range 20)) ;;
  match r with
  | Raise _ => ret st
  | Ok tracks => ret (foldl (genre_track exclude_ids genre) st tracks)
  end.

(** lines 884-902: one matching artist *)
Definition artist_top_tracks (exclude_ids : gset string)
    (st : Stage) (artist : Artist.t) : M Stage :=
  r <- attempt (call (GetArtistTopTracks (Artist.id artist))) ;;
  match r with
  | Raise _ => ret st
  | Ok top_tracks =>
      ret (foldl (top_track exclude_ids artist) st (take 3 top_tracks))
  end.

(** lines 875-904 *)
Definition augment (seed_type : string) (seed_genres : list string)
    (exclude_ids : gset string) (st : Stage) : M Stage :=
  if bool_decide (seed_type ∈ ["artist"; "track"]) then
    r <- attempt (call (GetTopArtists "medium_term" 20)) ;;
    match r with
    | Raise _ => ret st
    | Ok top_artists =>
        let matching_artists :=
          List.filter (shares_genre seed_genres) top_artists in
        for_each (take 5 matching_artists) (artist_top_tracks exclude_ids) st
    end
  else ret st.

(** lines 832-912 *)
Definition discover_pipeline (seed_type : string) (seed : Seed)
    (year_range : option string) (limit : Z) : M DiscoverRun :=
  exclude_ids <- exclusion_set ;;
  st3 <- for_each (seed_genres seed) (genre_search exclude_ids year_range)
           {| recommendations := []; seen_track_ids := ∅;
              artist_track_counts := ∅ |} ;;
  st4 <- augment seed_type (seed_genres seed) exclude_ids st3 ;;
  ret {| run_exclude_ids := exclude_ids;
         run_genre_stage := st3;
         run_candidates := recommendations st4;
         run_recommendations :=
           rank (seed_popularity seed) limit (recommendations st4) |}.

Definition to_recommendation (t : Candidate.t) : Recommendation.t := {|
  Recommendation.name := Candidate.name t;
  Recommendation.artist := Candidate.artist t;
  Recommendation.id := Candidate.id t;
  Recommendation.popularity := Candidate.popularity t |}.

(** lines 916-948 *)
Definition discover_result (seed_type : string) (seed_value : option string)
    (year_range : option string) (create_playlist_flag : bool)
    (seed : Seed) (recommendations : list Candidate.t) : M DiscoverResult.t :=
  discover_playlist <-
    (if create_playlist_flag && nonempty recommendations
     then
       playlist <- call (CreatePlaylist
         ("Discover: " +:+
            (if truthy_str (seed_artist_name seed)
             then fmt (seed_artist_name seed) else "My Genres"))
         ("Recommendations based on " +:+ seed_type +:+ ": " +:+
            (if truthy_str seed_value
             then fmt seed_value else "listening history"))) ;;
       let track_ids := Candidate.id <$> recommendations in
       _ <- call (AddTracksToPlaylist (Playlist.id playlist) track_ids) ;;
       ret (Some {| info_name := Playlist.name playlist;
                    info_id := Playlist.id playlist;
                    info_track_count := length track_ids |})
     else ret None) ;;
  ret {|
    DiscoverResult.seed_type := seed_type;
    DiscoverResult.seed_value :=
      if truthy_str seed_value then fmt seed_value else "listening_history";
    DiscoverResult.seed_genres := seed_genres seed;
    DiscoverResult.year_range := year_range;
    DiscoverResult.recommendations := to_recommendation <$> recommendations;
    DiscoverResult.count := length recommendations;
    DiscoverResult.playlist_created := discover_playlist |}.

(** lines 766-948; [inl] is the text of an early return. *)
Definition discover (arguments : DiscoverArgs.t)
  : M (string + DiscoverResult.t) :=
  let seed_type := arg_get (DiscoverArgs.seed_type arguments) in
  let seed_value := arg_get (DiscoverArgs.seed_value arguments) in
  let year_range :=
    arg_get_default (DiscoverArgs.year_range arguments) "2015-2025" in
  limit <-
    match arg_get_default (DiscoverArgs.limit arguments) 30%Z with
    | Some n => ret (Z.min n 50)
    | None => raise (Exception
        "'<' not supported between instances of 'int' and 'NoneType'")
    end ;;
  let create_playlist_flag :=
    truthy_arg (arg_get_default (DiscoverArgs.create_playlist arguments) false) in
  match seed_type with
  | Some seed_type =>
      if bool_decide (seed_type ∈ ["artist"; "track"; "listening_history"]) then
        if bool_decide (seed_type ∈ ["artist"; "track"]) && negb (truthy_str seed_value)
        then ret (inl ("seed_value is required for seed_type '"
                       +:+ seed_type +:+ "'."))
        else
          s <- resolve_seed seed_type seed_value ;;
          match s with
          | inl text => ret (inl text)
          | inr seed =>
              if nonempty (seed_genres seed) then
                run <- discover_pipeline seed_type seed year_range limit ;;
                r <- discover_result seed_type seed_value year_range
                       create_playlist_flag seed (run_recommendations run) ;;
                ret (inr r)
              else ret (inl
                "Could not determine genres for recommendations. Try a different seed.")
          end
      else ret (inl ("Invalid seed_type: " +:+ seed_type
             +:+ ". Must be 'artist', 'track', or 'listening_history'."))
  | None => ret (inl
      "Invalid seed_type: None. Must be 'artist', 'track', or 'listening_history'.")
  end.

End Discover.

(** *** The tool dispatcher (lines 202-970) *)

Inductive Invocation : Type :=
| ArtistDeepDive (arguments : DeepDiveArgs.t)
| PlaylistLibrarian (arguments : LibrarianArgs.t)
| MyTopMusic (arguments : TopMusicArgs.t)
| Discover (arguments : DiscoverArgs.t).

(** The single [TextContent] returned: a plain message, or the JSON dump
    of a result record. *)
Inductive Reply : Type :=
| Text (text : string)
| DeepDiveJson (r : DeepDiveResult.t)
| LibrarianJson (r : LibrarianResult.t)
| TopMusicJson (r : TopMusicResult.t)
| DiscoverJson (r : DiscoverResult.t).

Section Dispatcher.
Context `{Python} `{Catalog}.

Definition reply_of {R} (json : R → Reply) (x : string + R) : Reply :=
  match x with inl text => Text text | inr r => json r end.

Definition run_tool (inv : Invocation) : M Reply :=
  match inv with
  | ArtistDeepDive a => x <- artist_deep_dive a ;; ret (reply_of DeepDiveJson x)
  | PlaylistLibrarian a => r <- playlist_librarian a ;; ret (LibrarianJson r)
  | MyTopMusic a => x <- my_top_music a ;; ret (reply_of TopMusicJson x)
  | Discover a => x <- discover a ;; ret (reply_of DiscoverJson x)
  end.

(** lines 209-210 and 957-970: every exception of a tool becomes a
    message. *)
Definition handle_call_tool (inv : Invocation) : M Reply :=
  r <- attempt (run_tool inv) ;;
  match r with
  | Ok reply => ret reply
  | Raise (SpotifyException se) =>
      ret (Text ("An error occurred with the Spotify Client: " +:+ se))
  | Raise (Exception e) =>
      ret (Text ("Unexpected error occurred: " +:+ e))
  end.

End Dispatcher.

(** ** Vocabulary of the statements *)

Section Vocabulary.
Context `{Python}.

(** The deduplication key of a collected track (line 516). *)
Definition key_of (t : Track.t) : string := lower (Track.name t).

(** [r] occurs in [l], nothing before it with the same key is as popular
    and nothing after it with the same key is more popular. *)
Definition first_best (l : list Track.t) (r : Track.t) : Prop :=
  ∃ l1 l2, l = l1 ++ r :: l2 ∧
    (∀ u, u ∈ l1 → key_of u = key_of r → (Track.popularity u < Track.popularity r)%Z) ∧
    (∀ u, u ∈ l2 → key_of u = key_of r → (Track.popularity u ≤ Track.popularity r)%Z).

(** The loop invariant of lines 514-518, after the tracks [l]. *)
Record dedup_inv (l : list Track.t) (seen : Py.odict Track.t) : Prop := {
  inv_nodup : NoDup (Py.keys seen);
  inv_best : ∀ k r, Py.get k seen = Some r → k = key_of r ∧ first_best l r;
  inv_all : ∀ t, t ∈ l → Py.get (key_of t) seen ≠ None
}.

(** [kw] is a substring of [s]. *)
Definition occurs_in (kw s : string) : Prop :=
  ∃ pre post, s = pre +:+ kw +:+ post.

(** Some keyword of the category is a substring of the lower-cased tag. *)
Definition tag_matches (keywords : list string) (g : string) : Prop :=
  ∃ kw, kw ∈ keywords ∧ occurs_in kw (lower g).

(** [n] is the number of positions of [l] whose element satisfies [P]. *)
Inductive counts {A} (P : A → Prop) : list A → nat → Prop :=
| counts_nil : counts P [] 0
| counts_yes x l n : P x → counts P l n → counts P (x :: l) (S n)
| counts_no x l n : ¬ P x → counts P l n → counts P (x :: l) n.

(** The score of an entry of the table. *)
Definition score_of (all_genres : list string) (entry : string * list string) : nat :=
  genre_score entry.2 all_genres.

(** What the loop of lines 630-634 has found after the entries [l]. *)
Definition first_max (all_genres : list string) (l : list (string * list string))
    (best : option string * nat) : Prop :=
  (best = (None, 0) ∧ ∀ e, e ∈ l → score_of all_genres e = 0) ∨
  (∃ l1 e l2, l = l1 ++ e :: l2 ∧
     best = (Some e.1, score_of all_genres e) ∧
     0 < score_of all_genres e ∧
     (∀ e', e' ∈ l1 → score_of all_genres e' < score_of all_genres e) ∧
     (∀ e', e' ∈ l2 → score_of all_genres e' ≤ score_of all_genres e)).

End Vocabulary.

(** No accepted candidate is excluded. *)
Definition clean (exclude_ids : gset string) (st : Stage) : Prop :=
  ∀ c, c ∈ recommendations st → Candidate.id c ∉ exclude_ids.



(** The candidate of a top track of a matching artist (lines 892-899). *)
Definition top_candidate (artist : Artist.t) (track : TrackObj.t) : Candidate.t := {|
  Candidate.id := TrackObj.id track;
  Candidate.name := TrackObj.name track;
  Candidate.artist := Artist.name artist;
  Candidate.artist_id := Some (Artist.id artist);
  Candidate.popularity := default 0%Z (TrackObj.popularity track);
  Candidate.source_genre := "top_artist_match" |}.

(** The call that fills a playlist, when there is something to add
    (lines 529-530 and 542-543). *)
Definition adds (playlist_id : string) (tracks : list Track.t) : list Req :=
  if nonempty tracks
  then [AddTracksToPlaylist playlist_id (Track.id <$> tracks)]
  else [].

(** The calls of steps 5 to 7 of ArtistDeepDive, for the three lists and
    the ids [p1], [p2], [p3] of the playlists created. *)
Definition playlist_requests (artist_display_name : string)
    (best deep chrono : list Track.t) (p1 p2 p3 : string) : list Req :=
  [CreatePlaylist ("Best of " +:+ artist_display_name)
     ("Top 20 most popular tracks by " +:+ artist_display_name)]
  ++ adds p1 best
  ++ [CreatePlaylist (artist_display_name +:+ ": Deep Cuts")
        ("Hidden gems and lesser-known tracks by " +:+ artist_display_name)]
  ++ adds p2 deep
  ++ [CreatePlaylist (artist_display_name +:+ ": Through the Years")
        ("Complete discography of " +:+ artist_display_name
           +:+ " in chronological order")]
  ++ (AddTracksToPlaylist p3 <$> Py.batches 100 (Track.id <$> chrono)).

(** One answered bulk lookup per batch, in the order of the batches. *)
Definition tracks_events (batches : list (list string))
    (responses : list (list (option TrackObj.t))) : list Event :=
  zip_with (λ batch tracks, existT (SpTracks batch) (Ok tracks)) batches responses.

Definition artists_events (batches : list (list string))
    (responses : list (list (option Artist.t))) : list Event :=
  zip_with (λ batch artists, existT (SpArtists batch) (Ok artists)) batches responses.

(** The genre lists the items give for the artist id [a], in order. *)
Definition genres_listed (a : string) (items : list (option Artist.t))
  : list (list string) :=
  Artist.genres <$> filter (λ x, Artist.id x = a) (omap id items).

(** The playlist whose tracks a call fetches, or that it renames. *)
Definition playlist_touched (r : Req) : option string :=
  match r with
  | GetPlaylistTracks playlist_id => Some playlist_id
  | ChangePlaylistDetails playlist_id _ => Some playlist_id
  | _ => None
  end.

(** The requests of every run of [m] satisfy [P]. *)
Definition emits {A} (P : Req → Prop) (m : M A) : Prop :=
  ∀ log log' res, m log = (log', res) →
    ∃ evs, log' = log ++ evs ∧ Forall (λ ev, P (request ev)) evs.

(** A call that touches a playlist touches one of [playlists]. *)
Definition touches_only (playlists : list Playlist.t) (r : Req) : Prop :=
  ∀ playlist_id, playlist_touched r = Some playlist_id →
    ∃ p, p ∈ playlists ∧ Playlist.id p = playlist_id.

(** The playlists of [all_playlists] that [user_id] owns (line 578). *)
Definition owned_by (user_id : string) (all_playlists : list Playlist.t)
  : list Playlist.t :=
  filter (λ p, Playlist.owner_id p = user_id) all_playlists.

(** The arguments of Discover that lines 775-785 reject. *)
Definition invalid_seed (arguments : DiscoverArgs.t) : Prop :=
  arg_get (DiscoverArgs.seed_type arguments)
    ∉ Some <$> ["artist"; "track"; "listening_history"]
  ∨ (arg_get (DiscoverArgs.seed_type arguments) ∈ Some <$> ["artist"; "track"]
     ∧ truthy_str (arg_get (DiscoverArgs.seed_value arguments)) = false).

(** The message of lines 776-785. *)
Definition seed_message (arguments : DiscoverArgs.t) : string :=
  match arg_get (DiscoverArgs.seed_type arguments) with
  | Some seed_type =>
      if bool_decide (seed_type ∈ ["artist"; "track"; "listening_history"])
      then "seed_value is required for seed_type '" +:+ seed_type +:+ "'."
      else "Invalid seed_type: " +:+ seed_type
             +:+ ". Must be 'artist', 'track', or 'listening_history'."
  | None =>
      "Invalid seed_type: None. Must be 'artist', 'track', or 'listening_history'."
  end.

(** The time ranges that line 683 rejects. *)
Definition invalid_time_range (arguments : TopMusicArgs.t) : Prop :=
  arg_get_default (TopMusicArgs.time_range arguments) "short_term"
    ∉ Some <$> ["short_term"; "medium_term"; "long_term"].

(** [a] may stand before [b] in a list sorted by [key]. *)
Definition in_order {A K} (kle : K → K → bool) (key : A → K) (a b : A) : Prop :=
  kle (key a) (key b) = true.

(** ** Concrete runs *)

(** An interpreter for plain ASCII text. *)
Definition ascii_lower (c : Ascii.ascii) : Ascii.ascii :=
  let n := Ascii.nat_of_ascii c in
  if (65 <=? n) && (n <=? 90) then Ascii.ascii_of_nat (n + 32) else c.

Fixpoint lower_ascii (s : string) : string :=
  match s with
  | EmptyString => EmptyString
  | String c s' => String (ascii_lower c) (lower_ascii s')
  end.

Definition CPython : Python := {|
  lower := lower_ascii;
  set_to_list := elements;
  set_to_list_perm := λ X, reflexivity (elements X);
  month_year := "Nov 2026"
|}.

Definition a_track (track_id artist_id : string) (pop : Z) : TrackObj.t := {|
  TrackObj.id := track_id;
  TrackObj.name := "Song " +:+ track_id;
  TrackObj.artists :=
    [{| Artist.id := artist_id; Artist.name := "Artist " +:+ artist_id;
        Artist.genres := [] |}];
  TrackObj.popularity := Some pop;
  TrackObj.duration_ms := None
|}.

Definition unavailable {A} : result A := Raise (SpotifyException "unavailable").

(** The example of the specification: the seed artist has the genres
    "indie rock" and "electropop"; the search for "indie rock" returns 20
    tracks, the first 4 by the artist A1; the listener has played t5,
    saved t6, and A1 is among his top artists. *)
Definition indie_rock_tracks : list TrackObj.t :=
  (λ i, a_track ("t" +:+ pretty i)
          (if i <? 4 then "A1" else "B" +:+ pretty i) (Z.of_nat (40 + i)))
  <$> seq 0 20.

Definition example_catalog : Catalog := {|
  answer := λ _ r,
    match r as r0 return result (resp r0) with
    | SearchArtist _ _ =>
        Ok [{| Artist.id := "A0"; Artist.name := "Artist A"; Artist.genres := [] |}]
    | GetArtist _ =>
        Ok {| Artist.id := "A0"; Artist.name := "Artist A";
              Artist.genres := ["indie rock"; "electropop"] |}
    | GetRecentTrackIds _ => Ok ["t5"]
    | GetUserSavedTrackIds _ => Ok ["t6"]
    | SearchByGenre genre _ _ =>
        if bool_decide (genre = "indie rock") then Ok indie_rock_tracks
        else unavailable
    | GetTopArtists _ _ =>
        Ok [{| Artist.id := "A1"; Artist.name := "Artist A1";
               Artist.genres := ["indie rock"] |}]
    | GetArtistTopTracks _ =>
        Ok [a_track "u0" "A1" 90; a_track "u1" "A1" 80; a_track "u2" "A1" 70;
            a_track "u3" "A1" 60]
    | _ => unavailable
    end
|}.

Definition example_args : DiscoverArgs.t := {|
  DiscoverArgs.seed_type := Val "artist";
  DiscoverArgs.seed_value := Val "Artist A";
  DiscoverArgs.year_range := Absent;
  DiscoverArgs.limit := Absent;
  DiscoverArgs.create_playlist := Absent
|}.

Definition example_outcome : list Event * result Reply :=
  @handle_call_tool CPython example_catalog (Discover example_args) [].

Definition no_result : DiscoverResult.t := {|
  DiscoverResult.seed_type := ""; DiscoverResult.seed_value := "";
  DiscoverResult.seed_genres := []; DiscoverResult.year_range := None;
  DiscoverResult.recommendations := []; DiscoverResult.count := 0;
  DiscoverResult.playlist_created := None
|}.

Definition discover_json (outcome : list Event * result Reply) : DiscoverResult.t :=
  match outcome.2 with
  | Ok (DiscoverJson r) => r
  | _ => no_result
  end.

(** A listener whose three favourite genres each return 20 tracks of 20
    artists, asking for [limit = -1]. *)
Definition wide_catalog : Catalog := {|
  answer := λ _ r,
    match r as r0 return result (resp r0) with
    | GetTopArtists _ _ =>
        Ok [{| Artist.id := "me"; Artist.name := "Me";
               Artist.genres := ["g1"; "g2"; "g3"] |}]
    | SearchByGenre genre _ _ =>
        Ok ((λ i, a_track (genre +:+ "-" +:+ pretty i)
                    (genre +:+ "/" +:+ pretty i) (Z.of_nat i)) <$> seq 0 20)
    | GetRecentTrackIds _ => Ok []
    | GetUserSavedTrackIds _ => Ok []
    | _ => unavailable
    end
|}.

Definition negative_limit_args : DiscoverArgs.t := {|
  DiscoverArgs.seed_type := Val "listening_history";
  DiscoverArgs.seed_value := Absent;
  DiscoverArgs.year_range := Absent;
  DiscoverArgs.limit := Val (-1)%Z;
  DiscoverArgs.create_playlist := Absent
|}.

Definition negative_limit_outcome : list Event * result Reply :=
  @handle_call_tool CPython wide_catalog (Discover negative_limit_args) [].

(** A small discography: two albums, "Hello" on both. *)
Definition discography_catalog : Catalog := {|
  answer := λ _ r,
    match r as r0 return result (resp r0) with
    | SearchArtist _ _ =>
        Ok [{| Artist.id := "A0"; Artist.name := "Artist A"; Artist.genres := [] |}]
    | GetArtistAlbums _ _ =>
        Ok [{| Album.id := "al1"; Album.name := "First" |};
            {| Album.id := "al2"; Album.name := "Second" |}]
    | GetAlbumTracksFull album_id =>
        if bool_decide (album_id = "al1")
        then Ok ([{| TrackObj.id := "t1"; TrackObj.name := "Hello";
                     TrackObj.artists := []; TrackObj.popularity := None;
                     TrackObj.duration_ms := None |};
                  {| TrackObj.id := "t2"; TrackObj.name := "World";
                     TrackObj.artists := []; TrackObj.popularity := None;
                     TrackObj.duration_ms := None |}], "2019-05-01", "album")
        else Ok ([{| TrackObj.id := "t3"; TrackObj.name := "HELLO";
                     TrackObj.artists := []; TrackObj.popularity := None;
                     TrackObj.duration_ms := None |};
                  {| TrackObj.id := "t4"; TrackObj.name := "Again";
                     TrackObj.artists := []; TrackObj.popularity := None;
                     TrackObj.duration_ms := None |}], "2012", "album")
    | GetTrack track_id =>
        Ok (a_track track_id "A0"
              (if bool_decide (track_id = "t3") then 70
               else if bool_decide (track_id = "t4") then 10 else 30))
    | CreatePlaylist playlist_name _ =>
        Ok {| Playlist.id := "id of " +:+ playlist_name;
              Playlist.name := playlist_name; Playlist.owner_id := "me" |}
    | AddTracksToPlaylist _ _ => Ok ()
    | _ => unavailable
    end
|}.

Definition discography_args : DeepDiveArgs.t := {|
  DeepDiveArgs.artist_name := Val "Artist A";
  DeepDiveArgs.include_singles := Absent;
  DeepDiveArgs.deep_cuts_max_popularity := Absent
|}.

Definition discography_outcome : list Event * result Reply :=
  @handle_call_tool CPython discography_catalog (ArtistDeepDive discography_args) [].

Definition no_playlists : DeepDiveResult.t := {|
  DeepDiveResult.artist_name := ""; DeepDiveResult.artist_id := "";
  DeepDiveResult.playlists_created := [];
  DeepDiveResult.total_albums_analyzed := 0;
  DeepDiveResult.total_tracks_analyzed := 0
|}.

Definition deep_dive_json (outcome : list Event * result Reply)
  : option DeepDiveResult.t :=
  match outcome.2 with
  | Ok (DeepDiveJson r) => Some r
  | _ => None
  end.

(** A catalog that answers a bulk lookup item by item: every track is by
    the artist A1, every artist plays rock. *)
Definition echo_catalog : Catalog := {|
  answer := λ _ r,
    match r as r0 return result (resp r0) with
    | SpTracks batch => Ok ((λ i, Some (a_track i "A1" 50)) <$> batch)
    | SpArtists batch =>
        Ok ((λ i, Some {| Artist.id := i; Artist.name := "Artist " +:+ i;
                          Artist.genres := ["rock"] |}) <$> batch)
    | _ => unavailable
    end
|}.

(** A library of three playlists, one of them of another user, one
    already categorized. *)
Definition library_catalog : Catalog := {|
  answer := λ _ r,
    match r as r0 return result (resp r0) with
    | GetAllPlaylists =>
        Ok [{| Playlist.id := "p1"; Playlist.name := "Morning";
               Playlist.owner_id := "me" |};
            {| Playlist.id := "p2"; Playlist.name := "Their mix";
               Playlist.owner_id := "you" |};
            {| Playlist.id := "p3"; Playlist.name := "🎸 Rock/Old";
               Playlist.owner_id := "me" |}]
    | CurrentUser => Ok "me"
    | GetPlaylistTracks _ =>
        Ok [Some {| PlaylistTrack.id := Some "t1" |}; None;
            Some {| PlaylistTrack.id := None |};
            Some {| PlaylistTrack.id := Some "t2" |}]
    | SpTracks batch => Ok ((λ i, Some (a_track i "A1" 50)) <$> batch)
    | SpArtists batch =>
        Ok ((λ i, Some {| Artist.id := i; Artist.name := "Artist " +:+ i;
                          Artist.genres := ["Indie Rock"; "garage rock"; "dream pop"] |})
            <$> batch)
    | ChangePlaylistDetails _ _ => Ok ()
    | _ => unavailable
    end
|}.

Definition library_args : LibrarianArgs.t := {|
  LibrarianArgs.dry_run := Val false;
  LibrarianArgs.category_style := Absent
|}.

Definition library_outcome : list Event * result Reply :=
  @handle_call_tool CPython library_catalog (PlaylistLibrarian library_args) [].

Definition a_collected (track_id name : string) (pop : Z) : Track.t := {|
  Track.id := track_id; Track.name := name; Track.popularity := pop;
  Track.release_date := "2020"; Track.album_type := "album";
  Track.album_name := "Album"
|}.

Definition unknown_seed_args : DiscoverArgs.t := {|
  DiscoverArgs.seed_type := Val "album";
  DiscoverArgs.seed_value := Val "Kind of Blue";
  DiscoverArgs.year_range := Absent;
  DiscoverArgs.limit := Absent;
  DiscoverArgs.create_playlist := Absent
|}.

Definition unknown_range_args : TopMusicArgs.t := {|
  TopMusicArgs.time_range := Val "last_week";
  TopMusicArgs.top_count := Absent;
  TopMusicArgs.create_playlist := Absent
|}.

(** ** spotify_api.py: methods of [Client] over the spotipy client *)

Module Sp.

(** A page of a listing: [results['items']] and [results['next']]. *)
Record Page (A : Type) := { items : list A; next : option string }.
Arguments items {A} _.
Arguments next {A} _.

(** A playback device, with [device.get('is_active')]. *)
Record Device := {
  device_id : string;
  device_name : string;
  is_active : option bool
}.

(** The calls of [self.sp] that the methods below make. *)
Inductive Req : Type :=
| AlbumsPage (artist_id album_type : string) (limit offset : Z)
| PlaylistsPage (limit offset : Z)
| DeviceList
| TrackById (track_id : string).

Definition resp (r : Req) : Type :=
  match r with
  | AlbumsPage _ _ _ _ => Page Album.t
  | PlaylistsPage _ _ => Page Playlist.t
  | DeviceList => list Device
  | TrackById _ => TrackObj.t
  end.

Definition Event : Type := { r : Req & result (resp r) }.

Definition request (ev : Event) : Req := projT1 ev.

(** The web API behind spotipy: its answer may depend on everything that
    happened before. *)
Class Service := {
  answer : list Event → ∀ r : Req, result (resp r)
}.

Definition M (A : Type) : Type := list Event → list Event * result A.

Definition ret {A} (a : A) : M A := λ log, (log, Ok a).

Definition raise {A} (e : exn) : M A := λ log, (log, Raise e).

Definition bind {A B} (m : M A) (k : A → M B) : M B :=
  λ log,
    match m log with
    | (log', Ok a) => k a log'
    | (log', Raise e) => (log', Raise e)
    end.

Declare Scope sp_scope.
Notation "x <- m ;; k" := (bind m (λ x, k))
  (at level 20, m at level 99, k at level 200, only parsing) : sp_scope.
Local Open Scope sp_scope.

Definition call `{Service} (r : Req) : M (resp r) :=
  λ log, let x := answer log r in (log ++ [existT r x], x).

(** [s.split(sep)] for a separator of one character *)
Fixpoint split_go (sep : Ascii.ascii) (cur s : string) : list string :=
  match s with
  | EmptyString => [cur]
  | String c s' =>
      if bool_decide (c = sep) then cur :: split_go sep "" s'
      else split_go sep (cur +:+ String c "") s'
  end.

Definition split (sep : Ascii.ascii) (s : string) : list string :=
  split_go sep "" s.

Definition colon : Ascii.ascii := Ascii.ascii_of_nat 58.

Section Client.
Context `{Service}.

(** [Client.get_devices], lines 330-331 *)
Definition get_devices : M (list Device) := call DeviceList.

(** [Client.is_active_device], lines 333-334 *)
Definition is_active_device : M bool :=
  devices <- get_devices ;;
  ret (existsb (λ device, truthy_arg (is_active device)) devices).

(** [Client._get_candidate_device], lines 336-344 *)
Definition _get_candidate_device : M Device :=
  devices <- get_devices ;;
  match devices with
  | [] => raise (Exception "No active device. Is Spotify open?")
  | first :: _ =>
      match List.find (λ device, truthy_arg (is_active device)) devices with
      | Some device => ret device
      | None => ret first
      end
  end.

(** [Client.get_track], lines 379-383 *)
Definition get_track (track_id : string) : M TrackObj.t :=
  track_id <-
    (if Py.startswith track_id "spotify:track:"
     then match split colon track_id !! 2 with
          | Some part => ret part
          | None => raise (Exception "list index out of range")
          end
     else ret track_id) ;;
  call (TrackById track_id).

(** lines 390-395. The loop of the source has no bound: [fuel] is the
    number of pages that may be read, and [None] says that it did not
    suffice. *)
Fixpoint albums_loop (fuel : nat) (artist_id album_type : string)
    (limit offset : Z) (all_albums : list Album.t) : M (option (list Album.t)) :=
  match fuel with
  | 0 => ret None
  | S fuel' =>
      results <- call (AlbumsPage artist_id album_type limit offset) ;;
      let all_albums := all_albums ++ items results in
      if truthy_str (next results)
      then albums_loop fuel' artist_id album_type limit (offset + limit) all_albums
      else ret (Some all_albums)
  end.

(** [Client.get_artist_albums], lines 385-396 *)
Definition get_artist_albums (fuel : nat) (artist_id : string)
    (include_singles : option bool) (limit : Z) : M (option (list Album.t)) :=
  let album_type :=
    if truthy_arg include_singles then "album,single" else "album" in
  albums_loop fuel artist_id album_type limit 0 [].

(** lines 411-417, with [fuel] as above *)
Fixpoint playlists_loop (fuel : nat) (limit offset : Z)
    (playlists : list Playlist.t) : M (option (list Playlist.t)) :=
  match fuel with
  | 0 => ret None
  | S fuel' =>
      results <- call (PlaylistsPage limit offset) ;;
      let playlists := playlists ++ items results in
      if truthy_str (next results)
      then playlists_loop fuel' limit (offset + limit) playlists
      else ret (Some playlists)
  end.

(** [Client.get_all_playlists], lines 408-418 *)
Definition get_all_playlists (fuel : nat) (limit : Z)
  : M (option (list Playlist.t)) :=
  playlists_loop fuel limit 0 [].

End Client.

(** *** Vocabulary *)

(** The events of reading the pages of albums from [offset] on. *)
Definition album_events (artist_id album_type : string) (limit offset : Z)
    (pages : list (Page Album.t)) : list Event :=
  imap (λ i page,
          existT (AlbumsPage artist_id album_type limit
                    (offset + Z.of_nat i * limit)) (Ok page)) pages.

(** The events of reading the pages of playlists from [offset] on. *)
Definition playlist_events (limit offset : Z) (pages : list (Page Playlist.t))
  : list Event :=
  imap (λ i page,
          existT (PlaylistsPage limit (offset + Z.of_nat i * limit)) (Ok page))
    pages.

(** The service answers the calls of [evs], made one after the other from
    [log] on, as [evs] records. *)
Definition serves `{Service} (log evs : list Event) : Prop :=
  ∀ i ev, evs !! i = Some ev →
    answer (log ++ take i evs) (request ev) = projT2 ev.

(** Every page but the last carries a link to the next one. *)
Definition ends_with_last_page {A} (pages : list (Page A)) : Prop :=
  ∃ before final,
    pages = before ++ [final] ∧
    Forall (λ page, truthy_str (next page) = true) before ∧
    truthy_str (next final) = false.

(** The service never sends a last page. *)
Definition endless `{Service} : Prop :=
  ∀ log r,
    match r as r0 return result (resp r0) → Prop with
    | AlbumsPage _ _ _ _ | PlaylistsPage _ _ =>
        λ res, ∀ page, res = Ok page → truthy_str (next page) = true
    | _ => λ _, True
    end (answer log r).

(** A string without a colon. *)
Definition colon_free (s : string) : Prop := Py.contains ":" s = false.

(** Devices that are not active. *)
Definition idle (device : Device) : Prop := truthy_arg (is_active device) = false.

(** *** Concrete runs *)

Definition some_albums (prefix : string) (n : nat) : list Album.t :=
  (λ i, {| Album.id := prefix +:+ pretty i; Album.name := "Album " +:+ pretty i |})
  <$> seq 0 n.

Definition three_pages : list (Page Album.t) := [
  {| items := some_albums "a" 50;
     next := Some "https://api.spotify.com/v1/artists/A0/albums?offset=50" |};
  {| items := some_albums "b" 50;
     next := Some "https://api.spotify.com/v1/artists/A0/albums?offset=100" |};
  {| items := some_albums "c" 7; next := None |}
].

Definition two_playlist_pages : list (Page Playlist.t) := [
  {| items := [{| Playlist.id := "p1"; Playlist.name := "Morning";
                  Playlist.owner_id := "me" |}];
     next := Some "https://api.spotify.com/v1/me/playlists?offset=50" |};
  {| items := [{| Playlist.id := "p2"; Playlist.name := "Evening";
                  Playlist.owner_id := "me" |}];
     next := Some "" |}
].

Definition phone : Device :=
  {| device_id := "d1"; device_name := "Phone"; is_active := Some false |}.

Definition laptop : Device :=
  {| device_id := "d2"; device_name := "Laptop"; is_active := Some true |}.

(** A service that pages by the offset asked for. *)
Definition paged_service : Service := {|
  answer := λ _ r,
    match r as r0 return result (resp r0) with
    | AlbumsPage _ _ limit offset =>
        match three_pages !! Z.to_nat (offset / limit) with
        | Some page => Ok page
        | None => unavailable
        end
    | PlaylistsPage limit offset =>
        match two_playlist_pages !! Z.to_nat (offset / limit) with
        | Some page => Ok page
        | None => unavailable
        end
    | DeviceList => Ok [phone; laptop]
    | TrackById track_id => Ok (a_track track_id "A0" 50)
    end
|}.

(** A service whose listings never end. *)
Definition endless_service : Service := {|
  answer := λ _ r,
    match r as r0 return result (resp r0) with
    | AlbumsPage _ _ _ _ => Ok {| items := some_albums "a" 2; next := Some "more" |}
    | PlaylistsPage _ _ => Ok {| items := []; next := Some "more" |}
    | DeviceList => Ok []
    | TrackById _ => unavailable
    end
|}.

End Sp.

(** ** remote_cache_handler.py, and [Client.auth_ok] on top of it *)

Module Remote.

(** The exceptions that the handler tells apart: those of
    [requests.exceptions.RequestException], which it catches, and all
    others. *)
Inductive error : Type :=
| RequestException (msg : string)
| OtherException (msg : string).

Inductive outcome (A : Type) : Type :=
| Return (a : A)
| Throw (e : error).
Arguments Return {A} a.
Arguments Throw {A} e.

(** A token dictionary: the keys that the handler reads with [.get], and
    what spotipy's [is_token_expired] says of it. *)
Class Tokens := {
  token : Type;
  access_token : token → option string;
  refresh_token : token → option string;
  expires_in : token → Arg Z;
  is_token_expired : token → outcome bool
}.

(** The [json=] body of the POST of lines 54-62. *)
Record Body := {
  body_access_token : option string;
  body_refresh_token : option string;
  body_expires_in : option Z
}.

Inductive Req : Type :=
| Get (url : string) (timeout : Z)
| Post (url : string) (body : Body) (timeout : Z).

Section Handler.
Context `{Tokens}.

(** A response of [requests]: [response.json()] may raise, and gives
    [None] for the JSON value [null]. *)
Record Response := {
  status_code : Z;
  ok : bool;
  json : outcome (option token)
}.

Definition Event : Type := Req * outcome Response.

(** The backend, reached through [requests]. *)
Class Backend := {
  answer : list Event → Req → outcome Response
}.

(** The fields of a [RemoteCacheHandler] (lines 22-24). *)
Record Handler := {
  backend_url : string;
  _cached_token : option token
}.

Context `{Backend}.

(** [RemoteCacheHandler.get_cached_token], lines 26-49 *)
Definition get_cached_token (self : Handler) (log : list Event)
  : Handler * list Event * outcome (option token) :=
  let request := Get (backend_url self +:+ "/spotify/mcp-token") 10 in
  let answered := answer log request in
  let log := log ++ [(request, answered)] in
  match answered with
  | Throw (RequestException _) => (self, log, Return None)
  | Throw e => (self, log, Throw e)
  | Return response =>
      if bool_decide (status_code response = 404%Z)
      then (self, log, Return None)
      else if negb (ok response) then (self, log, Return None)
      else
        match json response with
        | Throw (RequestException _) => (self, log, Return None)
        | Throw e => (self, log, Throw e)
        | Return token_info =>
            ({| backend_url := backend_url self;
                _cached_token := token_info |}, log, Return token_info)
        end
  end.

(** lines 57-61 *)
Definition body_of (token_info : token) : Body := {|
  body_access_token := access_token token_info;
  body_refresh_token := refresh_token token_info;
  body_expires_in := arg_get_default (expires_in token_info) 3600%Z
|}.

(** [RemoteCacheHandler.save_token_to_cache], lines 51-71 *)
Definition save_token_to_cache (self : Handler) (token_info : token)
    (log : list Event) : Handler * list Event * outcome unit :=
  let request :=
    Post (backend_url self +:+ "/spotify/mcp-token") (body_of token_info) 10 in
  let answered := answer log request in
  let log := log ++ [(request, answered)] in
  match answered with
  | Throw (RequestException _) => (self, log, Return ())
  | Throw e => (self, log, Throw e)
  | Return response =>
      if ok response
      then ({| backend_url := backend_url self;
               _cached_token := Some token_info |}, log, Return ())
      else (self, log, Return ())
  end.

(** [Client.auth_ok], spotify_api.py lines 346-358, for a client whose
    cache handler is [self]. *)
Definition auth_ok (self : Handler) (log : list Event)
  : Handler * list Event * outcome bool :=
  match get_cached_token self log with
  | (self, log, Throw _) => (self, log, Return false)
  | (self, log, Return None) => (self, log, Return false)
  | (self, log, Return (Some token)) =>
      match is_token_expired token with
      | Return is_expired => (self, log, Return (negb is_expired))
      | Throw _ => (self, log, Return false)
      end
  end.

(** *** Vocabulary *)

(** What is done with a handler, one operation after the other. *)
Inductive Op : Type :=
| Fetch
| Save (token_info : token).

Fixpoint run (ops : list Op) (self : Handler) (log : list Event)
  : Handler * list Event :=
  match ops with
  | [] => (self, log)
  | Fetch :: ops' =>
      let '(self', log', _) := get_cached_token self log in run ops' self' log'
  | Save token_info :: ops' =>
      let '(self', log', _) := save_token_to_cache self token_info log in
      run ops' self' log'
  end.

(** [cached] is nothing, or what a response of [log] that was [ok] served
    or accepted. *)
Definition backed (url : string) (log : list Event) (cached : option token)
  : Prop :=
  cached = None
  ∨ (∃ response,
       (Get url 10, Return response) ∈ log ∧ ok response = true ∧
       status_code response ≠ 404%Z ∧ json response = Return cached)
  ∨ (∃ token_info response,
       cached = Some token_info ∧
       (Post url (body_of token_info) 10, Return response) ∈ log ∧
       ok response = true).

End Handler.

(** *** Concrete runs *)

(** Tokens that are their expiry time, expired from 1000 on. *)
Definition clock_tokens : Tokens := {|
  token := Z;
  access_token := λ _, Some "access";
  refresh_token := λ _, Some "refresh";
  expires_in := λ _, Absent;
  is_token_expired := λ expires_at, Return (1000 <=? expires_at)%Z
|}.

(** A backend that serves the token 2000 and accepts what it is sent. *)
Definition open_backend : @Backend clock_tokens := {|
  answer := λ _ r,
    match r with
    | Get _ _ =>
        Return {| status_code := 200; ok := true;
                  json := Return (Some 2000%Z : option (@token clock_tokens)) |}
    | Post _ _ _ =>
        Return {| status_code := 201; ok := true;
                  json := Throw (OtherException "no body") |}
    end
|}.

Definition new_handler : @Handler clock_tokens :=
  {| backend_url := "https://backend.example"; _cached_token := None |}.

Definition save_then_fetch : list (@Op clock_tokens) :=
  [Save (1500%Z : @token clock_tokens); Fetch].

Definition served_token : option (@token clock_tokens) := Some 2000%Z.

End Remote.

(** ** Vocabulary of the further properties *)

(** The accepted candidates have pairwise distinct ids, all recorded as
    seen. *)
Definition distinct_ids (st : Stage) : Prop :=
  NoDup (Candidate.id <$> recommendations st) ∧
  ∀ c, c ∈ recommendations st → Candidate.id c ∈ seen_track_ids st.

(** [st'] has the candidates of [st] and at most [n] more. *)
Definition at_most_more (n : nat) (st st' : Stage) : Prop :=
  ∃ extra, recommendations st' = recommendations st ++ extra ∧ length extra ≤ n.

(** The requests that change the listener's account. *)
Definition writes (r : Req) : bool :=
  match r with
  | ChangePlaylistDetails _ _ | CreatePlaylist _ _ | AddTracksToPlaylist _ _ => true
  | _ => false
  end.

(** No run of [m] changes the account, whatever the service answers. *)
Definition read_only {A} (m : M A) : Prop := emits (λ r, writes r = false) m.

(** The seed of the example, and the run of steps 2 to 5 from it. *)
Definition example_seed : Seed := {|
  seed_genres := ["indie rock"; "electropop"];
  seed_artist_name := Some "Artist A";
  seed_popularity := 50
|}.

Definition example_pipeline : list Event * result DiscoverRun :=
  @discover_pipeline example_catalog "artist" example_seed (Some "2015-2025") 30 [].

Definition pipeline_run (outcome : list Event * result DiscoverRun) : DiscoverRun :=
  match outcome.2 with
  | Ok run => run
  | Raise _ => {| run_exclude_ids := ∅; run_genre_stage := stage0;
                  run_candidates := []; run_recommendations := [] |}
  end.

Definition default_top_music_args : TopMusicArgs.t := {|
  TopMusicArgs.time_range := Absent;
  TopMusicArgs.top_count := Absent;
  TopMusicArgs.create_playlist := Absent
|}.

Definition default_library_args : LibrarianArgs.t := {|
  LibrarianArgs.dry_run := Absent;
  LibrarianArgs.category_style := Absent
|}.

(** Every value that [m] returns satisfies [Q]. *)
Definition yields {A} (Q : A → Prop) (m : M A) : Prop :=
  ∀ log log' a, m log = (log', Ok a) → Q a.

(** The example again, on an account where playlists can be created,
    asking for one. *)
Definition playlist_catalog : Catalog := {|
  answer := λ log r,
    match r as r0 return result (resp r0) with
    | CreatePlaylist playlist_name _ =>
        Ok {| Playlist.id := "new"; Playlist.name := playlist_name;
              Playlist.owner_id := "me" |}
    | AddTracksToPlaylist _ _ => Ok ()
    | r0 => @answer example_catalog log r0
    end
|}.

Definition playlist_args : DiscoverArgs.t := {|
  DiscoverArgs.seed_type := Val "artist";
  DiscoverArgs.seed_value := Val "Artist A";
  DiscoverArgs.year_range := Absent;
  DiscoverArgs.limit := Val 5%Z;
  DiscoverArgs.create_playlist := Val true
|}.

Definition playlist_outcome : list Event * result Reply :=
  @handle_call_tool CPython playlist_catalog (Discover playlist_args) [].

(** The event of a rename that returned without an exception. *)
Definition renamed (c : Change.t) : Event :=
  existT (ChangePlaylistDetails (Change.playlist_id c) (Change.new_name c)) (Ok ()).

(** The number of the changes filed under [label]. *)
Definition detected_as (label : string) (changes : list Change.t) : nat :=
  length (filter (λ c, Change.detected_category c = label) changes).

(** The test of line 589 on a playlist name. *)
Definition already_categorized (name : string) : bool :=
  existsb (λ entry : string * list string, Py.startswith name entry.1)
    GENRE_CATEGORIES.

Definition text_style_args : LibrarianArgs.t := {|
  LibrarianArgs.dry_run := Val false;
  LibrarianArgs.category_style := Val "text"
|}.

Definition text_style_outcome : list Event * result Reply :=
  @handle_call_tool CPython library_catalog (PlaylistLibrarian text_style_args) [].

Definition dry_outcome : list Event * result Reply :=
  @handle_call_tool CPython library_catalog (PlaylistLibrarian default_library_args) [].

Definition no_report : LibrarianResult.t := {|
  LibrarianResult.playlists_analyzed := 0;
  LibrarianResult.playlists_categorized := 0;
  LibrarianResult.playlists_skipped := 0;
  LibrarianResult.dry_run := None;
  LibrarianResult.changes := [];
  LibrarianResult.category_summary := []
|}.

Definition librarian_json (outcome : list Event * result Reply)
  : LibrarianResult.t :=
  match outcome.2 with
  | Ok (LibrarianJson r) => r
  | _ => no_report
  end.

(** The invariant of the category counters (lines 582 and 650): one
    counter per label of the table, holding the number of changes filed
    under it. *)
Definition counted (st : LibrarianState) : Prop :=
  Py.keys (st_category_counts st) = GENRE_CATEGORIES.*1 ∧
  ∀ label, label ∈ GENRE_CATEGORIES.*1 →
    Py.get label (st_category_counts st)
    = Some (detected_as label (st_changes st)).

Definition first_change (outcome : list Event * result Reply) : Change.t :=
  default {| Change.playlist_id := ""; Change.original_name := "";
             Change.new_name := ""; Change.detected_category := "";
             Change.applied := false |}
    (head (LibrarianResult.changes (librarian_json outcome))).

(** A track that line 535 admits to 'Deep Cuts'. *)
Definition deep_cut (deep_cuts_threshold : Z) (best_of_ids : gset string)
    (t : Track.t) : Prop :=
  (Track.popularity t < deep_cuts_threshold)%Z
  ∧ (Track.id t ∉ best_of_ids)
  ∧ Track.album_type t = "album".

(** The number of occurrences of [k] in [keys]. *)
Definition occurrences (k : string) (keys : list string) : nat :=
  length (filter (λ x, x = k) keys).

(** The dictionary that the counting loops (lines 818-821 and 719-722)
    build from the keys they meet. *)
Definition tally (keys : list string) : Py.odict nat :=
  foldl (λ d k, count_up k d) [] keys.

(** The key under which line 721 counts a genre tag. *)
Definition simple_genre (genre simple : string) : Prop :=
  if Py.truthy genre then head (split_ws genre) = Some simple
  else simple = "other".

(** A listener with three top tracks and three top artists, asking for
    the first two and for a recap playlist. *)
Definition charts_catalog : Catalog := {|
  answer := λ _ r,
    match r as r0 return result (resp r0) with
    | GetTopTracks _ _ =>
        Ok [a_track "t1" "A1" 70; a_track "t2" "A2" 60; a_track "t3" "A1" 50]
    | GetTopArtists _ _ =>
        Ok [{| Artist.id := "A1"; Artist.name := "Artist A1";
               Artist.genres := ["indie rock"; "indie pop"; ""] |};
            {| Artist.id := "A2"; Artist.name := "Artist A2";
               Artist.genres := ["dream pop"; "indie folk"] |};
            {| Artist.id := "A3"; Artist.name := "Artist A3";
               Artist.genres := ["jazz"] |}]
    | CreatePlaylist playlist_name _ =>
        Ok {| Playlist.id := "recap"; Playlist.name := playlist_name;
              Playlist.owner_id := "me" |}
    | AddTracksToPlaylist _ _ => Ok ()
    | _ => unavailable
    end
|}.

Definition charts_args : TopMusicArgs.t := {|
  TopMusicArgs.time_range := Val "long_term";
  TopMusicArgs.top_count := Val 2%Z;
  TopMusicArgs.create_playlist := Val true
|}.

Definition charts_outcome : list Event * result Reply :=
  @handle_call_tool CPython charts_catalog (MyTopMusic charts_args) [].

Definition no_charts : TopMusicResult.t := {|
  TopMusicResult.time_range := ""; TopMusicResult.period_label := "";
  TopMusicResult.top_tracks := []; TopMusicResult.top_artists := [];
  TopMusicResult.genre_breakdown := [];
  TopMusicResult.top_tracks_analyzed := 0;
  TopMusicResult.top_artists_analyzed := 0;
  TopMusicResult.total_duration_ms := 0%Z;
  TopMusicResult.recap_playlist := None
|}.

Definition top_music_json (outcome : list Event * result Reply)
  : TopMusicResult.t :=
  match outcome.2 with
  | Ok (TopMusicJson r) => r
  | _ => no_charts
  end.

(** ** Vocabulary of the runs of Discover *)

(** The events of step 2, when the service answers [recent] to the lookup
    of the recent plays and [saved] to that of the saved tracks: the saved
    tracks are asked for once the recent plays have been answered. *)
Definition exclusion_events (recent saved : result (list string)) : list Event :=
  existT (GetRecentTrackIds 50) recent
  :: match recent with
     | Ok _ => [existT (GetUserSavedTrackIds 100) saved]
     | Raise _ => []
     end.

(** The ids that step 2 excludes after these answers. *)
Definition excluded (recent saved : result (list string)) : gset string :=
  match recent with
  | Ok recent =>
      match saved with
      | Ok saved => list_to_set recent ∪ list_to_set saved
      | Raise _ => list_to_set recent
      end
  | Raise _ => ∅
  end.

(** The events of step 3: one search per seed genre, with its answer. *)
Definition search_events (year_range : option string) (genres : list string)
    (searches : list (result (list TrackObj.t))) : list Event :=
  zip_with (λ genre (tracks : result (list TrackObj.t)),
              existT (SearchByGenre genre year_range 20) tracks)
    genres searches.

(** The artist has a genre among the seed genres. *)
Definition similar (seed_genres : list string) (artist : Artist.t) : Prop :=
  Exists (λ genre, genre ∈ seed_genres) (Artist.genres artist).

#[global] Instance similar_dec seed_genres artist :
  Decision (similar seed_genres artist) :=
  Exists_dec (λ genre, genre ∈ seed_genres) (Artist.genres artist).

(** The top artists whose top tracks step 4 asks for, when the service
    answers [top_artists] to the lookup of the listener's top artists. *)
Definition similar_artists (seed_type : string) (seed_genres : list string)
    (top_artists : result (list Artist.t)) : list Artist.t :=
  if bool_decide (seed_type ∈ ["artist"; "track"]) then
    match top_artists with
    | Ok top_artists => take 5 (filter (similar seed_genres) top_artists)
    | Raise _ => []
    end
  else [].

(** The events of step 4. *)
Definition augment_events (seed_type : string) (seed_genres : list string)
    (top_artists : result (list Artist.t))
    (top_tracks : list (result (list TrackObj.t))) : list Event :=
  if bool_decide (seed_type ∈ ["artist"; "track"]) then
    existT (GetTopArtists "medium_term" 20) top_artists
    :: zip_with (λ artist (tracks : result (list TrackObj.t)),
                   existT (GetArtistTopTracks (Artist.id artist)) tracks)
         (similar_artists seed_type seed_genres top_artists) top_tracks
  else [].

(** The candidate of a track found by the search for [genre]
    (lines 862-869). *)
Definition genre_candidate (genre : string) (track : TrackObj.t) : Candidate.t := {|
  Candidate.id := TrackObj.id track;
  Candidate.name := TrackObj.name track;
  Candidate.artist :=
    match TrackObj.artists track with
    | a :: _ => Artist.name a
    | [] => "Unknown"
    end;
  Candidate.artist_id := primary_artist_id track;
  Candidate.popularity := default 0%Z (TrackObj.popularity track);
  Candidate.source_genre := genre |}.

(** The stage after one answered search, and after the searches for
    [genres] answered [searches]. *)
Definition search_step (exclude_ids : gset string) (st : Stage)
    (search : string * result (list TrackObj.t)) : Stage :=
  match search.2 with
  | Ok tracks => foldl (genre_track exclude_ids search.1) st tracks
  | Raise _ => st
  end.

Definition after_searches (exclude_ids : gset string) (genres : list string)
    (searches : list (result (list TrackObj.t))) (st : Stage) : Stage :=
  foldl (search_step exclude_ids) st (zip genres searches).

(** The stage after the top tracks of one artist were answered, and after
    those of [artists] were answered [top_tracks]. *)
Definition artist_step (exclude_ids : gset string) (st : Stage)
    (lookup : Artist.t * result (list TrackObj.t)) : Stage :=
  match lookup.2 with
  | Ok top_tracks => foldl (top_track exclude_ids lookup.1) st (take 3 top_tracks)
  | Raise _ => st
  end.

Definition after_artists (exclude_ids : gset string) (artists : list Artist.t)
    (top_tracks : list (result (list TrackObj.t))) (st : Stage) : Stage :=
  foldl (artist_step exclude_ids) st (zip artists top_tracks).

(** What the service answered in steps 2 to 4 of a run: to the lookups of
    the recent plays and of the saved tracks, to the genre searches (in
    the order of the seed genres), to the lookup of the top artists and to
    those of the top tracks of the similar artists (in their order). *)
Record Answers := {
  ans_recent : result (list string);
  ans_saved : result (list string);
  ans_searches : list (result (list TrackObj.t));
  ans_top_artists : result (list Artist.t);
  ans_top_tracks : list (result (list TrackObj.t))
}.

Definition exclusion_of (ans : Answers) : gset string :=
  excluded (ans_recent ans) (ans_saved ans).

Definition artists_of (seed_type : string) (seed_genres : list string)
    (ans : Answers) : list Artist.t :=
  similar_artists seed_type seed_genres (ans_top_artists ans).

(** The events of steps 2 to 4 with these answers. *)
Definition run_events (seed_type : string) (year_range : option string)
    (seed_genres : list string) (ans : Answers) : list Event :=
  exclusion_events (ans_recent ans) (ans_saved ans)
  ++ search_events year_range seed_genres (ans_searches ans)
  ++ augment_events seed_type seed_genres (ans_top_artists ans) (ans_top_tracks ans).

(** The candidates after step 3, and after step 4. *)
Definition genre_stage (seed_genres : list string) (ans : Answers) : Stage :=
  after_searches (exclusion_of ans) seed_genres (ans_searches ans) stage0.

Definition final_stage (seed_type : string) (seed_genres : list string)
    (ans : Answers) : Stage :=
  after_artists (exclusion_of ans) (artists_of seed_type seed_genres ans)
    (ans_top_tracks ans) (genre_stage seed_genres ans).

(** Every search and every lookup of top tracks that was made has its
    answer. *)
Definition answered (seed_type : string) (seed_genres : list string)
    (ans : Answers) : Prop :=
  length (ans_searches ans) = length seed_genres
  ∧ length (ans_top_tracks ans) = length (artists_of seed_type seed_genres ans).

(** The requests of step 1 (lines 792-824). *)
Definition seed_request (r : Req) : bool :=
  match r with
  | SearchArtist _ _ | GetArtist _ | GetTrack _ | GetTopArtists _ _ => true
  | _ => false
  end.

(** The run of Discover from [log] to [log'] that replied [r]: after the
    events [seed_events] of step 1, the service gave the answers [ans] to
    the calls of steps 2 to 4, which are those of the seed type, the year
    range and the seed genres that [r] reports; the recommendations of
    [r] are the candidates these answers leave after step 4, ranked by
    the distance of their popularity to [seed_popularity] and cut at
    [limit]; what follows in the trace creates and fills the playlist. *)
Definition discover_run (arguments : DiscoverArgs.t) (log log' : list Event)
    (r : DiscoverResult.t) (seed_events : list Event) (ans : Answers)
    (seed_popularity limit : Z) : Prop :=
  let seed_type := DiscoverResult.seed_type r in
  let seed_genres := DiscoverResult.seed_genres r in
  ∃ requested playlist_events,
    arg_get (DiscoverArgs.seed_type arguments) = Some seed_type ∧
    arg_get_default (DiscoverArgs.year_range arguments) "2015-2025"
      = DiscoverResult.year_range r ∧
    arg_get_default (DiscoverArgs.limit arguments) 30%Z = Some requested ∧
    limit = Z.min requested 50 ∧
    answered seed_type seed_genres ans ∧
    Forall (λ ev, seed_request (request ev) = true) seed_events ∧
    Forall (λ ev, writes (request ev) = true) playlist_events ∧
    log' = log ++ seed_events
               ++ run_events seed_type (DiscoverResult.year_range r) seed_genres ans
               ++ playlist_events ∧
    DiscoverResult.recommendations r
      = to_recommendation
          <$> rank seed_popularity limit
                (recommendations (final_stage seed_type seed_genres ans)).


(** The popularity values that the answer of an event carries, for the
    lookups and searches whose tracks are ranked. *)
Definition popularities (ev : Event) : list Z :=
  match ev with
  | existT r res =>
      match r as r0 return result (resp r0) → list Z with
      | GetTrack _ =>
          λ res, match res with
                 | Ok track => omap TrackObj.popularity [track]
                 | Raise _ => []
                 end
      | SearchByGenre _ _ _ =>
          λ res, match res with
                 | Ok tracks => omap TrackObj.popularity tracks
                 | Raise _ => []
                 end
      | GetArtistTopTracks _ =>
          λ res, match res with
                 | Ok tracks => omap TrackObj.popularity tracks
                 | Raise _ => []
                 end
      | _ => λ _, []
      end res
  end.

(** The service keeps to the data model: a popularity is within 0..100. *)
Definition in_range (evs : list Event) : Prop :=
  Forall (λ ev, Forall (λ p, (0 ≤ p ≤ 100)%Z) (popularities ev)) evs.

(** A listener who asks for one recommendation from a seed track that
    carries no popularity; the search finds a track of popularity 0, then
    one of popularity 50. *)
Definition quiet_catalog : Catalog := {|
  answer := λ _ r,
    match r as r0 return result (resp r0) with
    | GetTrack track_id =>
        Ok {| TrackObj.id := track_id; TrackObj.name := "Seed";
              TrackObj.artists :=
                [{| Artist.id := "S"; Artist.name := "Artist S";
                    Artist.genres := [] |}];
              TrackObj.popularity := None; TrackObj.duration_ms := None |}
    | GetArtist artist_id =>
        Ok {| Artist.id := artist_id; Artist.name := "Artist S";
              Artist.genres := ["ambient"] |}
    | GetRecentTrackIds _ => Ok []
    | GetUserSavedTrackIds _ => Ok []
    | SearchByGenre _ _ _ => Ok [a_track "far" "B1" 0; a_track "near" "B2" 50]
    | GetTopArtists _ _ => Ok []
    | _ => unavailable
    end
|}.

Definition quiet_args : DiscoverArgs.t := {|
  DiscoverArgs.seed_type := Val "track";
  DiscoverArgs.seed_value := Val "spotify:track:s1";
  DiscoverArgs.year_range := Absent;
  DiscoverArgs.limit := Val 1%Z;
  DiscoverArgs.create_playlist := Absent
|}.

Definition quiet_outcome : list Event * result Reply :=
  @handle_call_tool CPython quiet_catalog (Discover quiet_args) [].

(** ** Vocabulary of the runs of ArtistDeepDive *)

(** The record collected for a track of an album (lines 499-506). *)
Definition collected_track (album : Album.t) (release_date album_type : string)
    (track full_track : TrackObj.t) : Track.t := {|
  Track.id := TrackObj.id track;
  Track.name := TrackObj.name track;
  Track.popularity := default 0%Z (TrackObj.popularity full_track);
  Track.release_date := release_date;
  Track.album_type := album_type;
  Track.album_name := Album.name album |}.

(** What the service answered while one album was collected: to the
    listing of its tracks, then to the lookups of these tracks in turn,
    [aa_tracks] being the tracks answered and [aa_failure] the exception
    of the lookup that failed, if one did. *)
Record AlbumAnswers := {
  aa_listing : result (list TrackObj.t * string * string);
  aa_tracks : list TrackObj.t;
  aa_failure : option exn
}.

Definition listed_tracks (a : AlbumAnswers) : list TrackObj.t :=
  match aa_listing a with
  | Ok (tracks, _, _) => tracks
  | Raise _ => []
  end.

Definition lookups (a : AlbumAnswers) : list (result TrackObj.t) :=
  (Ok <$> aa_tracks a)
  ++ match aa_failure a with Some e => [Raise e] | None => [] end.

(** The tracks of the listing are looked up to the last, or to the one
    whose lookup fails. *)
Definition well_answered (a : AlbumAnswers) : Prop :=
  match aa_failure a with
  | None => length (aa_tracks a) = length (listed_tracks a)
  | Some _ => length (aa_tracks a) < length (listed_tracks a)
  end.

(** The events of one album, and the records collected from it. *)
Definition album_trace (album : Album.t) (a : AlbumAnswers) : list Event :=
  existT (GetAlbumTracksFull (Album.id album)) (aa_listing a)
  :: zip_with (λ track (full_track : result TrackObj.t),
                 existT (GetTrack (TrackObj.id track)) full_track)
       (listed_tracks a) (lookups a).

Definition album_tracks (album : Album.t) (a : AlbumAnswers) : list Track.t :=
  match aa_listing a with
  | Ok (tracks, release_date, album_type) =>
      zip_with (collected_track album release_date album_type) tracks (aa_tracks a)
  | Raise _ => []
  end.

(** Step 3 for [albums], the service answering [answers]. *)
Definition collection_trace (albums : list Album.t) (answers : list AlbumAnswers)
  : list Event :=
  concat (zip_with album_trace albums answers).

Definition collected (albums : list Album.t) (answers : list AlbumAnswers)
  : list Track.t :=
  concat (zip_with album_tracks albums answers).



(** The run of ArtistDeepDive from [log] to [log'] that replied [r]: the
    artist found, the albums listed, the answers [answers] while their
    tracks were collected, then the calls that create the three playlists
    and fill them with [best], [deep] and [chrono]. *)
Definition deep_dive_run (arguments : DeepDiveArgs.t) (log log' : list Event)
    (r : DeepDiveResult.t) (albums : list Album.t) (answers : list AlbumAnswers)
    (best deep chrono : list Track.t) : Prop :=
  ∃ artist others p1 p2 p3 playlist_events,
    DeepDiveResult.artist_id r = Artist.id artist ∧
    DeepDiveResult.artist_name r = Artist.name artist ∧
    DeepDiveResult.total_albums_analyzed r = length albums ∧
    length answers = length albums ∧
    Forall well_answered answers ∧
    log' = log
      ++ [existT (SearchArtist (arg_get (DeepDiveArgs.artist_name arguments)) 1)
            (Ok (artist :: others));
          existT (GetArtistAlbums (Artist.id artist)
                    (arg_get_default (DeepDiveArgs.include_singles arguments) true))
            (Ok albums)]
      ++ collection_trace albums answers
      ++ playlist_events ∧
    request <$> playlist_events
      = playlist_requests (Artist.name artist) best deep chrono p1 p2 p3 ∧
    info_track_count <$> DeepDiveResult.playlists_created r
      = [length best; length deep; length chrono].

(** The tracks of 'Deep Cuts' for the threshold asked (lines 533-537); a
    run without a threshold gets this far only with nothing collected. *)
Definition deep_cuts_for (arguments : DeepDiveArgs.t) (best unique_tracks deep
    : list Track.t) : Prop :=
  match arg_get_default (DeepDiveArgs.deep_cuts_max_popularity arguments) 40%Z with
  | Some threshold => deep = deep_cuts_of threshold (id_set best) unique_tracks
  | None => deep = [] ∧ unique_tracks = []
  end.

(* ================================================================== *)
(** * Verification *)

(** ** The ordered dictionary *)

Lemma get_set_eq {V} k (v : V) d : Py.get k (Py.set k v d) = Some v.
Proof.
  induction d as [|[k' v'] d IH]; simpl.
  - by rewrite decide_True.
  - destruct (decide (k = k')) as [->|Hne]; simpl.
    + by rewrite decide_True.
    + by rewrite decide_False.
Qed.

Lemma get_set_ne {V} k k' (v : V) d :
  k ≠ k' → Py.get k' (Py.set k v d) = Py.get k' d.
Proof.
  intros Hne. induction d as [|[k0 v0] d IH]; simpl.
  - by rewrite decide_False.
  - destruct (decide (k = k0)) as [->|Hne0]; simpl.
    + by rewrite !decide_False.
    + destruct (decide (k' = k0)); done.
Qed.

Lemma get_None_keys {V} k (d : Py.odict V) : Py.get k d = None ↔ k ∉ Py.keys d.
Proof.
  induction d as [|[k' v] d IH]; simpl.
  - split; [intros _; apply not_elem_of_nil | done].
  - destruct (decide (k = k')) as [->|Hne].
    + split; [done | intros []; left].
    + rewrite IH, not_elem_of_cons. tauto.
Qed.

Lemma get_Some_elem {V} k (v : V) d : Py.get k d = Some v → (k, v) ∈ d.
Proof.
  induction d as [|[k' v'] d IH]; simpl; [done|].
  destruct (decide (k = k')) as [->|Hne].
  - intros [= ->]. left.
  - intros. right. auto.
Qed.

Lemma elem_get_NoDup {V} k (v : V) d :
  NoDup (Py.keys d) → (k, v) ∈ d → Py.get k d = Some v.
Proof.
  induction d as [|[k' v'] d IH]; simpl.
  - intros _ Hin. by apply elem_of_nil in Hin.
  - rewrite NoDup_cons. intros [Hk Hnd] Hin.
    apply elem_of_cons in Hin as [[= -> ->]|Hin].
    + by rewrite decide_True.
    + destruct (decide (k = k')) as [->|Hne]; [|by apply IH].
      exfalso. apply Hk. unfold Py.keys.
      apply (list_elem_of_fmap_2 fst) in Hin. done.
Qed.

Lemma keys_set_present {V} k (v : V) d :
  k ∈ Py.keys d → Py.keys (Py.set k v d) = Py.keys d.
Proof.
  induction d as [|[k' v'] d IH]; simpl.
  - intros Hin. by apply elem_of_nil in Hin.
  - intros Hin. destruct (decide (k = k')) as [->|Hne]; simpl; [done|].
    f_equal. apply IH. apply elem_of_cons in Hin as [?|?]; done.
Qed.

Lemma keys_set_absent {V} k (v : V) d :
  k ∉ Py.keys d → Py.keys (Py.set k v d) = Py.keys d ++ [k].
Proof.
  induction d as [|[k' v'] d IH]; simpl; [done|].
  rewrite not_elem_of_cons. intros [Hne Hnin].
  rewrite decide_False by done. simpl. f_equal. by apply IH.
Qed.

(** ** Sorting *)

Section SortFacts.
Context {A K : Type} (kle : K → K → bool) (key : A → K).
Hypothesis kle_total : ∀ a b, kle a b = true ∨ kle b a = true.

Lemma insert_by_perm x l : Py.insert_by kle key x l ≡ₚ x :: l.
Proof.
  induction l as [|y l IH]; simpl; [done|].
  destruct (kle (key x) (key y)); [done|].
  rewrite IH. apply Permutation_swap.
Qed.

Lemma sort_by_perm l : Py.sort_by kle key l ≡ₚ l.
Proof.
  induction l as [|x l IH]; simpl; [done|].
  by rewrite insert_by_perm, IH.
Qed.

Lemma insert_by_sorted x l :
  Sorted (in_order kle key) l → Sorted (in_order kle key) (Py.insert_by kle key x l).
Proof.
  induction l as [|y l IH]; simpl; intros Hs.
  - repeat constructor.
  - destruct (kle (key x) (key y)) eqn:Hxy.
    + constructor; [done|]. by constructor.
    + apply Sorted_inv in Hs as [Hs Hhd]. constructor; [by apply IH|].
      destruct l as [|z l]; simpl.
      * constructor. unfold in_order. destruct (kle_total (key x) (key y)); congruence.
      * destruct (kle (key x) (key z)).
        -- constructor. unfold in_order.
           destruct (kle_total (key x) (key y)); congruence.
        -- constructor. by apply HdRel_inv in Hhd.
Qed.

Lemma sort_by_sorted l : Sorted (in_order kle key) (Py.sort_by kle key l).
Proof.
  induction l as [|x l IH]; simpl; [constructor|]. by apply insert_by_sorted.
Qed.

Context `{EqDecision K}.

Lemma insert_by_stable k x l :
  filter (λ y, key y = k) (Py.insert_by kle key x l)
  = filter (λ y, key y = k) (x :: l).
Proof.
  induction l as [|y l IH]; simpl; [done|].
  destruct (kle (key x) (key y)) eqn:Hxy; [done|].
  rewrite filter_cons, IH, !filter_cons.
  destruct (decide (key y = k)) as [Hy|Hy]; [|done].
  destruct (decide (key x = k)) as [Hx|Hx]; [|done].
  exfalso. rewrite Hx, Hy in Hxy.
  destruct (kle_total k k); congruence.
Qed.

Lemma sort_by_stable k l :
  filter (λ y, key y = k) (Py.sort_by kle key l) = filter (λ y, key y = k) l.
Proof.
  induction l as [|x l IH]; simpl; [done|].
  by rewrite insert_by_stable, !filter_cons, IH.
Qed.

End SortFacts.

Lemma Zleb_total (a b : Z) : (a <=? b)%Z = true ∨ (b <=? a)%Z = true.
Proof. rewrite !Z.leb_le. lia. Qed.

Lemma Sorted_take {A} (R : A → A → Prop) n l : Sorted R l → Sorted R (take n l).
Proof.
  revert n. induction l as [|x l IH]; intros [|n] Hs; simpl; try constructor.
  - apply Sorted_inv in Hs as [Hs _]. by apply IH.
  - apply Sorted_inv in Hs as [_ Hhd].
    destruct l as [|y l]; destruct n; simpl; constructor.
    by apply HdRel_inv in Hhd.
Qed.

(** ** Slices and batches *)

Lemma slice_to_nonneg {A} (xs : list A) n :
  (0 ≤ n)%Z → Py.slice_to xs n = take (Z.to_nat n) xs.
Proof. intros Hn. unfold Py.slice_to. by destruct (Z.leb_spec 0 n); [|lia]. Qed.

Lemma slice_to_neg {A} (xs : list A) n :
  (n < 0)%Z → Py.slice_to xs n = take (length xs - Z.to_nat (- n)) xs.
Proof. intros Hn. unfold Py.slice_to. by destruct (Z.leb_spec 0 n); [lia|]. Qed.

Lemma slice_to_take {A} (xs : list A) n : ∃ k, Py.slice_to xs n = take k xs.
Proof. unfold Py.slice_to. destruct (0 <=? n)%Z; eauto. Qed.

Lemma elem_of_slice_to {A} (xs : list A) n x : x ∈ Py.slice_to xs n → x ∈ xs.
Proof.
  destruct (slice_to_take xs n) as [k ->].
  intros Hx. eapply elem_of_sublist; [done | apply sublist_take].
Qed.

Lemma concat_batches_prefix {A} step (xs : list A) k :
  concat ((λ i, take step (drop i xs)) <$> ((λ j, j * step) <$> seq 0 k))
  = take (k * step) xs.
Proof.
  induction k as [|k IH]; [done|].
  rewrite seq_S, !fmap_app, concat_app, IH. simpl.
  rewrite app_nil_r, take_take_drop. f_equal. lia.
Qed.

Lemma concat_batches {A} step (xs : list A) :
  0 < step → concat (Py.batches step xs) = xs.
Proof.
  intros Hstep. unfold Py.batches, Py.range0.
  rewrite concat_batches_prefix. apply take_ge.
  pose proof (Nat.div_mod (length xs + step - 1) step ltac:(lia)) as Hdm.
  pose proof (Nat.mod_upper_bound (length xs + step - 1) step ltac:(lia)).
  nia.
Qed.

Lemma batches_bounded {A} step (xs : list A) :
  0 < step → Forall (λ b, 0 < length b ≤ step) (Py.batches step xs).
Proof.
  intros Hstep. unfold Py.batches, Py.range0.
  rewrite Forall_fmap, Forall_fmap, Forall_forall. intros j Hj. simpl.
  apply elem_of_seq in Hj. rewrite length_take, length_drop.
  assert (j * step < length xs); [|lia].
  pose proof (Nat.div_mod (length xs + step - 1) step ltac:(lia)) as Hdm.
  pose proof (Nat.mod_upper_bound (length xs + step - 1) step ltac:(lia)).
  nia.
Qed.

(** ** C1: deduplication *)

Section DeduplicateFacts.
Context `{Python}.

Lemma first_best_bound l r u :
  first_best l r → u ∈ l → key_of u = key_of r →
  (Track.popularity u ≤ Track.popularity r)%Z.
Proof.
  intros (l1 & l2 & -> & Hb & Ha) Hin Hk.
  apply elem_of_app in Hin as [Hin|Hin].
  - specialize (Hb _ Hin Hk). lia.
  - apply elem_of_cons in Hin as [->|Hin]; [lia|]. by apply Ha.
Qed.

Lemma first_best_snoc l r x :
  first_best l r →
  (key_of x = key_of r → (Track.popularity x ≤ Track.popularity r)%Z) →
  first_best (l ++ [x]) r.
Proof.
  intros (l1 & l2 & -> & Hb & Ha) Hx.
  exists l1, (l2 ++ [x]). split; [by rewrite <- app_assoc|].
  split; [done|]. intros u Hin Hk.
  apply elem_of_app in Hin as [Hin|Hin]; [by apply Ha|].
  apply list_elem_of_singleton in Hin as ->. by apply Hx.
Qed.

Lemma first_best_new l x :
  (∀ u, u ∈ l → key_of u = key_of x → (Track.popularity u < Track.popularity x)%Z) →
  first_best (l ++ [x]) x.
Proof.
  intros Hl. exists l, []. split; [done|]. split; [done|].
  intros u Hin. by apply elem_of_nil in Hin.
Qed.

Lemma dedup_inv_nil : dedup_inv [] [].
Proof.
  split; simpl.
  - constructor.
  - done.
  - intros t Hin. by apply elem_of_nil in Hin.
Qed.

Lemma nodup_keys_set {V} k (v : V) d :
  NoDup (Py.keys d) → NoDup (Py.keys (Py.set k v d)).
Proof.
  intros Hnd. destruct (decide (k ∈ Py.keys d)) as [Hin|Hnin].
  - by rewrite keys_set_present.
  - rewrite keys_set_absent by done.
    apply NoDup_app. split; [done|]. split.
    + intros x Hx Hx'. apply list_elem_of_singleton in Hx' as ->. done.
    + apply NoDup_singleton.
Qed.

Lemma dedup_inv_step l seen x :
  dedup_inv l seen → dedup_inv (l ++ [x]) (dedup_step seen x).
Proof.
  intros [Hnd Hbest Hall]. unfold dedup_step.
  fold (key_of x).
  destruct (Py.get (key_of x) seen) as [best|] eqn:Hget.
  - destruct (Hbest _ _ Hget) as [Hkb Hfb].
    destruct (Z.ltb_spec (Track.popularity best) (Track.popularity x)) as [Hlt|Hge].
    + split.
      * by apply nodup_keys_set.
      * intros k r. destruct (decide (key_of x = k)) as [<-|Hne].
        -- rewrite get_set_eq. intros [= <-]. split; [done|].
           apply first_best_new. intros u Hin Hk.
           assert (Track.popularity u ≤ Track.popularity best)%Z; [|lia].
           apply (first_best_bound l); [done..|congruence].
        -- rewrite get_set_ne by done. intros Hr.
           destruct (Hbest _ _ Hr) as [-> Hfr]. split; [done|].
           apply first_best_snoc; [done|]. intros Hk. done.
      * intros t Hin. destruct (decide (key_of x = key_of t)) as [<-|Hne].
        -- by rewrite get_set_eq.
        -- rewrite get_set_ne by done.
           apply elem_of_app in Hin as [Hin|Hin]; [by apply Hall|].
           apply list_elem_of_singleton in Hin as ->. done.
    + split; [done| |].
      * intros k r Hr. destruct (Hbest _ _ Hr) as [-> Hfr]. split; [done|].
        apply first_best_snoc; [done|]. intros Hk.
        rewrite Hk in Hget. rewrite Hget in Hr. by injection Hr as <-.
      * intros t Hin.
        apply elem_of_app in Hin as [Hin|Hin]; [by apply Hall|].
        apply list_elem_of_singleton in Hin as ->. by rewrite Hget.
  - split.
    + by apply nodup_keys_set.
    + intros k r. destruct (decide (key_of x = k)) as [<-|Hne].
      * rewrite get_set_eq. intros [= <-]. split; [done|].
        apply first_best_new. intros u Hin Hk.
        exfalso. apply (Hall _ Hin). by rewrite Hk.
      * rewrite get_set_ne by done. intros Hr.
        destruct (Hbest _ _ Hr) as [-> Hfr]. split; [done|].
        apply first_best_snoc; [done|]. intros Hk. done.
    + intros t Hin. destruct (decide (key_of x = key_of t)) as [<-|Hne].
      * by rewrite get_set_eq.
      * rewrite get_set_ne by done.
        apply elem_of_app in Hin as [Hin|Hin]; [by apply Hall|].
        apply list_elem_of_singleton in Hin as ->. done.
Qed.

Lemma dedup_inv_foldl l : dedup_inv l (foldl dedup_step [] l).
Proof.
  induction l as [|x l IH] using rev_ind.
  - apply dedup_inv_nil.
  - rewrite foldl_app. simpl. by apply dedup_inv_step.
Qed.

Lemma dedup_keys l seen :
  dedup_inv l seen → key_of <$> Py.values seen = Py.keys seen.
Proof.
  intros [Hnd Hbest _]. unfold Py.values, Py.keys.
  rewrite <- list_fmap_compose. apply Forall_fmap_ext_1, Forall_forall.
  intros [k r] Hin. simpl.
  apply elem_get_NoDup in Hin; [|done].
  by destruct (Hbest _ _ Hin) as [-> _].
Qed.

Example deduplicate_tie :
  Track.id <$> @deduplicate CPython
    [a_collected "1" "Hello" 50; a_collected "2" "HELLO" 50;
     a_collected "3" "World" 10; a_collected "4" "hello" 60;
     a_collected "5" "world" 10]
  = ["4"; "3"].
Proof. vm_compute. reflexivity. Qed.

(** C1. For every sequence of collected tracks, the deduplication of
    ArtistDeepDive keeps exactly one track per distinct lower-cased name:
    the keys of the output are pairwise distinct and every input track
    has its key represented; the kept track is an input track at least as
    popular as every input track of the same key, and it is the first of
    the input among those of maximal popularity (everything before it
    with the same key is strictly less popular). *)
Theorem deduplicate_keeps_first_best (all_tracks : list Track.t) :
  NoDup (key_of <$> deduplicate all_tracks) ∧
  (∀ t, t ∈ all_tracks →
     ∃ r, r ∈ deduplicate all_tracks ∧ key_of r = key_of t) ∧
  (∀ r, r ∈ deduplicate all_tracks →
     r ∈ all_tracks ∧
     (∀ u, u ∈ all_tracks → key_of u = key_of r →
        (Track.popularity u ≤ Track.popularity r)%Z) ∧
     ∃ l1 l2, all_tracks = l1 ++ r :: l2 ∧
       (∀ u, u ∈ l1 → key_of u = key_of r →
          (Track.popularity u < Track.popularity r)%Z)).
Proof.
  unfold deduplicate.
  pose proof (dedup_inv_foldl all_tracks) as Hinv.
  pose proof (dedup_keys _ _ Hinv) as Hkeys.
  destruct Hinv as [Hnd Hbest Hall].
  set (seen := foldl dedup_step [] all_tracks) in *.
  split; [by rewrite Hkeys|]. split.
  - intros t Hin. specialize (Hall _ Hin).
    destruct (Py.get (key_of t) seen) as [r|] eqn:Hget; [|done].
    exists r. split.
    + apply get_Some_elem in Hget.
      apply (list_elem_of_fmap_2 snd) in Hget. done.
    + by destruct (Hbest _ _ Hget) as [<- _].
  - intros r Hin. unfold Py.values in Hin.
    apply list_elem_of_fmap in Hin as ([k r'] & -> & Hin). simpl.
    apply elem_get_NoDup in Hin; [|done].
    destruct (Hbest _ _ Hin) as [-> Hfb]. split; [|split].
    + destruct Hfb as (l1 & l2 & Heq & _). rewrite Heq.
      apply elem_of_app. right. left.
    + intros u Hu Hk. by apply (first_best_bound all_tracks).
    + destruct Hfb as (l1 & l2 & Heq & Hb & _). by exists l1, l2.
Qed.

End DeduplicateFacts.

(** ** C2: genre classification *)

Lemma append_nil (t : string) : "" +:+ t = t.
Proof. reflexivity. Qed.

Lemma append_cons c (s t : string) : String c s +:+ t = String c (s +:+ t).
Proof. reflexivity. Qed.

Lemma append_empty_r s : s +:+ "" = s.
Proof.
  induction s as [|c s IH]; [done|]. by rewrite append_cons, IH.
Qed.

Lemma append_assoc (a b c : string) : (a +:+ b) +:+ c = a +:+ (b +:+ c).
Proof.
  induction a as [|x a IH]; [done|]. by rewrite !append_cons, IH.
Qed.

Lemma startswith_spec s p : Py.startswith s p = true ↔ ∃ post, s = p +:+ post.
Proof.
  revert s. induction p as [|a p IH]; intros s; simpl.
  - split; [intros _; by exists s | done].
  - setoid_rewrite append_cons. destruct s as [|b s].
    + split; [done | intros [post Hpost]; done].
    + destruct (decide (a = b)) as [->|Hne].
      * rewrite IH. split; intros [post Hpost]; exists post; congruence.
      * split; [done | intros [post Hpost]; congruence].
Qed.

Lemma contains_spec kw s : Py.contains kw s = true ↔ occurs_in kw s.
Proof.
  unfold occurs_in. induction s as [|c s IH]; simpl.
  - rewrite orb_false_r, startswith_spec. split.
    + intros [post Hpost]. by exists "", post.
    + intros (pre & post & Heq). destruct pre; [|done].
      rewrite append_nil in Heq. by exists post.
  - rewrite orb_true_iff, startswith_spec, IH. split.
    + intros [[post Hpost]|(pre & post & Heq)].
      * by exists "", post.
      * exists (String c pre), post. by rewrite append_cons, Heq.
    + intros (pre & post & Heq). destruct pre as [|c' pre].
      * left. by exists post.
      * right. exists pre, post. rewrite append_cons in Heq. congruence.
Qed.

Section ClassifierFacts.
Context `{Python}.

Lemma any_keyword_spec keywords g :
  existsb (λ kw, Py.contains kw (lower g)) keywords = true ↔ tag_matches keywords g.
Proof.
  unfold tag_matches. rewrite existsb_exists. split.
  - intros (kw & Hin & Hc). exists kw.
    by rewrite <- list_elem_of_In, <- contains_spec in *.
  - intros (kw & Hin & Hc). exists kw.
    by rewrite <- list_elem_of_In, <- contains_spec in *.
Qed.

Lemma genre_score_counts keywords all_genres :
  counts (tag_matches keywords) all_genres (genre_score keywords all_genres).
Proof.
  induction all_genres as [|g l IH]; simpl.
  - constructor.
  - destruct (existsb _ keywords) eqn:Hany.
    + apply counts_yes; [by apply any_keyword_spec | done].
    + apply counts_no; [|done].
      rewrite <- any_keyword_spec. by rewrite Hany.
Qed.

Lemma classify_first_max taxonomy all_genres :
  first_max all_genres taxonomy (classify taxonomy all_genres).
Proof.
  unfold classify. induction taxonomy as [|x l IH] using rev_ind.
  - left. split; [done|]. intros e He. by apply elem_of_nil in He.
  - rewrite foldl_app. simpl.
    destruct IH as [[-> Hz]|(l1 & e & l2 & -> & -> & Hpos & Hb & Ha)].
    + destruct x as [category keywords]. simpl.
      destruct (Nat.ltb_spec 0 (genre_score keywords all_genres)) as [Hlt|Hge].
      * right. exists l, (category, keywords), []. split; [done|].
        split; [done|]. split; [done|]. split.
        -- intros e' He'. rewrite (Hz _ He'). done.
        -- intros e' He'. by apply elem_of_nil in He'.
      * left. split; [done|]. intros e He.
        apply elem_of_app in He as [He|He]; [by apply Hz|].
        apply list_elem_of_singleton in He as ->. unfold score_of. simpl. lia.
    + destruct x as [category keywords]. simpl.
      destruct (Nat.ltb_spec (score_of all_genres e)
                  (genre_score keywords all_genres)) as [Hlt|Hge].
      * right. exists (l1 ++ e :: l2), (category, keywords), [].
        split; [done|]. split; [done|]. unfold score_of at 1 3 5. simpl.
        split; [lia|]. split.
        -- intros e' He'. apply elem_of_app in He' as [He'|He'].
           ++ specialize (Hb _ He'). lia.
           ++ apply elem_of_cons in He' as [->|He']; [done|].
              specialize (Ha _ He'). lia.
        -- intros e' He'. by apply elem_of_nil in He'.
      * right. exists l1, e, (l2 ++ [(category, keywords)]).
        split; [by rewrite <- app_assoc|]. split; [done|]. split; [done|].
        split; [done|]. intros e' He'.
        apply elem_of_app in He' as [He'|He']; [by apply Ha|].
        apply list_elem_of_singleton in He' as ->. done.
Qed.

Lemma labels_truthy :
  Forall (λ e : string * list string, Py.truthy e.1 = true) GENRE_CATEGORIES.
Proof. repeat constructor. Qed.

Example score_counts_a_tag_once :
  @genre_score CPython ["rock"; "indie rock"; "hard rock"] ["Indie Rock"; "jazz"] = 1.
Proof. vm_compute. reflexivity. Qed.

Example classify_tie :
  @classify CPython GENRE_CATEGORIES ["indie pop"; "Indie Rock"] = (Some "🎸 Rock", 1)
  ∧ @classify CPython GENRE_CATEGORIES ["k-pop"; "J-Pop"; "soul"] = (Some "🎵 Pop", 2)
  ∧ @classify CPython GENRE_CATEGORIES ["spoken word"] = (None, 0).
Proof. vm_compute. done. Qed.

(** C2. For every list of genre tags classified against the table of ten
    categories: the score of a category is the number of tags of which
    some keyword of the category is a substring once the tag is
    lower-cased (a tag counts once, whatever the number of keywords it
    contains); when every score is 0 no category is returned, and
    otherwise the category returned is the first of the table, in its
    order, that attains the maximal score (every category before it scores
    strictly less, none after it scores more); the empty list of tags
    yields no category and score 0. *)
Theorem classify_returns_first_maximum (all_genres : list string) :
  (∀ category keywords, (category, keywords) ∈ GENRE_CATEGORIES →
     counts (tag_matches keywords) all_genres (genre_score keywords all_genres)) ∧
  ((classify GENRE_CATEGORIES all_genres = (None, 0) ∧
    classified (classify GENRE_CATEGORIES all_genres) = None ∧
    ∀ category keywords, (category, keywords) ∈ GENRE_CATEGORIES →
      genre_score keywords all_genres = 0) ∨
   (∃ before category keywords after,
      GENRE_CATEGORIES = before ++ (category, keywords) :: after ∧
      classify GENRE_CATEGORIES all_genres =
        (Some category, genre_score keywords all_genres) ∧
      classified (classify GENRE_CATEGORIES all_genres) = Some category ∧
      0 < genre_score keywords all_genres ∧
      (∀ c kws, (c, kws) ∈ before →
         genre_score kws all_genres < genre_score keywords all_genres) ∧
      (∀ c kws, (c, kws) ∈ after →
         genre_score kws all_genres ≤ genre_score keywords all_genres))) ∧
  classify GENRE_CATEGORIES [] = (None, 0).
Proof.
  split; [intros; apply genre_score_counts|]. split; [|done].
  destruct (classify_first_max GENRE_CATEGORIES all_genres)
    as [[Heq Hz]|(l1 & [c kws] & l2 & Hdec & Heq & Hpos & Hb & Ha)].
  - left. rewrite Heq. split; [done|]. split; [done|].
    intros category keywords Hin. apply (Hz _ Hin).
  - right. exists l1, c, kws, l2. unfold score_of in *. simpl in *.
    split; [done|]. split; [done|]. split.
    + rewrite Heq. unfold classified.
      assert (Py.truthy c = true) as ->.
      { pose proof labels_truthy as Hl. rewrite Forall_forall in Hl.
        apply (Hl (c, kws)). rewrite Hdec. set_solver. }
      by destruct (Nat.ltb_spec 0 (genre_score kws all_genres)); [|lia].
    + split; [done|]. split.
      * intros c' kws' Hin. apply (Hb _ Hin).
      * intros c' kws' Hin. apply (Ha _ Hin).
Qed.

End ClassifierFacts.

(** ** Runs of the monad *)

Lemma bind_Ok {A B} (m : M A) (k : A → M B) log log' (b : B) :
  bind m k log = (log', Ok b) →
  ∃ a log1, m log = (log1, Ok a) ∧ k a log1 = (log', Ok b).
Proof.
  unfold bind. destruct (m log) as [log1 [a|e]]; [eauto|done].
Qed.

Lemma bind_ret_run {A B} (a : A) (k : A → M B) log : bind (ret a) k log = k a log.
Proof. reflexivity. Qed.

Lemma ret_Ok {A} (a b : A) log log' :
  ret a log = (log', Ok b) → log' = log ∧ b = a.
Proof. unfold ret. by intros [= -> ->]. Qed.

Lemma attempt_Ok {A} (m : M A) log log' r :
  attempt m log = (log', Ok r) → m log = (log', r).
Proof. unfold attempt. destruct (m log) as [log1 r1]. by intros [= -> ->]. Qed.

Lemma foldl_inv {A S} (I : S → Prop) (f : S → A → S) xs s :
  (∀ s x, I s → I (f s x)) → I s → I (foldl f s xs).
Proof.
  intros Hf. revert s. induction xs as [|x xs IH]; simpl; [done|].
  intros s Hs. apply IH. by apply Hf.
Qed.

Lemma for_each_inv {A S} (I : S → Prop) (body : S → A → M S) xs s log log' s' :
  (∀ s x log log' s', x ∈ xs → I s → body s x log = (log', Ok s') → I s') →
  I s → for_each xs body s log = (log', Ok s') → I s'.
Proof.
  revert s log. induction xs as [|x xs IH]; simpl; intros s log Hbody Hs Hrun.
  - by apply ret_Ok in Hrun as [_ ->].
  - apply bind_Ok in Hrun as (s1 & log1 & Hx & Hrest).
    eapply IH; [| |done].
    + intros s2 y l l' s3 Hy. apply Hbody. by right.
    + eapply Hbody; [left|done..].
Qed.

(** ** Discover: the pipeline and its stages *)

Section DiscoverFacts.
Context `{Python} `{Catalog}.

Lemma handle_discover_Ok arguments log log' r :
  handle_call_tool (Discover arguments) log = (log', Ok (DiscoverJson r)) →
  discover arguments log = (log', Ok (inr r)).
Proof.
  unfold handle_call_tool. intros Hrun.
  apply bind_Ok in Hrun as (res & log1 & Htool & Hrun).
  apply attempt_Ok in Htool. destruct res as [reply|[se|e]].
  - apply ret_Ok in Hrun as [-> <-]. simpl in Htool.
    unfold bind in Htool |- *.
    destruct (discover arguments log) as [log2 [[text|r']|e]]; simpl in Htool;
      unfold ret in Htool; by simplify_eq.
  - apply ret_Ok in Hrun as [_ [=]].
  - apply ret_Ok in Hrun as [_ [=]].
Qed.

Lemma discover_Ok arguments log log' r :
  discover arguments log = (log', Ok (inr r)) →
  ∃ seed_type requested seed log1 log2 run,
    arg_get (DiscoverArgs.seed_type arguments) = Some seed_type ∧
    arg_get_default (DiscoverArgs.limit arguments) 30%Z = Some requested ∧
    resolve_seed seed_type (arg_get (DiscoverArgs.seed_value arguments)) log
      = (log1, Ok (inr seed)) ∧
    discover_pipeline seed_type seed
      (arg_get_default (DiscoverArgs.year_range arguments) "2015-2025")
      (Z.min requested 50) log1 = (log2, Ok run) ∧
    DiscoverResult.recommendations r
      = to_recommendation <$> run_recommendations run.
Proof.
  unfold discover. intros Hrun.
  apply bind_Ok in Hrun as (limit & log0 & Hlimit & Hrun).
  destruct (arg_get_default (DiscoverArgs.limit arguments) 30%Z)
    as [requested|] eqn:Hreq; [|done].
  apply ret_Ok in Hlimit as [-> ->].
  destruct (arg_get (DiscoverArgs.seed_type arguments)) as [seed_type|];
    [|by apply ret_Ok in Hrun as [_ [=]]].
  case_bool_decide; [|by apply ret_Ok in Hrun as [_ [=]]].
  destruct (_ && _); [by apply ret_Ok in Hrun as [_ [=]]|].
  apply bind_Ok in Hrun as ([text|seed] & log1 & Hseed & Hrun);
    [by apply ret_Ok in Hrun as [_ [=]]|].
  destruct (nonempty (seed_genres seed)); [|by apply ret_Ok in Hrun as [_ [=]]].
  apply bind_Ok in Hrun as (run & log2 & Hpipe & Hrun).
  apply bind_Ok in Hrun as (r' & log3 & Hres & Hrun).
  apply ret_Ok in Hrun as [-> [= ->]].
  exists seed_type, requested, seed, log1, log2, run.
  repeat split; try done.
  unfold discover_result in Hres.
  apply bind_Ok in Hres as (pl & log4 & _ & Hres).
  by apply ret_Ok in Hres as [_ ->].
Qed.

Lemma discover_pipeline_Ok seed_type seed year_range limit log log' run :
  discover_pipeline seed_type seed year_range limit log = (log', Ok run) →
  ∃ log1 log2 st4,
    exclusion_set log = (log1, Ok (run_exclude_ids run)) ∧
    for_each (seed_genres seed)
      (genre_search (run_exclude_ids run) year_range) stage0 log1
      = (log2, Ok (run_genre_stage run)) ∧
    augment seed_type (seed_genres seed) (run_exclude_ids run)
      (run_genre_stage run) log2 = (log', Ok st4) ∧
    run_candidates run = recommendations st4 ∧
    run_recommendations run
      = rank (seed_popularity seed) limit (recommendations st4).
Proof.
  unfold discover_pipeline. intros Hrun.
  apply bind_Ok in Hrun as (exclude_ids & log1 & Hex & Hrun).
  apply bind_Ok in Hrun as (st3 & log2 & H3 & Hrun).
  apply bind_Ok in Hrun as (st4 & log3 & H4 & Hrun).
  apply ret_Ok in Hrun as [-> ->]. simpl.
  by exists log1, log2, st4.
Qed.

(** Steps 3 and 4 preserve whatever each accepted track preserves. *)
Lemma genre_stage_inv (I : Stage → Prop) exclude_ids year_range genres st log log' st' :
  (∀ genre st track, I st → I (genre_track exclude_ids genre st track)) →
  I st →
  for_each genres (genre_search exclude_ids year_range) st log = (log', Ok st') →
  I st'.
Proof.
  intros Hstep. apply for_each_inv.
  intros s genre l l' s' _ Hs Hrun. unfold genre_search in Hrun.
  apply bind_Ok in Hrun as ([tracks|e] & log1 & _ & Hrun);
    apply ret_Ok in Hrun as [_ ->]; [|done].
  apply foldl_inv; [|done]. intros. by apply Hstep.
Qed.

Lemma augment_inv (I : Stage → Prop) seed_type genres exclude_ids st log log' st' :
  (∀ artist st track, I st → I (top_track exclude_ids artist st track)) →
  I st →
  augment seed_type genres exclude_ids st log = (log', Ok st') →
  I st'.
Proof.
  intros Hstep Hst. unfold augment. case_bool_decide.
  - intros Hrun.
    apply bind_Ok in Hrun as ([top_artists|e] & log1 & _ & Hrun);
      [|by apply ret_Ok in Hrun as [_ ->]].
    revert Hrun. apply for_each_inv; [|done].
    intros s artist l l' s' _ Hs Hrun. unfold artist_top_tracks in Hrun.
    apply bind_Ok in Hrun as ([tracks|e] & log2 & _ & Hrun);
      apply ret_Ok in Hrun as [_ ->]; [|done].
    apply foldl_inv; [|done]. intros. by apply Hstep.
  - intros Hrun. by apply ret_Ok in Hrun as [_ ->].
Qed.

Lemma genre_track_clean exclude_ids genre st track :
  clean exclude_ids st → clean exclude_ids (genre_track exclude_ids genre st track).
Proof.
  intros Hst. unfold genre_track. case_bool_decide as Hseen; [done|].
  assert (TrackObj.id track ∉ exclude_ids) as Hnot by tauto.
  destruct (primary_artist_id track) as [a|].
  - destruct (_ && _); [done|]. intros c Hc. simpl in Hc.
    apply elem_of_app in Hc as [Hc|Hc]; [by apply Hst|].
    by apply list_elem_of_singleton in Hc as ->.
  - intros c Hc. simpl in Hc.
    apply elem_of_app in Hc as [Hc|Hc]; [by apply Hst|].
    by apply list_elem_of_singleton in Hc as ->.
Qed.

Lemma top_track_clean exclude_ids artist st track :
  clean exclude_ids st → clean exclude_ids (top_track exclude_ids artist st track).
Proof.
  intros Hst. unfold top_track. case_bool_decide as Hseen; [done|].
  assert (TrackObj.id track ∉ exclude_ids) as Hnot by tauto.
  intros c Hc. simpl in Hc.
  apply elem_of_app in Hc as [Hc|Hc]; [by apply Hst|].
  by apply list_elem_of_singleton in Hc as ->.
Qed.

Lemma elem_of_rank seed_popularity limit l c :
  c ∈ rank seed_popularity limit l → c ∈ l.
Proof.
  unfold rank. intros Hc. apply elem_of_slice_to in Hc.
  unfold Py.sorted in Hc. by rewrite sort_by_perm in Hc.
Qed.

Lemma exclusion_set_run log :
  ∃ log', exclusion_set log = (log',
    Ok match answer log (GetRecentTrackIds 50) with
       | Raise _ => ∅
       | Ok recent =>
           match answer (log ++ [existT (GetRecentTrackIds 50) (Ok recent)])
                   (GetUserSavedTrackIds 100) with
           | Raise _ => list_to_set recent
           | Ok saved => list_to_set recent ∪ list_to_set saved
           end
       end).
Proof.
  unfold exclusion_set, bind, attempt, call, ret.
  destruct (answer log (GetRecentTrackIds 50)) as [recent|e] eqn:Hr; [|eauto].
  destruct (answer _ (GetUserSavedTrackIds 100)) as [saved|e]; eauto.
Qed.

Lemma default_Some {A} (d x : A) : default d (Some x) = x.
Proof. reflexivity. Qed.


Lemma length_filter_snoc {A} (P : A → Prop) `{∀ x, Decision (P x)} l x :
  length (filter P (l ++ [x]))
  = length (filter P l) + (if decide (P x) then 1 else 0).
Proof.
  rewrite filter_app, length_app. f_equal.
  rewrite filter_cons, filter_nil. by destruct (decide (P x)).
Qed.



Lemma rank_submseteq seed_popularity limit l : rank seed_popularity limit l ⊆+ l.
Proof.
  unfold rank. destruct (slice_to_take (Py.sorted (score_track seed_popularity) l) limit)
    as [k ->].
  etrans; [apply submseteq_take|].
  apply Permutation_submseteq. unfold Py.sorted. apply sort_by_perm.
Qed.




End DiscoverFacts.

(** ** Concrete Discover runs *)

Example example_outcome_count :
  DiscoverResult.count (discover_json example_outcome) = 20.
Proof. vm_compute. reflexivity. Qed.

Example negative_limit_count :
  DiscoverResult.count (discover_json negative_limit_outcome) = 59.
Proof. vm_compute. reflexivity. Qed.

Example example_quota :
  Candidate.id <$> filter (λ c, Candidate.artist_id c = Some "A1")
    (recommendations
       (foldl (genre_track {[ "t5"; "t6" ]} "indie rock") stage0 indie_rock_tracks))
  = ["t0"; "t1"; "t2"].
Proof. vm_compute. reflexivity. Qed.

Example example_augmentation :
  (λ run, length (filter (λ c, Candidate.artist_id c = Some "A1")
                    (run_candidates run)))
  <$> match (@discover_pipeline example_catalog "artist"
               {| seed_genres := ["indie rock"; "electropop"];
                  seed_artist_name := Some "Artist A"; seed_popularity := 50 |}
               (Some "2015-2025") 30 []).2 with
      | Ok run => Some run
      | Raise _ => None
      end
  = Some 6.
Proof. vm_compute. reflexivity. Qed.

(** ** C3: ranking *)

Section RankingFacts.
Context `{Python} `{Catalog}.

Lemma rank_sorted seed_popularity limit l :
  Sorted (in_order Z.leb (score_track seed_popularity)) (rank seed_popularity limit l).
Proof.
  unfold rank.
  destruct (slice_to_take (Py.sorted (score_track seed_popularity) l) limit) as [k ->].
  apply Sorted_take. unfold Py.sorted. apply sort_by_sorted, Zleb_total.
Qed.

Lemma sorted_stable seed_popularity (d : Z) l :
  filter (λ c, score_track seed_popularity c = d)
    (Py.sorted (score_track seed_popularity) l)
  = filter (λ c, score_track seed_popularity c = d) l.
Proof. unfold Py.sorted. apply sort_by_stable, Zleb_total. Qed.

Lemma rank_nonneg seed_popularity limit l :
  (0 ≤ limit)%Z →
  rank seed_popularity limit l
  = take (Z.to_nat limit) (Py.sorted (score_track seed_popularity) l).
Proof. intros. unfold rank. by apply slice_to_nonneg. Qed.

Lemma rank_negative seed_popularity limit l :
  (limit < 0)%Z →
  length (rank seed_popularity limit l) = length l - Z.to_nat (- limit).
Proof.
  intros. unfold rank. rewrite slice_to_neg by done.
  rewrite length_take. unfold Py.sorted.
  rewrite (Permutation_length (sort_by_perm _ _ l)). lia.
Qed.

(** What step 5 does for a limit that is not negative: the recommendations
    are the first [min(limit, 50)] of the candidates sorted by the distance
    of their popularity to the seed's, candidates at equal distance in the
    order of their acceptance, and adjacent entries are in order. *)
Lemma discover_ranking_nonneg_limit arguments log log' r :
  handle_call_tool (Discover arguments) log = (log', Ok (DiscoverJson r)) →
  ∃ run seed requested,
    arg_get_default (DiscoverArgs.limit arguments) 30%Z = Some requested ∧
    DiscoverResult.recommendations r
      = to_recommendation <$> run_recommendations run ∧
    Sorted (in_order Z.leb (score_track (seed_popularity seed)))
      (run_recommendations run) ∧
    ((0 ≤ requested)%Z →
       run_recommendations run
       = take (Z.to_nat (Z.min requested 50))
           (Py.sorted (score_track (seed_popularity seed)) (run_candidates run))
       ∧ length (DiscoverResult.recommendations r) ≤ 50) ∧
    Py.sorted (score_track (seed_popularity seed)) (run_candidates run)
      ≡ₚ run_candidates run ∧
    (∀ d, filter (λ c, score_track (seed_popularity seed) c = d)
            (Py.sorted (score_track (seed_popularity seed)) (run_candidates run))
          = filter (λ c, score_track (seed_popularity seed) c = d)
              (run_candidates run)).
Proof.
  intros Hrun. apply handle_discover_Ok, discover_Ok in Hrun
    as (seed_type & requested & seed & log1 & log2 & run & _ & Hreq & _ & Hpipe & Hrecs).
  apply discover_pipeline_Ok in Hpipe
    as (log3 & log4 & st4 & _ & _ & _ & Hcand & Hrank).
  exists run, seed, requested. split; [done|]. split; [done|].
  rewrite Hrank, Hcand. split; [apply rank_sorted|]. split; [|split].
  - intros Hnn. rewrite rank_nonneg by lia. split; [done|].
    rewrite Hrecs, length_fmap, Hrank, rank_nonneg, length_take by lia. lia.
  - unfold Py.sorted. apply sort_by_perm.
  - intros d. apply sorted_stable.
Qed.

End RankingFacts.

(** C3 (the code departs from the claim at a negative limit). Asked for
    [limit = -1], step 5 keeps all the sorted candidates but the last
    ([recommendations[:-1]]): the listener of [wide_catalog] has 60
    candidates and is returned 59 recommendations, more than the 50 the
    tool documents as its maximum and more than [min(limit, 50)]. *)
Theorem discover_negative_limit_exceeds_cap :
  ∃ log' r,
    negative_limit_outcome = (log', Ok (DiscoverJson r)) ∧
    DiscoverArgs.limit negative_limit_args = Val (-1)%Z ∧
    length (DiscoverResult.recommendations r) = 59 ∧
    DiscoverResult.count r = 59 ∧
    50 < length (DiscoverResult.recommendations r).
Proof.
  exists negative_limit_outcome.1, (discover_json negative_limit_outcome).
  vm_compute. repeat split; lia.
Qed.

(** ** The three playlists of ArtistDeepDive *)

Lemma call_Ok `{Catalog} r log log' x :
  call r log = (log', Ok x) → log' = log ++ [existT r (Ok x)].
Proof. unfold call. intros [= <- Hx]. by rewrite Hx. Qed.

(** Inverts the successful call [H]. *)
Ltac call_inv H :=
  match type of H with
  | call ?r ?log = (_, Ok ?x) => apply (call_Ok r log _ x) in H
  end.

Section DeepDiveFacts.
Context `{Python} `{Catalog}.

Lemma add_in_chunks_Ok playlist_id track_ids log log' u :
  add_in_chunks playlist_id track_ids log = (log', Ok u) →
  ∃ evs, log' = log ++ evs ∧
    request <$> evs = AddTracksToPlaylist playlist_id <$> Py.batches 100 track_ids.
Proof.
  unfold add_in_chunks. generalize (Py.batches 100 track_ids) as chunks.
  generalize () at 1 as u0.
  intros u0 chunks. revert u0 log.
  induction chunks as [|chunk chunks IH]; intros u0 log Hrun; simpl in Hrun.
  - apply ret_Ok in Hrun as [-> _]. exists []. by rewrite app_nil_r.
  - apply bind_Ok in Hrun as (u1 & log1 & Hcall & Hrun).
    call_inv Hcall; subst.
    apply IH in Hrun as (evs & -> & Hreq).
    eexists (_ :: evs). split; [by rewrite <- app_assoc|].
    by rewrite !fmap_cons, Hreq.
Qed.

Lemma adds_Ok playlist_id tracks log log' u :
  when (nonempty tracks)
    (call (AddTracksToPlaylist playlist_id (Track.id <$> tracks))) log
  = (log', Ok u) →
  ∃ evs, log' = log ++ evs ∧ request <$> evs = adds playlist_id tracks.
Proof.
  unfold when, adds. destruct (nonempty tracks).
  - intros Hcall. call_inv Hcall; subst. by eexists [_].
  - intros Hrun. apply ret_Ok in Hrun as [-> _]. exists []. by rewrite app_nil_r.
Qed.

Lemma build_playlists_Ok artist_id artist_display_name threshold albums
    all_tracks log log' r :
  build_playlists artist_id artist_display_name threshold albums all_tracks log
    = (log', Ok r) →
  ∃ deep p1 p2 p3 evs,
    (match threshold with
     | Some th =>
         deep = deep_cuts_of th (id_set (best_of (deduplicate all_tracks)))
                  (deduplicate all_tracks)
     | None => deep = [] ∧ deduplicate all_tracks = []
     end) ∧
    log' = log ++ evs ∧
    request <$> evs
      = playlist_requests artist_display_name
          (best_of (deduplicate all_tracks)) deep
          (chronological_of (deduplicate all_tracks)) p1 p2 p3 ∧
    info_track_count <$> DeepDiveResult.playlists_created r
      = [length (best_of (deduplicate all_tracks)); length deep;
         length (chronological_of (deduplicate all_tracks))].
Proof.
  unfold build_playlists. intros Hrun.
  apply bind_Ok in Hrun as (pl1 & log1 & Hc1 & Hrun). call_inv Hc1; subst.
  apply bind_Ok in Hrun as (u1 & log2 & Ha1 & Hrun).
  apply adds_Ok in Ha1 as (evs1 & -> & Hreq1).
  apply bind_Ok in Hrun as (deep & log3 & Hdeep & Hrun).
  assert (log3 = (log ++ [existT _ (Ok pl1)]) ++ evs1 ∧
          match threshold with
          | Some th =>
              deep = deep_cuts_of th (id_set (best_of (deduplicate all_tracks)))
                       (deduplicate all_tracks)
          | None => deep = [] ∧ deduplicate all_tracks = []
          end) as [-> Hdeepspec].
  { destruct threshold as [th|]; [by apply ret_Ok in Hdeep as [-> ->]|].
    destruct (deduplicate all_tracks); [|done].
    by apply ret_Ok in Hdeep as [-> ->]. }
  apply bind_Ok in Hrun as (pl2 & log4 & Hc2 & Hrun). call_inv Hc2; subst.
  apply bind_Ok in Hrun as (u2 & log5 & Ha2 & Hrun).
  apply adds_Ok in Ha2 as (evs2 & -> & Hreq2).
  apply bind_Ok in Hrun as (pl3 & log6 & Hc3 & Hrun). call_inv Hc3; subst.
  apply bind_Ok in Hrun as (u3 & log7 & Ha3 & Hrun).
  apply ret_Ok in Hrun as [-> ->].
  assert (∃ evs3, log7 = (((((log ++ [existT _ (Ok pl1)]) ++ evs1)
                            ++ [existT _ (Ok pl2)]) ++ evs2) ++ [existT _ (Ok pl3)])
                           ++ evs3 ∧
            request <$> evs3 = AddTracksToPlaylist (Playlist.id pl3) <$>
              Py.batches 100 (Track.id <$> chronological_of (deduplicate all_tracks)))
    as (evs3 & Hlog7 & Hreq3).
  { unfold when in Ha3.
    destruct (chronological_of (deduplicate all_tracks)) as [|c0 chrono] eqn:Hch.
    - simpl in Ha3. apply ret_Ok in Ha3 as [-> _]. exists [].
      split; [by rewrite app_nil_r|done].
    - simpl nonempty in Ha3. apply add_in_chunks_Ok in Ha3 as (evs3 & -> & Hreq3).
      by exists evs3. }
  exists deep, (Playlist.id pl1), (Playlist.id pl2), (Playlist.id pl3).
  eexists. split; [done|]. split; [|split].
  - rewrite Hlog7. rewrite <- !app_assoc. reflexivity.
  - unfold playlist_requests. by rewrite !fmap_app, Hreq1, Hreq2, Hreq3.
  - done.
Qed.

Lemma handle_deep_dive_Ok arguments log log' r :
  handle_call_tool (ArtistDeepDive arguments) log = (log', Ok (DeepDiveJson r)) →
  artist_deep_dive arguments log = (log', Ok (inr r)).
Proof.
  unfold handle_call_tool. intros Hrun.
  apply bind_Ok in Hrun as (res & log1 & Htool & Hrun).
  apply attempt_Ok in Htool. destruct res as [reply|[se|e]].
  - apply ret_Ok in Hrun as [-> <-]. simpl in Htool.
    unfold bind in Htool |- *.
    destruct (artist_deep_dive arguments log) as [log2 [[text|r']|e]]; simpl in Htool;
      unfold ret in Htool; by simplify_eq.
  - apply ret_Ok in Hrun as [_ [=]].
  - apply ret_Ok in Hrun as [_ [=]].
Qed.



End DeepDiveFacts.

Example discography_counts :
  (λ r, info_track_count <$> DeepDiveResult.playlists_created r)
    <$> deep_dive_json discography_outcome = Some [3; 0; 3].
Proof. vm_compute. reflexivity. Qed.

Example discography_requests :
  drop 8 (request <$> discography_outcome.1) =
  playlist_requests "Artist A"
    [{| Track.id := "t3"; Track.name := "HELLO"; Track.popularity := 70;
        Track.release_date := "2012"; Track.album_type := "album";
        Track.album_name := "Second" |};
     {| Track.id := "t2"; Track.name := "World"; Track.popularity := 30;
        Track.release_date := "2019-05-01"; Track.album_type := "album";
        Track.album_name := "First" |};
     {| Track.id := "t4"; Track.name := "Again"; Track.popularity := 10;
        Track.release_date := "2012"; Track.album_type := "album";
        Track.album_name := "Second" |}]
    []
    [{| Track.id := "t3"; Track.name := "HELLO"; Track.popularity := 70;
        Track.release_date := "2012"; Track.album_type := "album";
        Track.album_name := "Second" |};
     {| Track.id := "t4"; Track.name := "Again"; Track.popularity := 10;
        Track.release_date := "2012"; Track.album_type := "album";
        Track.album_name := "Second" |};
     {| Track.id := "t2"; Track.name := "World"; Track.popularity := 30;
        Track.release_date := "2019-05-01"; Track.album_type := "album";
        Track.album_name := "First" |}]
    "id of Best of Artist A" "id of Artist A: Deep Cuts"
    "id of Artist A: Through the Years".
Proof. vm_compute. reflexivity. Qed.

(** ** C8: batch retrieval *)

Example batches_of_120 :
  length <$> Py.batches 50 ((λ i, pretty i) <$> seq 0 120) = [50; 50; 20].
Proof. vm_compute. reflexivity. Qed.

Lemma add_first_artist_elem a items X :
  a ∈ foldl add_first_artist X items ↔
  a ∈ X ∨ ∃ t, Some t ∈ items ∧ primary_artist_id t = Some a.
Proof.
  revert X. induction items as [|x items IH]; intros X; simpl.
  - split; [by left|]. intros [?|(t & Ht & _)]; [done|]. by apply elem_of_nil in Ht.
  - rewrite IH. unfold add_first_artist, primary_artist_id.
    destruct x as [t0|]; [destruct (TrackObj.artists t0) as [|a0 rest] eqn:Hart|].
    + split.
      * intros [?|(t & Ht & Hp)]; [by left|]. right. exists t. split; [by right|done].
      * intros [?|(t & Ht & Hp)]; [by left|].
        apply elem_of_cons in Ht as [[= ->]|Ht]; [by rewrite Hart in Hp|].
        right. by exists t.
    + rewrite elem_of_union, elem_of_singleton. split.
      * intros [[?| ->]|(t & Ht & Hp)]; [by left| |].
        -- right. exists t0. split; [left|by rewrite Hart].
        -- right. exists t. split; [by right|done].
      * intros [?|(t & Ht & Hp)]; [by left; left|].
        apply elem_of_cons in Ht as [[= ->]|Ht].
        -- rewrite Hart in Hp. injection Hp as ->. left. by right.
        -- right. by exists t.
    + split.
      * intros [?|(t & Ht & Hp)]; [by left|]. right. exists t. split; [by right|done].
      * intros [?|(t & Ht & Hp)]; [by left|].
        apply elem_of_cons in Ht as [[=]|Ht]. right. by exists t.
Qed.

Lemma add_genres_nodup items d :
  NoDup (Py.keys d) → NoDup (Py.keys (foldl add_genres d items)).
Proof.
  revert d. induction items as [|x items IH]; intros d Hd; simpl; [done|].
  apply IH. destruct x as [artist|]; simpl; [|done]. by apply nodup_keys_set.
Qed.

Lemma add_genres_get a items d :
  Py.get a (foldl add_genres d items)
  = match last (genres_listed a items) with
    | Some genres => Some genres
    | None => Py.get a d
    end.
Proof.
  revert d. induction items as [|x items IH]; intros d; simpl; [done|].
  rewrite IH. unfold genres_listed. simpl.
  destruct x as [artist|]; simpl; [|done].
  rewrite filter_cons. destruct (decide (Artist.id artist = a)) as [<-|Hne].
  - rewrite fmap_cons, last_cons.
    destruct (last _); [done|]. by rewrite get_set_eq.
  - destruct (last _); [done|]. by rewrite get_set_ne.
Qed.

Section BatchFacts.
Context `{Python} `{Catalog}.

Lemma tracks_loop_Ok batches X log log' X' :
  for_each batches
    (λ artist_ids batch,
       tracks <- call (SpTracks batch) ;;
       ret (foldl add_first_artist artist_ids tracks)) X log = (log', Ok X') →
  ∃ responses,
    length responses = length batches ∧
    log' = log ++ tracks_events batches responses ∧
    X' = foldl add_first_artist X (concat responses).
Proof.
  revert X log. induction batches as [|b batches IH]; intros X log Hrun; simpl in Hrun.
  - apply ret_Ok in Hrun as [-> ->]. exists []. by rewrite app_nil_r.
  - apply bind_Ok in Hrun as (X1 & log1 & Hbody & Hrun).
    apply bind_Ok in Hbody as (tracks & log2 & Hcall & Hret).
    apply ret_Ok in Hret as [-> ->]. call_inv Hcall. subst log2.
    apply IH in Hrun as (responses & Hlen & -> & ->).
    exists (tracks :: responses). split; [simpl; lia|]. split.
    + by rewrite <- app_assoc.
    + simpl. by rewrite foldl_app.
Qed.

Lemma artists_loop_Ok batches d log log' d' :
  for_each batches
    (λ genres batch,
       results <- call (SpArtists batch) ;;
       ret (foldl add_genres genres results)) d log = (log', Ok d') →
  ∃ responses,
    length responses = length batches ∧
    log' = log ++ artists_events batches responses ∧
    d' = foldl add_genres d (concat responses).
Proof.
  revert d log. induction batches as [|b batches IH]; intros d log Hrun; simpl in Hrun.
  - apply ret_Ok in Hrun as [-> ->]. exists []. by rewrite app_nil_r.
  - apply bind_Ok in Hrun as (d1 & log1 & Hbody & Hrun).
    apply bind_Ok in Hbody as (results & log2 & Hcall & Hret).
    apply ret_Ok in Hret as [-> ->]. call_inv Hcall. subst log2.
    apply IH in Hrun as (responses & Hlen & -> & ->).
    exists (results :: responses). split; [simpl; lia|]. split.
    + by rewrite <- app_assoc.
    + simpl. by rewrite foldl_app.
Qed.

(** C8, as the code has it. The ids are split into consecutive batches of
    1 to 50 ids whose concatenation is the list; a call that succeeds has
    made one bulk lookup per batch, in order, and nothing else.
    [get_artists_for_tracks] then returns, without repetition, the ids of
    the primary artists of the tracks found in the responses (a set, not
    the responses themselves); [get_artists_genres] returns a dictionary
    from artist id to genres, built from the responses in order, in which
    an id has the genres of its last occurrence in the responses. *)
Theorem batch_retrieval_collects_responses :
  (∀ ids : list string,
     concat (Py.batches 50 ids) = ids ∧
     Forall (λ batch, 0 < length batch ≤ 50) (Py.batches 50 ids)) ∧
  (∀ track_ids log log' out,
     get_artists_for_tracks track_ids log = (log', Ok out) →
     ∃ responses,
       length responses = length (Py.batches 50 track_ids) ∧
       log' = log ++ tracks_events (Py.batches 50 track_ids) responses ∧
       NoDup out ∧
       ∀ a, a ∈ out ↔ ∃ t, Some t ∈ concat responses ∧ primary_artist_id t = Some a) ∧
  (∀ artist_ids log log' out,
     get_artists_genres artist_ids log = (log', Ok out) →
     ∃ responses,
       length responses = length (Py.batches 50 artist_ids) ∧
       log' = log ++ artists_events (Py.batches 50 artist_ids) responses ∧
       out = foldl add_genres [] (concat responses) ∧
       NoDup (Py.keys out) ∧
       ∀ a, Py.get a out = last (genres_listed a (concat responses))).
Proof.
  split; [|split].
  - intros ids. split; [by apply concat_batches; lia | by apply batches_bounded; lia].
  - intros track_ids log log' out Hrun. unfold get_artists_for_tracks in Hrun.
    apply bind_Ok in Hrun as (X & log1 & Hloop & Hret).
    apply ret_Ok in Hret as [-> ->].
    apply tracks_loop_Ok in Hloop as (responses & Hlen & -> & ->).
    exists responses. split; [done|]. split; [done|]. split.
    + rewrite set_to_list_perm. apply NoDup_elements.
    + intros a. rewrite set_to_list_perm, elem_of_elements, add_first_artist_elem.
      split; [intros [Hin|?]; [|done]|by right].
      by apply not_elem_of_empty in Hin.
  - intros artist_ids log log' out Hrun. unfold get_artists_genres in Hrun.
    apply artists_loop_Ok in Hrun as (responses & Hlen & -> & ->).
    exists responses. split; [done|]. split; [done|]. split; [done|]. split.
    + apply add_genres_nodup. constructor.
    + intros a. rewrite add_genres_get. by destruct (last _).
Qed.

End BatchFacts.

(** C8 as claimed fails: asked for the genres of the ids "a", "a", the
    service answers with two items and the dictionary returned has one
    entry; asked for the artists of two tracks of the same artist, the
    list returned has one id. *)
Lemma batch_concatenation_counterexample :
  (∃ log' out responses,
     @get_artists_genres echo_catalog ["a"; "a"] [] = (log', Ok out) ∧
     log' = artists_events (Py.batches 50 ["a"; "a"]) responses ∧
     length (concat responses) = 2 ∧ length out = 1) ∧
  (∃ log' out responses,
     @get_artists_for_tracks CPython echo_catalog ["t1"; "t2"] [] = (log', Ok out) ∧
     log' = tracks_events (Py.batches 50 ["t1"; "t2"]) responses ∧
     length (concat responses) = 2 ∧ length out = 1).
Proof.
  split.
  - eexists _, _, [_]. split; [vm_compute; reflexivity|].
    split; [vm_compute; reflexivity|]. by vm_compute.
  - eexists _, _, [_]. split; [vm_compute; reflexivity|].
    split; [vm_compute; reflexivity|]. by vm_compute.
Qed.

(** ** C9: validation errors *)

Section ValidationFacts.
Context `{Python} `{Catalog}.

Lemma handle_call_tool_run inv log :
  handle_call_tool inv log =
  ((run_tool inv log).1,
   Ok match (run_tool inv log).2 with
      | Ok reply => reply
      | Raise (SpotifyException se) =>
          Text ("An error occurred with the Spotify Client: " +:+ se)
      | Raise (Exception e) => Text ("Unexpected error occurred: " +:+ e)
      end).
Proof.
  unfold handle_call_tool, bind, attempt, ret.
  destruct (run_tool inv log) as [log1 [reply|[se|e]]]; done.
Qed.

Lemma discover_rejects arguments log :
  invalid_seed arguments →
  ∃ res, discover arguments log = (log, res) ∧
    (res = Raise (Exception
       "'<' not supported between instances of 'int' and 'NoneType'")
     ∧ DiscoverArgs.limit arguments = Null
     ∨ res = Ok (inl (seed_message arguments))).
Proof.
  intros Hinv. unfold discover, seed_message, invalid_seed in *.
  destruct (DiscoverArgs.limit arguments) as [| |n] eqn:Hlimit; cbn [arg_get_default].
  2: { eexists. split; [reflexivity|]. by left. }
  all: rewrite bind_ret_run;
    destruct (arg_get (DiscoverArgs.seed_type arguments)) as [seed_type|];
    [|eexists; split; [reflexivity|by right]];
    (case_bool_decide as Hvalid; [|eexists; split; [reflexivity|by right]]);
    (destruct Hinv as [Hbad|[Hseed Hvalue]];
       [destruct Hbad; by apply list_elem_of_fmap_2|]);
    apply list_elem_of_fmap in Hseed as (y & [= <-] & Hy);
    rewrite bool_decide_eq_true_2 by done; rewrite Hvalue;
    eexists; split; [reflexivity|by right].
Qed.

Lemma my_top_music_rejects arguments log :
  invalid_time_range arguments →
  ∃ res, my_top_music arguments log = (log, res) ∧
    (res = Raise (Exception
       "int() argument must be a string, a bytes-like object or a real number, not 'NoneType'")
     ∧ TopMusicArgs.top_count arguments = Null
     ∨ res = Ok (inl ("Invalid time_range: "
              +:+ fmt (arg_get_default (TopMusicArgs.time_range arguments) "short_term")
              +:+ ". Must be 'short_term', 'medium_term', or 'long_term'."))).
Proof.
  intros Hinv. unfold my_top_music.
  assert ((arg_get_default (TopMusicArgs.time_range arguments) "short_term"
             ≫= λ tr, (λ label, (tr, label)) <$> Py.get tr period_labels) = None)
    as Hnone.
  { unfold invalid_time_range in Hinv.
    destruct (arg_get_default _ _) as [tr|]; [|done].
    unfold mbind, option_bind. cbv beta iota.
    destruct (Py.get tr period_labels) eqn:Hget; [|done].
    destruct Hinv. apply list_elem_of_fmap_2.
    apply get_Some_elem in Hget.
    apply (list_elem_of_fmap_2 fst) in Hget. exact Hget. }
  destruct (TopMusicArgs.top_count arguments) as [| |n] eqn:Hcount; cbn [arg_get_default].
  2: { eexists. split; [reflexivity|]. by left. }
  all: rewrite bind_ret_run, Hnone; eexists; split; [reflexivity|by right].
Qed.

Example unknown_seed_rejected :
  @handle_call_tool CPython example_catalog (Discover unknown_seed_args) []
  = ([], Ok (Text
      "Invalid seed_type: album. Must be 'artist', 'track', or 'listening_history'.")).
Proof. vm_compute. reflexivity. Qed.

Example unknown_range_rejected :
  @handle_call_tool CPython example_catalog (MyTopMusic unknown_range_args) []
  = ([], Ok (Text
      "Invalid time_range: last_week. Must be 'short_term', 'medium_term', or 'long_term'.")).
Proof. vm_compute. reflexivity. Qed.

(** C9. A Discover invocation whose seed_type is not one of artist, track,
    listening_history, or whose seed_value is missing (absent, null or
    empty) for an artist or a track seed, and a MyTopMusic invocation whose
    time_range is not one of short_term, medium_term, long_term, return one
    text message and leave the trace as it was: no call of the service is
    made. The message is the one of the validation, unless the numeric
    argument read before it ([limit], [top_count]) is null, in which case it
    is the message of that error. *)
Theorem validation_errors_make_no_calls :
  (∀ arguments log,
     invalid_seed arguments →
     ∃ text,
       handle_call_tool (Discover arguments) log = (log, Ok (Text text)) ∧
       (DiscoverArgs.limit arguments ≠ Null → text = seed_message arguments)) ∧
  (∀ arguments log,
     invalid_time_range arguments →
     ∃ text,
       handle_call_tool (MyTopMusic arguments) log = (log, Ok (Text text)) ∧
       (TopMusicArgs.top_count arguments ≠ Null →
        text = "Invalid time_range: "
          +:+ fmt (arg_get_default (TopMusicArgs.time_range arguments) "short_term")
          +:+ ". Must be 'short_term', 'medium_term', or 'long_term'.")).
Proof.
  split.
  - intros arguments log Hinv. rewrite handle_call_tool_run. simpl.
    destruct (discover_rejects arguments log Hinv) as (res & Hrun & Hres).
    unfold bind. rewrite Hrun. destruct Hres as [[-> Hnull]| ->]; simpl.
    + eexists. split; [done|]. congruence.
    + eexists. split; [done|]. done.
  - intros arguments log Hinv. rewrite handle_call_tool_run. simpl.
    destruct (my_top_music_rejects arguments log Hinv) as (res & Hrun & Hres).
    unfold bind. rewrite Hrun. destruct Hres as [[-> Hnull]| ->]; simpl.
    + eexists. split; [done|]. congruence.
    + eexists. split; [done|]. done.
Qed.

End ValidationFacts.

(** ** C10: PlaylistLibrarian and the playlists of other users *)

Example library_outcome_requests :
  request <$> library_outcome.1 =
  [GetAllPlaylists; CurrentUser; GetPlaylistTracks "p1"; SpTracks ["t1"; "t2"];
   SpArtists ["A1"]; ChangePlaylistDetails "p1" "🎸 Rock/Morning"].
Proof. vm_compute. reflexivity. Qed.

Lemma emits_ret {A} P (a : A) : emits P (ret a).
Proof. intros log log' res [= <- _]. exists []. by rewrite app_nil_r. Qed.

Lemma emits_raise {A} P e : emits P (@raise A e).
Proof. intros log log' res [= <- _]. exists []. by rewrite app_nil_r. Qed.

Lemma emits_call `{Catalog} (P : Req → Prop) r : P r → emits P (call r).
Proof.
  intros Hr log log' res [= <- _]. eexists [_]. split; [done|].
  by repeat constructor.
Qed.

Lemma emits_attempt {A} P (m : M A) : emits P m → emits P (attempt m).
Proof.
  intros Hm log log' res Hrun. unfold attempt in Hrun.
  destruct (m log) as [log1 r1] eqn:Hmlog. injection Hrun as <- _.
  by eapply Hm.
Qed.

Lemma emits_bind {A B} P (m : M A) (k : A → M B) :
  emits P m → (∀ a, emits P (k a)) → emits P (bind m k).
Proof.
  intros Hm Hk log log' res Hrun. unfold bind in Hrun.
  destruct (m log) as [log1 [a|e]] eqn:Hmlog.
  - apply Hm in Hmlog as (evs1 & -> & H1). apply Hk in Hrun as (evs2 & -> & H2).
    exists (evs1 ++ evs2). split; [by rewrite app_assoc|]. by apply Forall_app.
  - injection Hrun as <- _. by eapply Hm.
Qed.

Lemma emits_for_each {A S} P (xs : list A) (body : S → A → M S) s :
  (∀ s x, x ∈ xs → emits P (body s x)) → emits P (for_each xs body s).
Proof.
  revert s. induction xs as [|x xs IH]; intros s Hbody; simpl.
  - apply emits_ret.
  - apply emits_bind; [apply Hbody; left|].
    intros s1. apply IH. intros s2 y Hy. apply Hbody. by right.
Qed.

Lemma emits_mono {A} (P Q : Req → Prop) (m : M A) :
  (∀ r, P r → Q r) → emits P m → emits Q m.
Proof.
  intros HPQ Hm log log' res Hrun. apply Hm in Hrun as (evs & -> & Hall).
  exists evs. split; [done|]. eapply Forall_impl; [done|]. intros ev. apply HPQ.
Qed.

Section LibrarianFacts.
Context `{Python} `{Catalog}.

Lemma get_artists_for_tracks_emits track_ids :
  emits (λ r, playlist_touched r = None) (get_artists_for_tracks track_ids).
Proof.
  unfold get_artists_for_tracks. apply emits_bind; [|intros; apply emits_ret].
  apply emits_for_each. intros X batch _.
  apply emits_bind; [by apply (emits_call _ (SpTracks batch))|].
  intros. apply emits_ret.
Qed.

Lemma get_artists_genres_emits artist_ids :
  emits (λ r, playlist_touched r = None) (get_artists_genres artist_ids).
Proof.
  unfold get_artists_genres. apply emits_for_each. intros d batch _.
  apply emits_bind; [by apply (emits_call _ (SpArtists batch))|].
  intros. apply emits_ret.
Qed.

Lemma playlist_genres_emits track_ids :
  emits (λ r, playlist_touched r = None) (playlist_genres track_ids).
Proof.
  unfold playlist_genres. apply emits_bind.
  - apply emits_attempt, emits_bind; [apply get_artists_for_tracks_emits|].
    intros [|a l]; [apply emits_ret|].
    apply emits_bind; [apply get_artists_genres_emits|]. intros. apply emits_ret.
  - intros [x|e]; apply emits_ret.
Qed.

Lemma touches_only_untouched playlists r :
  playlist_touched r = None → touches_only playlists r.
Proof. intros Hr pid Hpid. congruence. Qed.

Lemma record_change_emits dry_run style playlist best_category st :
  emits (touches_only [playlist])
    (record_change dry_run style playlist best_category st).
Proof.
  unfold record_change. apply emits_bind.
  - unfold prefixed_name. case_bool_decide; [apply emits_ret|].
    destruct (_ !! 1); [apply emits_ret | apply emits_raise].
  - intros new_name. destruct dry_run; [apply emits_ret|].
    apply emits_bind.
    + apply emits_attempt,
        (emits_call _ (ChangePlaylistDetails (Playlist.id playlist) new_name)).
      intros pid [= <-]. exists playlist. split; [left|done].
    + intros [u|e]; apply emits_ret.
Qed.

Lemma librarian_step_emits dry_run style st playlist :
  emits (touches_only [playlist]) (librarian_step dry_run style st playlist).
Proof.
  unfold librarian_step. destruct (existsb _ _); [apply emits_ret|].
  apply emits_bind.
  - apply emits_attempt, (emits_call _ (GetPlaylistTracks (Playlist.id playlist))).
    intros pid [= <-]. exists playlist. split; [left|done].
  - intros [tracks|e]; [|apply emits_ret].
    destruct (take 30 tracks) as [|t0 ts]; [apply emits_ret|].
    destruct (sampled_ids (t0 :: ts)) as [|i0 ids]; [apply emits_ret|].
    apply emits_bind.
    + eapply emits_mono; [|apply playlist_genres_emits].
      intros r. apply touches_only_untouched.
    + intros [u|artist_genres]; [apply emits_ret|].
      destruct (classified _); [apply record_change_emits | apply emits_ret].
Qed.

(** Every playlist of the loop is either categorized or skipped, and a
    change records the playlist it is made for. *)
Lemma librarian_step_Ok dry_run style st playlist log log' st' :
  librarian_step dry_run style st playlist log = (log', Ok st') →
  length (st_changes st') + st_skipped st'
    = S (length (st_changes st) + st_skipped st) ∧
  ∀ c, c ∈ st_changes st' →
    c ∈ st_changes st
    ∨ (Change.playlist_id c = Playlist.id playlist
       ∧ Change.original_name c = Playlist.name playlist).
Proof.
  assert (∀ l (s : LibrarianState),
            ret (skip st) l = (log', Ok s) →
            length (st_changes s) + st_skipped s
              = S (length (st_changes st) + st_skipped st) ∧
            ∀ c, c ∈ st_changes s →
              c ∈ st_changes st
              ∨ (Change.playlist_id c = Playlist.id playlist
                 ∧ Change.original_name c = Playlist.name playlist)) as Hskip.
  { intros l s Hret. apply ret_Ok in Hret as [_ ->]. simpl. split; [lia|]. by left. }
  unfold librarian_step. destruct (existsb _ _); [apply Hskip|]. intros Hrun.
  apply bind_Ok in Hrun as ([tracks|e] & log1 & _ & Hrun); [|by eapply Hskip].
  destruct (take 30 tracks) as [|t0 ts]; [by eapply Hskip|].
  destruct (sampled_ids (t0 :: ts)) as [|i0 ids]; [by eapply Hskip|].
  apply bind_Ok in Hrun as ([u|artist_genres] & log2 & _ & Hrun); [by eapply Hskip|].
  destruct (classified _) as [best_category|]; [|by eapply Hskip].
  unfold record_change in Hrun.
  apply bind_Ok in Hrun as (new_name & log3 & _ & Hrun).
  assert (∀ applied l (s : LibrarianState),
            ret {| st_changes := st_changes st ++ [{|
                     Change.playlist_id := Playlist.id playlist;
                     Change.original_name := Playlist.name playlist;
                     Change.new_name := new_name;
                     Change.detected_category := best_category;
                     Change.applied := applied |}];
                   st_category_counts :=
                     Py.set best_category
                       (1 + default 0 (Py.get best_category (st_category_counts st)))
                       (st_category_counts st);
                   st_skipped := st_skipped st |} l = (log', Ok s) →
            length (st_changes s) + st_skipped s
              = S (length (st_changes st) + st_skipped st) ∧
            ∀ c, c ∈ st_changes s →
              c ∈ st_changes st
              ∨ (Change.playlist_id c = Playlist.id playlist
                 ∧ Change.original_name c = Playlist.name playlist)) as Hchange.
  { intros applied l s Hret. apply ret_Ok in Hret as [_ ->]. simpl. split.
    - rewrite length_app. simpl. lia.
    - intros c Hc. apply elem_of_app in Hc as [Hc|Hc]; [by left|].
      apply list_elem_of_singleton in Hc as ->. by right. }
  destruct dry_run; [by eapply Hchange|].
  apply bind_Ok in Hrun as ([u|e] & log4 & _ & Hrun); by eapply Hchange.
Qed.

Lemma librarian_loop_Ok dry_run style owned st log log' st' :
  for_each owned (librarian_step dry_run style) st log = (log', Ok st') →
  length (st_changes st') + st_skipped st'
    = length (st_changes st) + st_skipped st + length owned ∧
  ∀ c, c ∈ st_changes st' →
    c ∈ st_changes st
    ∨ ∃ p, p ∈ owned ∧ Change.playlist_id c = Playlist.id p
           ∧ Change.original_name c = Playlist.name p.
Proof.
  revert st log. induction owned as [|p owned IH]; intros st log Hrun; simpl in Hrun.
  - apply ret_Ok in Hrun as [_ ->]. split; [simpl; lia|]. by left.
  - apply bind_Ok in Hrun as (st1 & log1 & Hstep & Hrun).
    apply librarian_step_Ok in Hstep as [Hcount Hchanges].
    apply IH in Hrun as [Hcount' Hchanges']. split; [simpl; lia|].
    intros c Hc. destruct (Hchanges' c Hc) as [Hc1|(q & Hq & Hid)].
    + destruct (Hchanges c Hc1) as [?|Hid]; [by left|].
      right. exists p. split; [left|done].
    + right. exists q. split; [by right|done].
Qed.

Lemma librarian_loop_emits dry_run style owned st :
  emits (touches_only owned) (for_each owned (librarian_step dry_run style) st).
Proof.
  apply emits_for_each. intros s p Hp.
  eapply emits_mono; [|apply librarian_step_emits].
  intros r Hr pid Hpid. destruct (Hr pid Hpid) as (q & Hq & Hid).
  apply list_elem_of_singleton in Hq as ->. by exists p.
Qed.

Lemma bind_run {A B} (m : M A) (k : A → M B) log log' res :
  bind m k log = (log', res) →
  (∃ a log1, m log = (log1, Ok a) ∧ k a log1 = (log', res))
  ∨ (∃ e, m log = (log', Raise e) ∧ res = Raise e).
Proof.
  unfold bind. destruct (m log) as [log1 [a|e]]; [eauto|].
  intros [= <- <-]. eauto.
Qed.

Lemma playlist_librarian_run arguments log log' res :
  playlist_librarian arguments log = (log', res) →
  ∃ evs, log' = log ++ evs ∧
    ((Forall (λ ev, playlist_touched (request ev) = None) evs ∧ ∀ r, res ≠ Ok r)
     ∨ ∃ all_playlists user_id rest,
         evs = existT GetAllPlaylists (Ok all_playlists)
                 :: existT CurrentUser (Ok user_id) :: rest ∧
         Forall (λ ev, touches_only (owned_by user_id all_playlists) (request ev))
           rest ∧
         ∀ r, res = Ok r →
           LibrarianResult.playlists_analyzed r
             = length (owned_by user_id all_playlists) ∧
           LibrarianResult.playlists_categorized r
             + LibrarianResult.playlists_skipped r
             = length (owned_by user_id all_playlists) ∧
           ∀ c, c ∈ LibrarianResult.changes r →
             ∃ p, p ∈ owned_by user_id all_playlists ∧
                  Change.playlist_id c = Playlist.id p ∧
                  Change.original_name c = Playlist.name p).
Proof.
  unfold playlist_librarian. intros Hrun.
  apply bind_run in Hrun as [(all_playlists & log1 & Hcall1 & Hrun)|(e & Hcall1 & ->)].
  2: { unfold call in Hcall1. injection Hcall1 as <- Hans.
       eexists [_]. split; [done|]. left. split; [by repeat constructor|done]. }
  call_inv Hcall1. subst log1.
  apply bind_run in Hrun as [(user_id & log2 & Hcall2 & Hrun)|(e & Hcall2 & ->)].
  2: { unfold call in Hcall2. injection Hcall2 as <- Hans.
       eexists [_; _]. split; [by rewrite <- app_assoc|]. left.
       split; [by repeat constructor|done]. }
  call_inv Hcall2. subst log2.
  unfold owned_by.
  apply bind_run in Hrun as [(st & log3 & Hloop & Hrun)|(e & Hloop & ->)].
  - pose proof Hloop as Hemit.
    apply librarian_loop_emits in Hemit as (rest & -> & Hrest).
    apply librarian_loop_Ok in Hloop as [Hcount Hchanges].
    injection Hrun as <- <-.
    eexists (_ :: _ :: rest). split; [by rewrite <- !app_assoc|].
    right. eexists _, _, rest. split; [done|]. split; [done|].
    intros r [= <-]. cbn [LibrarianResult.playlists_analyzed
      LibrarianResult.playlists_categorized LibrarianResult.playlists_skipped
      LibrarianResult.changes].
    cbn [st_changes st_skipped length] in Hcount.
    split; [done|]. split; [rewrite Hcount; reflexivity|].
    intros c Hc. destruct (Hchanges c Hc) as [Hnil|?]; [|done].
    by apply elem_of_nil in Hnil.
  - apply librarian_loop_emits in Hloop as (rest & -> & Hrest).
    eexists (_ :: _ :: rest). split; [by rewrite <- !app_assoc|].
    right. eexists _, _, rest. split; [done|]. split; [done|]. done.
Qed.

(** C10. In every run of PlaylistLibrarian, whatever its outcome: the
    calls made after the list of playlists and the current user are known
    fetch the tracks of, or rename, only playlists of that list whose
    owner id is the user's (before that no playlist is touched); and when
    the run returns its report, the playlists analyzed are those playlists,
    each of them is either categorized or skipped, and every change
    reported is the change of one of them. *)
Theorem librarian_touches_owned_only arguments log log' res :
  handle_call_tool (PlaylistLibrarian arguments) log = (log', res) →
  ∃ evs, log' = log ++ evs ∧
    ((Forall (λ ev, playlist_touched (request ev) = None) evs
      ∧ ∀ r, res ≠ Ok (LibrarianJson r))
     ∨ ∃ all_playlists user_id rest,
         evs = existT GetAllPlaylists (Ok all_playlists)
                 :: existT CurrentUser (Ok user_id) :: rest ∧
         (∀ p, p ∈ owned_by user_id all_playlists ↔
               p ∈ all_playlists ∧ Playlist.owner_id p = user_id) ∧
         Forall (λ ev, touches_only (owned_by user_id all_playlists) (request ev))
           rest ∧
         ∀ r, res = Ok (LibrarianJson r) →
           LibrarianResult.playlists_analyzed r
             = length (owned_by user_id all_playlists) ∧
           LibrarianResult.playlists_categorized r
             + LibrarianResult.playlists_skipped r
             = length (owned_by user_id all_playlists) ∧
           ∀ c, c ∈ LibrarianResult.changes r →
             ∃ p, p ∈ owned_by user_id all_playlists ∧
                  Change.playlist_id c = Playlist.id p ∧
                  Change.original_name c = Playlist.name p).
Proof.
  rewrite handle_call_tool_run.
  destruct (run_tool (PlaylistLibrarian arguments) log) as [log1 res1] eqn:Hrun.
  cbn [fst snd]. intros [= -> Hres]. simpl in Hrun.
  apply bind_run in Hrun as [(r0 & log1 & Hlib & Hret)|(e & Hlib & ->)].
  - injection Hret as -> <-.
    apply playlist_librarian_run in Hlib
      as (evs & -> & [[Huntouched Hno]|(all & uid & rest & -> & Hrest & Hresult)]).
    + by destruct (Hno r0).
    + exists (existT GetAllPlaylists (Ok all) :: existT CurrentUser (Ok uid) :: rest).
      split; [done|]. right. exists all, uid, rest. split; [done|].
      split; [intros p; unfold owned_by; by rewrite list_elem_of_filter, (comm and)|].
      split; [done|]. subst res. intros r [= <-]. by apply Hresult.
  - apply playlist_librarian_run in Hlib
      as (evs & -> & [[Huntouched Hno]|(all & uid & rest & -> & Hrest & Hresult)]).
    + exists evs. split; [done|]. left. split; [done|].
      subst res. intros r. by destruct e.
    + exists (existT GetAllPlaylists (Ok all) :: existT CurrentUser (Ok uid) :: rest).
      split; [done|]. right. exists all, uid, rest. split; [done|].
      split; [intros p; unfold owned_by; by rewrite list_elem_of_filter, (comm and)|].
      split; [done|]. subst res. intros r. by destruct e.
Qed.

End LibrarianFacts.

Lemma librarian_touches_owned_only_witness :
  @handle_call_tool CPython library_catalog (PlaylistLibrarian library_args) []
    = (library_outcome.1, library_outcome.2)
  ∧ ∃ evs, library_outcome.1 = [] ++ evs.
Proof.
  split; [vm_compute; reflexivity|].
  destruct (@librarian_touches_owned_only CPython library_catalog library_args []
              library_outcome.1 library_outcome.2) as (evs & Hlog & _).
  - vm_compute. reflexivity.
  - by exists evs.
Defined.

(** * Further properties of the pipelines *)

(** ** Discover *)

Lemma NoDup_submseteq_r {A} (l1 l2 : list A) : l1 ⊆+ l2 → NoDup l2 → NoDup l1.
Proof.
  intros Hsub Hnd. apply submseteq_sublist_l in Hsub as (l' & Hsl & Hperm).
  eapply sublist_NoDup; [|done]. by rewrite Hperm.
Qed.

Lemma for_each_total {A S} (xs : list A) (body : S → A → M S) s log :
  (∀ s x log, ∃ log' s', body s x log = (log', Ok s')) →
  ∃ log' s', for_each xs body s log = (log', Ok s').
Proof.
  intros Hbody. revert s log. induction xs as [|x xs IH]; intros s log; simpl.
  - by eexists _, _.
  - destruct (Hbody s x log) as (log1 & s1 & Hx).
    destruct (IH s1 log1) as (log2 & s2 & Hrest).
    exists log2, s2. unfold bind. by rewrite Hx.
Qed.

Section DiscoverMore.
Context `{Python} `{Catalog}.

Lemma discover_Ok_result arguments log log' r :
  discover arguments log = (log', Ok (inr r)) →
  ∃ seed_type requested seed log1 log2 run,
    arg_get (DiscoverArgs.seed_type arguments) = Some seed_type ∧
    arg_get_default (DiscoverArgs.limit arguments) 30%Z = Some requested ∧
    resolve_seed seed_type (arg_get (DiscoverArgs.seed_value arguments)) log
      = (log1, Ok (inr seed)) ∧
    seed_genres seed ≠ [] ∧
    discover_pipeline seed_type seed
      (arg_get_default (DiscoverArgs.year_range arguments) "2015-2025")
      (Z.min requested 50) log1 = (log2, Ok run) ∧
    discover_result seed_type (arg_get (DiscoverArgs.seed_value arguments))
      (arg_get_default (DiscoverArgs.year_range arguments) "2015-2025")
      (truthy_arg (arg_get_default (DiscoverArgs.create_playlist arguments) false))
      seed (run_recommendations run) log2 = (log', Ok r).
Proof.
  unfold discover. intros Hrun.
  apply bind_Ok in Hrun as (limit & log0 & Hlimit & Hrun).
  destruct (arg_get_default (DiscoverArgs.limit arguments) 30%Z)
    as [requested|] eqn:Hreq; [|done].
  apply ret_Ok in Hlimit as [-> ->].
  destruct (arg_get (DiscoverArgs.seed_type arguments)) as [seed_type|];
    [|by apply ret_Ok in Hrun as [_ [=]]].
  case_bool_decide; [|by apply ret_Ok in Hrun as [_ [=]]].
  destruct (_ && _); [by apply ret_Ok in Hrun as [_ [=]]|].
  apply bind_Ok in Hrun as ([text|seed] & log1 & Hseed & Hrun);
    [by apply ret_Ok in Hrun as [_ [=]]|].
  destruct (seed_genres seed) as [|g gs] eqn:Hgenres;
    [by apply ret_Ok in Hrun as [_ [=]]|].
  simpl nonempty in Hrun. cbv iota in Hrun.
  apply bind_Ok in Hrun as (run & log2 & Hpipe & Hrun).
  apply bind_Ok in Hrun as (r' & log3 & Hres & Hrun).
  apply ret_Ok in Hrun as [-> [= ->]].
  exists seed_type, requested, seed, log1, log2, run.
  rewrite Hgenres. repeat split; done.
Qed.

Lemma discover_result_recommendations seed_type seed_value year_range flag seed
    recs log log' r :
  discover_result seed_type seed_value year_range flag seed recs log = (log', Ok r) →
  DiscoverResult.recommendations r = to_recommendation <$> recs ∧
  DiscoverResult.count r = length recs ∧
  DiscoverResult.seed_genres r = seed_genres seed.
Proof.
  unfold discover_result. intros Hres.
  apply bind_Ok in Hres as (pl & log4 & _ & Hres).
  by apply ret_Ok in Hres as [_ ->].
Qed.

Lemma distinct_ids_stage0 : distinct_ids stage0.
Proof.
  split; [constructor|]. intros c Hc. by apply elem_of_nil in Hc.
Qed.

Lemma distinct_ids_accept st c counts :
  distinct_ids st → Candidate.id c ∉ seen_track_ids st →
  distinct_ids {| recommendations := recommendations st ++ [c];
                  seen_track_ids := seen_track_ids st ∪ {[ Candidate.id c ]};
                  artist_track_counts := counts |}.
Proof.
  intros [Hnd Hseen] Hnew. split; simpl.
  - rewrite fmap_app. apply NoDup_app. split; [done|]. split.
    + intros i Hi Hi'. apply list_elem_of_singleton in Hi' as ->.
      apply list_elem_of_fmap in Hi as (c' & Hid & Hc'). apply Hnew.
      rewrite Hid. by apply Hseen.
    + apply NoDup_singleton.
  - intros c' Hc'. apply elem_of_union.
    apply elem_of_app in Hc' as [Hc'|Hc']; [left; by apply Hseen|].
    apply list_elem_of_singleton in Hc' as ->. right. by apply elem_of_singleton.
Qed.

Lemma genre_track_distinct exclude_ids genre st track :
  distinct_ids st → distinct_ids (genre_track exclude_ids genre st track).
Proof.
  intros Hst. unfold genre_track. case_bool_decide as Hseen; [done|].
  assert (TrackObj.id track ∉ seen_track_ids st) as Hnew by tauto.
  destruct (primary_artist_id track) as [a|].
  - destruct (_ && _); [done|]. by apply (distinct_ids_accept st).
  - by apply (distinct_ids_accept st).
Qed.

Lemma top_track_distinct exclude_ids artist st track :
  distinct_ids st → distinct_ids (top_track exclude_ids artist st track).
Proof.
  intros Hst. unfold top_track. case_bool_decide as Hseen; [done|].
  apply (distinct_ids_accept st); [done|]. simpl. tauto.
Qed.

(** X1. The recommendations a Discover invocation returns have pairwise
    distinct track ids: a track found by several genre searches, or by a
    search and among the top tracks of a similar artist, is recommended
    once. *)
Theorem discover_recommends_each_track_once arguments log log' r :
  handle_call_tool (Discover arguments) log = (log', Ok (DiscoverJson r)) →
  NoDup (Recommendation.id <$> DiscoverResult.recommendations r).
Proof.
  intros Hrun. apply handle_discover_Ok, discover_Ok in Hrun
    as (seed_type & requested & seed & log1 & log2 & run & _ & _ & _ & Hpipe & Hrecs).
  apply discover_pipeline_Ok in Hpipe
    as (log3 & log4 & st4 & Hex & H3 & H4 & Hcand & Hrank).
  assert (distinct_ids (run_genre_stage run)) as Hd3.
  { revert H3. apply genre_stage_inv; [|apply distinct_ids_stage0].
    intros. by apply genre_track_distinct. }
  assert (distinct_ids st4) as [Hnd _].
  { revert H4. apply augment_inv; [|done]. intros. by apply top_track_distinct. }
  rewrite Hrecs, <- list_fmap_compose, Hrank.
  change (Recommendation.id ∘ to_recommendation) with Candidate.id.
  eapply NoDup_submseteq_r; [|done].
  apply fmap_submseteq, rank_submseteq.
Qed.

Lemma at_most_more_refl st : at_most_more 0 st st.
Proof. exists []. by rewrite app_nil_r. Qed.

Lemma at_most_more_trans n m st1 st2 st3 :
  at_most_more n st1 st2 → at_most_more m st2 st3 → at_most_more (n + m) st1 st3.
Proof.
  intros (e1 & H1 & L1) (e2 & H2 & L2). exists (e1 ++ e2). split.
  - by rewrite H2, H1, app_assoc.
  - rewrite length_app. lia.
Qed.

Lemma at_most_more_mono n m st st' : n ≤ m → at_most_more n st st' → at_most_more m st st'.
Proof. intros Hnm (e & He & Hl). exists e. split; [done|lia]. Qed.

Lemma top_track_more exclude_ids artist st track :
  at_most_more 1 st (top_track exclude_ids artist st track).
Proof.
  unfold top_track. case_bool_decide.
  - apply (at_most_more_mono 0); [lia | apply at_most_more_refl].
  - by eexists [_].
Qed.

Lemma top_tracks_more exclude_ids artist tracks st :
  at_most_more (length tracks) st (foldl (top_track exclude_ids artist) st tracks).
Proof.
  revert st. induction tracks as [|t tracks IH]; intros st; simpl.
  - apply at_most_more_refl.
  - apply (at_most_more_trans 1 (length tracks) _ (top_track exclude_ids artist st t));
      [apply top_track_more | apply IH].
Qed.

Lemma bind_attempt_call {B} (r : Req) (k : result (resp r) → M B) log :
  bind (attempt (call r)) k log
  = k (answer log r) (log ++ [existT r (answer log r)]).
Proof. reflexivity. Qed.

Lemma genre_loop_total exclude_ids year_range genres st log :
  ∃ log' st', for_each genres (genre_search exclude_ids year_range) st log
              = (log', Ok st').
Proof.
  apply for_each_total. intros s genre l. unfold genre_search.
  rewrite bind_attempt_call.
  destruct (answer l (SearchByGenre genre year_range 20)); by eexists _, _.
Qed.

Lemma augment_total seed_type genres exclude_ids st log :
  ∃ log' st', augment seed_type genres exclude_ids st log = (log', Ok st').
Proof.
  unfold augment. case_bool_decide; [|by eexists _, _].
  rewrite bind_attempt_call.
  destruct (answer log (GetTopArtists "medium_term" 20)) as [artists|e];
    [|by eexists _, _].
  apply for_each_total. intros s artist l. unfold artist_top_tracks.
  rewrite bind_attempt_call.
  destruct (answer l (GetArtistTopTracks (Artist.id artist))); by eexists _, _.
Qed.

Lemma bind_step {A B} (m : M A) (k : A → M B) log log1 a :
  m log = (log1, Ok a) → bind m k log = k a log1.
Proof. unfold bind. by intros ->. Qed.

(** X2. Steps 2 to 5 of Discover never fail: whatever the service answers
    to the exclusion lookups, the genre searches and the top-artist
    lookups, the pipeline ends with a ranked list. When the lookup of the
    recent plays fails, nothing is excluded. *)
Theorem discover_pipeline_survives_failures seed_type seed year_range limit log :
  ∃ log' run,
    discover_pipeline seed_type seed year_range limit log = (log', Ok run) ∧
    (∀ e, answer log (GetRecentTrackIds 50) = Raise e → run_exclude_ids run = ∅).
Proof.
  destruct (exclusion_set_run log) as [log1 Hex].
  destruct (genre_loop_total
              match answer log (GetRecentTrackIds 50) with
              | Ok recent =>
                  match answer (log ++ [existT (GetRecentTrackIds 50) (Ok recent)])
                          (GetUserSavedTrackIds 100) with
                  | Ok saved => list_to_set recent ∪ list_to_set saved
                  | Raise _ => list_to_set recent
                  end
              | Raise _ => ∅
              end year_range (seed_genres seed) stage0 log1) as (log2 & st3 & H3).
  destruct (augment_total seed_type (seed_genres seed)
              match answer log (GetRecentTrackIds 50) with
              | Ok recent =>
                  match answer (log ++ [existT (GetRecentTrackIds 50) (Ok recent)])
                          (GetUserSavedTrackIds 100) with
                  | Ok saved => list_to_set recent ∪ list_to_set saved
                  | Raise _ => list_to_set recent
                  end
              | Raise _ => ∅
              end st3 log2) as (log3 & st4 & H4).
  eexists _, _. split.
  - unfold discover_pipeline. rewrite (bind_step _ _ _ _ _ Hex).
    fold stage0. rewrite (bind_step _ _ _ _ _ H3).
    rewrite (bind_step _ _ _ _ _ H4). reflexivity.
  - simpl. intros e He. by rewrite He.
Qed.

End DiscoverMore.

Lemma discover_recommends_each_track_once_witness :
  example_outcome
    = (example_outcome.1, Ok (DiscoverJson (discover_json example_outcome)))
  ∧ NoDup (Recommendation.id
             <$> DiscoverResult.recommendations (discover_json example_outcome)).
Proof.
  split; [vm_compute; reflexivity|].
  apply (@discover_recommends_each_track_once CPython example_catalog
           example_args [] example_outcome.1).
  vm_compute. reflexivity.
Defined.

(** ** What the tools never change *)

Ltac emits_step :=
  match goal with
  | |- read_only _ => unfold read_only
  | |- emits _ (ret _) => apply emits_ret
  | |- emits _ (raise _) => apply emits_raise
  | |- emits ?P (call ?r) => apply (emits_call P r); reflexivity
  | |- emits _ (attempt _) => apply emits_attempt
  | |- emits _ (bind _ _) => apply emits_bind
  | |- emits _ (for_each _ _ _) => apply emits_for_each; intros ? ? _
  | |- emits _ (match ?x with _ => _ end) => destruct x
  | |- ∀ _, _ => intro
  | |- emits _ _ => progress cbv zeta
  end.

Section ReadOnly.
Context `{Python} `{Catalog}.

Lemma handle_call_tool_emits P inv :
  emits P (run_tool inv) → emits P (handle_call_tool inv).
Proof. intros Hrun. unfold handle_call_tool. repeat emits_step. done. Qed.

Lemma resolve_seed_read_only seed_type seed_value :
  read_only (resolve_seed seed_type seed_value).
Proof. unfold resolve_seed. repeat emits_step. Qed.

Lemma discover_pipeline_read_only seed_type seed year_range limit :
  read_only (discover_pipeline seed_type seed year_range limit).
Proof.
  unfold discover_pipeline, exclusion_set, augment.
  repeat (emits_step || unfold genre_search, artist_top_tracks).
Qed.

Lemma discover_read_only arguments :
  truthy_arg (arg_get_default (DiscoverArgs.create_playlist arguments) false) = false →
  read_only (discover arguments).
Proof.
  intros Hflag. unfold discover. cbv zeta. rewrite Hflag.
  unfold read_only. apply emits_bind; [repeat emits_step|]. intros limit.
  destruct (arg_get _) as [seed_type|]; [|apply emits_ret].
  repeat (emits_step || apply resolve_seed_read_only
          || apply discover_pipeline_read_only
          || (unfold discover_result; cbn [andb])).
Qed.

(** X4. Discover leaves the account as it is unless a playlist is asked
    for: when [create_playlist] is absent, null or false, no call of the
    run creates a playlist, adds tracks to one or renames one, whatever the
    service answers and however the run ends. *)
Theorem discover_read_only_unless_asked arguments :
  truthy_arg (arg_get_default (DiscoverArgs.create_playlist arguments) false) = false →
  read_only (handle_call_tool (Discover arguments)).
Proof.
  intros Hflag. apply handle_call_tool_emits. simpl.
  apply emits_bind; [by apply discover_read_only|]. intros. apply emits_ret.
Qed.

Lemma rank_tracks_emits P tracks i total_duration_ms display :
  emits P (rank_tracks i tracks total_duration_ms display).
Proof.
  revert i total_duration_ms display.
  induction tracks as [|track tracks IH]; intros i d display; simpl.
  - apply emits_ret.
  - destruct (TrackObj.artists track); [apply emits_raise | apply IH].
Qed.

Lemma my_top_music_read_only arguments :
  truthy_arg (arg_get_default (TopMusicArgs.create_playlist arguments) false) = false →
  read_only (my_top_music arguments).
Proof.
  intros Hflag. unfold my_top_music. cbv zeta. rewrite Hflag. cbn [andb].
  repeat (emits_step || apply rank_tracks_emits || unfold bucket).
Qed.

(** X5. MyTopMusic leaves the account as it is unless a playlist is asked
    for: when [create_playlist] is absent, null or false, no call of the
    run creates a playlist, adds tracks to one or renames one. *)
Theorem my_top_music_read_only_unless_asked arguments :
  truthy_arg (arg_get_default (TopMusicArgs.create_playlist arguments) false) = false →
  read_only (handle_call_tool (MyTopMusic arguments)).
Proof.
  intros Hflag. apply handle_call_tool_emits. simpl.
  apply emits_bind; [by apply my_top_music_read_only|]. intros. apply emits_ret.
Qed.

End ReadOnly.

Lemma discover_read_only_unless_asked_witness :
  truthy_arg (arg_get_default (DiscoverArgs.create_playlist example_args) false) = false
  ∧ read_only (@handle_call_tool CPython example_catalog (Discover example_args)).
Proof.
  split; [reflexivity|].
  apply (@discover_read_only_unless_asked CPython example_catalog example_args).
  reflexivity.
Defined.

Lemma my_top_music_read_only_unless_asked_witness :
  truthy_arg
    (arg_get_default (TopMusicArgs.create_playlist default_top_music_args) false)
  = false
  ∧ read_only
      (@handle_call_tool CPython example_catalog (MyTopMusic default_top_music_args)).
Proof.
  split; [reflexivity|].
  apply (@my_top_music_read_only_unless_asked CPython example_catalog
           default_top_music_args).
  reflexivity.
Defined.

(** ** What the tools return *)

Lemma yields_ret {A} (Q : A → Prop) a : Q a → yields Q (ret a).
Proof. intros Ha log log' b Hret. by apply ret_Ok in Hret as [_ ->]. Qed.

Lemma yields_raise {A} (Q : A → Prop) e : yields Q (raise e).
Proof. intros log log' b. unfold raise. by intros [=]. Qed.

Lemma yields_bind {A B} (Q : B → Prop) (m : M A) (k : A → M B) :
  (∀ a, yields Q (k a)) → yields Q (bind m k).
Proof.
  intros Hk log log' b Hrun.
  apply bind_Ok in Hrun as (a & log1 & _ & Hrun). by eapply Hk.
Qed.

Lemma yields_bind_with {A B} (R : A → Prop) (Q : B → Prop) (m : M A) (k : A → M B) :
  yields R m → (∀ a, R a → yields Q (k a)) → yields Q (bind m k).
Proof.
  intros Hm Hk log log' b Hrun.
  apply bind_Ok in Hrun as (a & log1 & Ha & Hrun).
  eapply Hk; [|done]. by eapply Hm.
Qed.

Lemma yields_for_each {A S} (I : S → Prop) (xs : list A) (body : S → A → M S) s :
  (∀ s x, I s → yields I (body s x)) → I s → yields I (for_each xs body s).
Proof.
  intros Hbody Hs log log' s' Hrun. revert Hs Hrun. apply for_each_inv.
  intros s1 x l l' s2 _ Hs1 Hx. by eapply Hbody.
Qed.

Ltac yields_step :=
  match goal with
  | |- yields _ (ret _) => apply yields_ret
  | |- yields _ (raise _) => apply yields_raise
  | |- yields _ (bind _ _) => apply yields_bind
  | |- yields _ (match ?x with _ => _ end) => destruct x
  | |- ∀ _, _ => intro
  | |- yields _ _ => progress cbv zeta
  end.

Section DiscoverReply.
Context `{Python} `{Catalog}.

Lemma resolve_seed_genres seed_type seed_value :
  yields (λ s, match s with
               | inl _ => True
               | inr seed => length (seed_genres seed) ≤ 3
               end) (resolve_seed seed_type seed_value).
Proof.
  unfold resolve_seed.
  repeat yields_step; cbn [seed_genres length]; rewrite ?length_take; lia.
Qed.

(** X6. A Discover report names at least one and at most three seed
    genres, and its [count] is the number of recommendations it lists. *)
Theorem discover_reply_shape arguments log log' r :
  handle_call_tool (Discover arguments) log = (log', Ok (DiscoverJson r)) →
  1 ≤ length (DiscoverResult.seed_genres r) ≤ 3 ∧
  DiscoverResult.count r = length (DiscoverResult.recommendations r).
Proof.
  intros Hrun. apply handle_discover_Ok, discover_Ok_result in Hrun
    as (seed_type & requested & seed & log1 & log2 & run
        & _ & _ & Hseed & Hgenres & _ & Hres).
  apply resolve_seed_genres in Hseed.
  apply discover_result_recommendations in Hres as (-> & -> & ->).
  rewrite length_fmap. split; [|done].
  destruct (seed_genres seed); [done|]. simpl in *. lia.
Qed.

(** X7. Discover reports a playlist exactly when one was asked for and
    there is something to recommend. The playlist it reports is the one the
    service created in the next-to-last call of the run; the last call
    added to it the ids of the recommendations, in the order of the report,
    and the track count reported is their number. *)
Theorem discover_playlist_holds_recommendations arguments log log' r :
  handle_call_tool (Discover arguments) log = (log', Ok (DiscoverJson r)) →
  (DiscoverResult.playlist_created r = None ↔
     truthy_arg (arg_get_default (DiscoverArgs.create_playlist arguments) false)
       = false
     ∨ DiscoverResult.recommendations r = []) ∧
  ∀ info, DiscoverResult.playlist_created r = Some info →
    ∃ log0 playlist_name description playlist,
      log' = log0 ++
        [existT (CreatePlaylist playlist_name description) (Ok playlist);
         existT (AddTracksToPlaylist (Playlist.id playlist)
                   (Recommendation.id <$> DiscoverResult.recommendations r))
           (Ok ())] ∧
      info_id info = Playlist.id playlist ∧
      info_name info = Playlist.name playlist ∧
      info_track_count info = DiscoverResult.count r.
Proof.
  intros Hrun. apply handle_discover_Ok, discover_Ok_result in Hrun
    as (seed_type & requested & seed & log1 & log2 & run
        & _ & _ & _ & _ & _ & Hres).
  unfold discover_result in Hres.
  apply bind_Ok in Hres as (created & log3 & Hcreate & Hres).
  apply ret_Ok in Hres as [-> ->].
  cbn [DiscoverResult.playlist_created DiscoverResult.recommendations
       DiscoverResult.count].
  destruct (truthy_arg _) eqn:Hflag; cbn [andb] in Hcreate.
  - destruct (run_recommendations run) as [|c recs] eqn:Hrecs;
      cbn [nonempty] in Hcreate.
    + apply ret_Ok in Hcreate as [-> ->]. split; [by intuition|]. done.
    + apply bind_Ok in Hcreate as (playlist & log4 & Hcall1 & Hcreate).
      apply bind_Ok in Hcreate as ([] & log5 & Hcall2 & Hcreate).
      apply ret_Ok in Hcreate as [-> ->].
      call_inv Hcall1. call_inv Hcall2. subst log4 log5.
      split; [split; [done|by intros [?|?]]|].
      intros info [= <-]. eexists log2, _, _, playlist.
      rewrite <- list_fmap_compose.
      change (Recommendation.id ∘ to_recommendation) with Candidate.id.
      split; [by rewrite <- app_assoc|]. by rewrite length_fmap.
  - apply ret_Ok in Hcreate as [-> ->]. split; [by intuition|]. done.
Qed.

End DiscoverReply.

Lemma discover_reply_shape_witness :
  example_outcome
    = (example_outcome.1, Ok (DiscoverJson (discover_json example_outcome)))
  ∧ DiscoverResult.count (discover_json example_outcome)
    = length (DiscoverResult.recommendations (discover_json example_outcome)).
Proof.
  split; [vm_compute; reflexivity|].
  apply (@discover_reply_shape CPython example_catalog example_args []
           example_outcome.1).
  vm_compute. reflexivity.
Defined.

Lemma discover_playlist_holds_recommendations_witness :
  playlist_outcome
    = (playlist_outcome.1, Ok (DiscoverJson (discover_json playlist_outcome)))
  ∧ (info_track_count
       <$> DiscoverResult.playlist_created (discover_json playlist_outcome))
    = Some (DiscoverResult.count (discover_json playlist_outcome)).
Proof.
  split; [vm_compute; reflexivity|].
  destruct (@discover_playlist_holds_recommendations CPython playlist_catalog
              playlist_args [] playlist_outcome.1 (discover_json playlist_outcome))
    as [_ Hinfo]; [vm_compute; reflexivity|].
  destruct (DiscoverResult.playlist_created (discover_json playlist_outcome))
    as [info|] eqn:Hcreated; [|vm_compute in Hcreated; discriminate].
  destruct (Hinfo info eq_refl) as (? & ? & ? & ? & _ & _ & _ & Hcount).
  rewrite <- Hcount. reflexivity.
Defined.

(** ** PlaylistLibrarian *)

Lemma labels_second_word :
  Forall (λ e : string * list string, is_Some (split_ws e.1 !! 1)) GENRE_CATEGORIES.
Proof. repeat constructor; by eexists. Qed.

Lemma elem_of_labels c :
  c ∈ GENRE_CATEGORIES.*1 → ∃ keywords, (c, keywords) ∈ GENRE_CATEGORIES.
Proof.
  intros Hc. apply list_elem_of_fmap in Hc as ([c' keywords] & -> & Hc).
  by exists keywords.
Qed.

Section LibrarianMore.
Context `{Python} `{Catalog}.

Lemma classify_label_go all_genres taxonomy init c :
  (foldl (classify_step all_genres) init taxonomy).1 = Some c →
  init.1 = Some c ∨ c ∈ taxonomy.*1.
Proof.
  revert init. induction taxonomy as [|[category keywords] taxonomy IH];
    intros init; simpl; [by left|].
  intros Hc. apply IH in Hc as [Hc|Hc]; [|right; by right].
  destruct init as [best_category best_score]. simpl in Hc.
  destruct (_ <? _); simpl in Hc; [|by left].
  injection Hc as ->. right. left.
Qed.

Lemma classified_fst best c : classified best = Some c → best.1 = Some c.
Proof.
  destruct best as [[category|] score]; simpl; [|done].
  destruct (_ && _); [|done]. by intros [= ->].
Qed.

Lemma classified_label all_genres taxonomy c :
  classified (classify taxonomy all_genres) = Some c → c ∈ taxonomy.*1.
Proof.
  intros Hc. apply classified_fst, classify_label_go in Hc as [Hc|Hc]; done.
Qed.

Lemma prefixed_name_pure style best_category name log log' new_name :
  prefixed_name style best_category name log = (log', Ok new_name) →
  log' = log ∧ ∀ l, prefixed_name style best_category name l = (l, Ok new_name).
Proof.
  unfold prefixed_name. case_bool_decide.
  - intros Hret. by apply ret_Ok in Hret as [-> ->].
  - destruct (_ !! 1); [|done]. intros Hret. by apply ret_Ok in Hret as [-> ->].
Qed.

Lemma prefixed_name_total style best_category name log :
  best_category ∈ GENRE_CATEGORIES.*1 →
  ∃ new_name, prefixed_name style best_category name log = (log, Ok new_name).
Proof.
  intros Hc. unfold prefixed_name. case_bool_decide; [by eexists|].
  apply elem_of_labels in Hc as [keywords Hc].
  pose proof labels_second_word as Hwords.
  rewrite Forall_forall in Hwords. destruct (Hwords _ Hc) as [text_cat Hword].
  cbn [fst] in Hword. rewrite Hword. by eexists.
Qed.

Lemma librarian_step_run dry_run style st playlist log log' st' :
  librarian_step dry_run style st playlist log = (log', Ok st') →
  ∃ evs, log' = log ++ evs ∧
    (st' = skip st ∨
     ∃ c,
       st' = {| st_changes := st_changes st ++ [c];
                st_category_counts :=
                  Py.set (Change.detected_category c)
                    (1 + default 0 (Py.get (Change.detected_category c)
                                      (st_category_counts st)))
                    (st_category_counts st);
                st_skipped := st_skipped st |} ∧
       Change.playlist_id c = Playlist.id playlist ∧
       Change.original_name c = Playlist.name playlist ∧
       Change.detected_category c ∈ GENRE_CATEGORIES.*1 ∧
       already_categorized (Playlist.name playlist) = false ∧
       (∀ l, prefixed_name style (Change.detected_category c)
               (Playlist.name playlist) l = (l, Ok (Change.new_name c))) ∧
       (dry_run = true → Change.applied c = false) ∧
       (Change.applied c = true → renamed c ∈ evs)).
Proof.
  intros Hrun. pose proof Hrun as Hemit.
  apply librarian_step_emits in Hemit as (evs & -> & _).
  exists evs. split; [done|]. revert Hrun. unfold librarian_step.
  fold (already_categorized (Playlist.name playlist)).
  destruct (already_categorized _) eqn:Hcat.
  { intros Hret. apply ret_Ok in Hret as [_ ->]. by left. }
  rewrite bind_attempt_call.
  destruct (answer log (GetPlaylistTracks (Playlist.id playlist))) as [tracks|e].
  2: { intros Hret. apply ret_Ok in Hret as [_ ->]. by left. }
  destruct (take 30 tracks) as [|t0 ts].
  { intros Hret. apply ret_Ok in Hret as [_ ->]. by left. }
  destruct (sampled_ids (t0 :: ts)) as [|i0 ids].
  { intros Hret. apply ret_Ok in Hret as [_ ->]. by left. }
  intros Hrun.
  apply bind_Ok in Hrun as ([u|artist_genres] & log2 & Hgenres & Hrun).
  { apply ret_Ok in Hrun as [_ ->]. by left. }
  destruct (classified _) as [best_category|] eqn:Hbest.
  2: { apply ret_Ok in Hrun as [_ ->]. by left. }
  apply classified_label in Hbest. unfold record_change in Hrun.
  apply bind_Ok in Hrun as (new_name & log3 & Hname & Hrun).
  apply prefixed_name_pure in Hname as [-> Hname].
  destruct dry_run.
  { apply ret_Ok in Hrun as [_ ->]. right. eexists {| Change.applied := false |}.
    cbn [Change.playlist_id Change.original_name Change.new_name
         Change.detected_category Change.applied].
    repeat split; done. }
  rewrite bind_attempt_call in Hrun.
  destruct (answer log2 (ChangePlaylistDetails (Playlist.id playlist) new_name))
    as [[]|e] eqn:Hans.
  - apply ret_Ok in Hrun as [Hlog ->]. right. eexists {| Change.applied := true |}.
    cbn [Change.playlist_id Change.original_name Change.new_name
         Change.detected_category Change.applied].
    repeat split; try done. intros _.
    apply playlist_genres_emits in Hgenres as (evs2 & -> & _).
    rewrite <- !app_assoc in Hlog. apply app_inv_head in Hlog as ->.
    rewrite !elem_of_app. right. right. by apply list_elem_of_singleton.
  - apply ret_Ok in Hrun as [_ ->]. right. eexists {| Change.applied := false |}.
    cbn [Change.playlist_id Change.original_name Change.new_name
         Change.detected_category Change.applied].
    repeat split; done.
Qed.

End LibrarianMore.

Lemma labels_NoDup : NoDup GENRE_CATEGORIES.*1.
Proof. apply (bool_decide_unpack _). vm_compute. exact I. Qed.

Lemma get_filter {V} (P : string * V → Prop) `{∀ x, Decision (P x)} k v
    (d : Py.odict V) :
  NoDup (Py.keys d) →
  Py.get k (filter P d) = Some v ↔ Py.get k d = Some v ∧ P (k, v).
Proof.
  intros Hnd. split.
  - intros Hget. apply get_Some_elem, list_elem_of_filter in Hget as [HP Hin].
    split; [by apply elem_get_NoDup|done].
  - intros [Hget HP]. apply elem_get_NoDup.
    + eapply sublist_NoDup; [done|]. apply fmap_sublist, sublist_filter.
    + apply list_elem_of_filter. split; [done|]. by apply get_Some_elem.
Qed.

Section LibrarianReport.
Context `{Python} `{Catalog}.

Lemma librarian_loop_run dry_run style owned st log log' st' :
  for_each owned (librarian_step dry_run style) st log = (log', Ok st') →
  ∃ evs, log' = log ++ evs ∧
    ∀ c, c ∈ st_changes st' →
      c ∈ st_changes st ∨
      (Change.detected_category c ∈ GENRE_CATEGORIES.*1 ∧
       already_categorized (Change.original_name c) = false ∧
       (∀ l, prefixed_name style (Change.detected_category c)
               (Change.original_name c) l = (l, Ok (Change.new_name c))) ∧
       (dry_run = true → Change.applied c = false) ∧
       (Change.applied c = true → renamed c ∈ evs)).
Proof.
  revert st log. induction owned as [|p owned IH]; intros st log Hrun;
    simpl in Hrun.
  - apply ret_Ok in Hrun as [-> ->]. exists []. rewrite app_nil_r.
    split; [done|]. intros c Hc. by left.
  - apply bind_Ok in Hrun as (st1 & log1 & Hstep & Hrun).
    apply IH in Hrun as (evs2 & -> & Hrest).
    apply librarian_step_run in Hstep as (evs1 & -> & Hstep).
    exists (evs1 ++ evs2). split; [by rewrite app_assoc|].
    intros c Hc. destruct (Hrest c Hc) as [Hc1|(? & ? & ? & ? & Happlied)].
    + destruct Hstep as [->|(c1 & -> & Hid & Hname & Hlabel & Hcat & Hnew & Hdry
                             & Happlied)]; [by left|].
      cbn [st_changes] in Hc1. apply elem_of_app in Hc1 as [?|Hc1]; [by left|].
      apply list_elem_of_singleton in Hc1 as ->. right. rewrite Hname.
      repeat split; try done.
      intros Ha. apply elem_of_app. left. by apply Happlied.
    + right. repeat split; try done.
      intros Ha. apply elem_of_app. right. by apply Happlied.
Qed.

Lemma counted_step dry_run style st playlist log log' st' :
  librarian_step dry_run style st playlist log = (log', Ok st') →
  counted st → counted st'.
Proof.
  intros Hstep [Hkeys Hcounts].
  apply librarian_step_run in Hstep
    as (evs & _ & [->|(c & -> & _ & _ & Hlabel & _)]); [done|].
  split; cbn [st_category_counts st_changes].
  - rewrite keys_set_present; [done|]. by rewrite Hkeys.
  - intros label Hin. unfold detected_as. rewrite length_filter_snoc.
    destruct (decide (Change.detected_category c = label)) as [<-|Hne].
    + rewrite get_set_eq, (Hcounts _ Hlabel), default_Some.
      unfold detected_as. f_equal. lia.
    + rewrite get_set_ne, (Hcounts _ Hin); [|done].
      unfold detected_as. f_equal. lia.
Qed.

Lemma counted_initially :
  counted {| st_changes := [];
             st_category_counts :=
               (λ entry : string * list string, (entry.1, 0)) <$> GENRE_CATEGORIES;
             st_skipped := 0 |}.
Proof.
  split; cbn [st_category_counts st_changes]; [reflexivity|].
  intros label Hin. unfold detected_as. rewrite filter_nil. simpl length.
  apply elem_get_NoDup; [apply labels_NoDup|].
  apply list_elem_of_fmap in Hin as (entry & -> & Hin).
  apply list_elem_of_fmap. by exists entry.
Qed.

Lemma handle_librarian_Ok arguments log log' r :
  handle_call_tool (PlaylistLibrarian arguments) log = (log', Ok (LibrarianJson r)) →
  playlist_librarian arguments log = (log', Ok r).
Proof.
  rewrite handle_call_tool_run. simpl.
  unfold bind. destruct (playlist_librarian arguments log) as [log1 [r1|[se|e]]];
    simpl; intros [= -> Hr]; by simplify_eq.
Qed.

Lemma playlist_librarian_Ok arguments log log' r :
  playlist_librarian arguments log = (log', Ok r) →
  ∃ all_playlists user_id st,
    for_each (owned_by user_id all_playlists)
      (librarian_step
         (default false (arg_get_default (LibrarianArgs.dry_run arguments) true))
         (arg_get_default (LibrarianArgs.category_style arguments) "emoji"))
      {| st_changes := [];
         st_category_counts :=
           (λ entry : string * list string, (entry.1, 0)) <$> GENRE_CATEGORIES;
         st_skipped := 0 |}
      (log ++ [existT GetAllPlaylists (Ok all_playlists);
               existT CurrentUser (Ok user_id)])
    = (log', Ok st) ∧
    LibrarianResult.changes r = st_changes st ∧
    LibrarianResult.category_summary r
    = filter (λ kv : string * nat, 0 < kv.2) (st_category_counts st).
Proof.
  unfold playlist_librarian. intros Hrun.
  apply bind_Ok in Hrun as (all_playlists & log1 & Hcall1 & Hrun).
  call_inv Hcall1. subst log1.
  apply bind_Ok in Hrun as (user_id & log2 & Hcall2 & Hrun).
  call_inv Hcall2. subst log2.
  apply bind_Ok in Hrun as (st & log3 & Hloop & Hrun).
  apply ret_Ok in Hrun as [-> ->]. rewrite <- app_assoc in Hloop.
  by exists all_playlists, user_id, st.
Qed.

(** X8. A dry run of PlaylistLibrarian, which is what an invocation
    without [dry_run] is, changes nothing: no call of the run renames a
    playlist, creates one or adds tracks to one, and every change of the
    report is marked as not applied. *)
Theorem librarian_dry_run_changes_nothing arguments :
  default false (arg_get_default (LibrarianArgs.dry_run arguments) true) = true →
  read_only (handle_call_tool (PlaylistLibrarian arguments)) ∧
  ∀ log log' r,
    handle_call_tool (PlaylistLibrarian arguments) log
      = (log', Ok (LibrarianJson r)) →
    Forall (λ c, Change.applied c = false) (LibrarianResult.changes r).
Proof.
  intros Hdry. split.
  - apply handle_call_tool_emits. simpl.
    apply emits_bind; [|intros; apply emits_ret].
    unfold playlist_librarian. cbv zeta. rewrite Hdry.
    unfold librarian_step, playlist_genres, record_change, prefixed_name,
      get_artists_for_tracks, get_artists_genres.
    repeat first [emits_step | progress cbv beta iota zeta].
  - intros log log' r Hrun.
    apply handle_librarian_Ok, playlist_librarian_Ok in Hrun
      as (all_playlists & user_id & st & Hloop & -> & _).
    rewrite Hdry in Hloop.
    apply librarian_loop_run in Hloop as (evs & _ & Hchanges).
    apply Forall_forall. intros c Hc.
    destruct (Hchanges c Hc) as [Hnil|(_ & _ & _ & Happlied & _)];
      [by apply elem_of_nil in Hnil | by apply Happlied].
Qed.

(** X9. PlaylistLibrarian marks a change as applied only when the
    client's rename returned without an exception: the calls of the run
    then include the rename of that playlist to the new name of the report,
    answered without an error. *)
Theorem librarian_applied_means_renamed arguments log log' r :
  handle_call_tool (PlaylistLibrarian arguments) log
    = (log', Ok (LibrarianJson r)) →
  ∃ evs, log' = log ++ evs ∧
    ∀ c, c ∈ LibrarianResult.changes r → Change.applied c = true →
      renamed c ∈ evs.
Proof.
  intros Hrun. apply handle_librarian_Ok, playlist_librarian_Ok in Hrun
    as (all_playlists & user_id & st & Hloop & -> & _).
  apply librarian_loop_run in Hloop as (evs & -> & Hchanges).
  eexists (_ :: _ :: evs). split; [by rewrite <- app_assoc|].
  intros c Hc Ha.
  destruct (Hchanges c Hc) as [Hnil|(_ & _ & _ & _ & Happlied)];
    [by apply elem_of_nil in Hnil|].
  right. right. by apply Happlied.
Qed.

Lemma librarian_change_name arguments log log' r c :
  handle_call_tool (PlaylistLibrarian arguments) log
    = (log', Ok (LibrarianJson r)) →
  c ∈ LibrarianResult.changes r →
  Change.detected_category c ∈ GENRE_CATEGORIES.*1 ∧
  already_categorized (Change.original_name c) = false ∧
  if bool_decide
       (arg_get_default (LibrarianArgs.category_style arguments) "emoji"
        = Some "emoji")
  then Change.new_name c
       = Change.detected_category c +:+ "/" +:+ Change.original_name c
  else ∃ word, split_ws (Change.detected_category c) !! 1 = Some word ∧
         Change.new_name c = "[" +:+ word +:+ "] " +:+ Change.original_name c.
Proof.
  intros Hrun Hc. apply handle_librarian_Ok, playlist_librarian_Ok in Hrun
    as (all_playlists & user_id & st & Hloop & Hch & _).
  rewrite Hch in Hc.
  apply librarian_loop_run in Hloop as (evs & _ & Hchanges).
  destruct (Hchanges c Hc) as [Hnil|(Hlabel & Hcat & Hname & _)];
    [by apply elem_of_nil in Hnil|].
  split; [done|]. split; [done|].
  specialize (Hname []). unfold prefixed_name in Hname.
  case_bool_decide.
  - by apply ret_Ok in Hname as [_ <-].
  - destruct (_ !! 1) as [word|]; [|done].
    apply ret_Ok in Hname as [_ Hname]. by exists word.
Qed.

(** X10. Every change of a PlaylistLibrarian report is filed under a label
    of the category table, and its new name is built from that label and
    the original name: [label/name] with the emoji style, which is the
    default, and otherwise [[word] name], the word being the second word
    of the label. *)
Theorem librarian_new_names arguments log log' r c :
  handle_call_tool (PlaylistLibrarian arguments) log
    = (log', Ok (LibrarianJson r)) →
  c ∈ LibrarianResult.changes r →
  Change.detected_category c ∈ GENRE_CATEGORIES.*1 ∧
  if bool_decide
       (arg_get_default (LibrarianArgs.category_style arguments) "emoji"
        = Some "emoji")
  then Change.new_name c
       = Change.detected_category c +:+ "/" +:+ Change.original_name c
  else ∃ word, split_ws (Change.detected_category c) !! 1 = Some word ∧
         Change.new_name c = "[" +:+ word +:+ "] " +:+ Change.original_name c.
Proof.
  intros Hrun Hc.
  destruct (librarian_change_name arguments log log' r c Hrun Hc)
    as (Hlabel & _ & Hname). by split.
Qed.

Lemma librarian_step_skips dry_run style st playlist log :
  already_categorized (Playlist.name playlist) = true →
  librarian_step dry_run style st playlist log = (log, Ok (skip st)).
Proof.
  intros Hcat. unfold librarian_step.
  fold (already_categorized (Playlist.name playlist)). by rewrite Hcat.
Qed.

(** X11. PlaylistLibrarian proposes changes only for playlists whose name
    does not already start with a label of the table. With the emoji style
    the new name does start with one, so that a later run passes over the
    renamed playlist without a call; with another style the new name starts
    with a bracket and is not recognized as categorized. *)
Theorem librarian_recognizes_emoji_names arguments log log' r c :
  handle_call_tool (PlaylistLibrarian arguments) log
    = (log', Ok (LibrarianJson r)) →
  c ∈ LibrarianResult.changes r →
  already_categorized (Change.original_name c) = false ∧
  if bool_decide
       (arg_get_default (LibrarianArgs.category_style arguments) "emoji"
        = Some "emoji")
  then ∀ dry_run style st playlist later,
         Playlist.name playlist = Change.new_name c →
         librarian_step dry_run style st playlist later = (later, Ok (skip st))
  else already_categorized (Change.new_name c) = false.
Proof.
  intros Hrun Hc.
  destruct (librarian_change_name arguments log log' r c Hrun Hc)
    as (Hlabel & Hcat & Hname).
  split; [done|]. case_bool_decide.
  - intros dry_run style st0 playlist later Hp. apply librarian_step_skips.
    rewrite Hp, Hname. apply elem_of_labels in Hlabel as [keywords Hlabel].
    apply existsb_exists. exists (Change.detected_category c, keywords).
    split; [by apply list_elem_of_In|]. apply startswith_spec. by eexists.
  - destruct Hname as (word & _ & ->). reflexivity.
Qed.

(** X12. The category summary of a PlaylistLibrarian report has one entry
    for each label of the table under which at least one change is filed,
    and the entry is the number of those changes. *)
Theorem librarian_summary_counts_changes arguments log log' r label n :
  handle_call_tool (PlaylistLibrarian arguments) log
    = (log', Ok (LibrarianJson r)) →
  Py.get label (LibrarianResult.category_summary r) = Some n ↔
  label ∈ GENRE_CATEGORIES.*1 ∧ 0 < n ∧
  n = detected_as label (LibrarianResult.changes r).
Proof.
  intros Hrun. apply handle_librarian_Ok, playlist_librarian_Ok in Hrun
    as (all_playlists & user_id & st & Hloop & -> & ->).
  assert (counted st) as [Hkeys Hcounts].
  { revert Hloop. apply for_each_inv; [|apply counted_initially].
    intros s p l l' s' _ Hs Hstep. by eapply counted_step. }
  rewrite get_filter; [|rewrite Hkeys; apply labels_NoDup]. cbn [snd]. split.
  - intros [Hget Hpos].
    assert (label ∈ GENRE_CATEGORIES.*1) as Hin.
    { rewrite <- Hkeys. apply get_Some_elem in Hget.
      apply list_elem_of_fmap. by exists (label, n). }
    rewrite (Hcounts _ Hin) in Hget. injection Hget as <-. done.
  - intros (Hin & Hpos & ->). by rewrite (Hcounts _ Hin).
Qed.

Lemma playlist_genres_total track_ids log :
  ∃ log' g, playlist_genres track_ids log = (log', Ok g).
Proof.
  unfold playlist_genres.
  match goal with |- context [attempt ?m] => set (fetch := m) end.
  unfold bind, attempt. destruct (fetch log) as [log1 [x|e]]; by eexists _, _.
Qed.

Lemma librarian_step_total dry_run style st playlist log :
  ∃ log' st', librarian_step dry_run style st playlist log = (log', Ok st').
Proof.
  unfold librarian_step. destruct (existsb _ _); [by eexists _, _|].
  rewrite bind_attempt_call.
  destruct (answer log _) as [tracks|e]; [|by eexists _, _].
  destruct (take 30 tracks) as [|t0 ts]; [by eexists _, _|].
  destruct (sampled_ids (t0 :: ts)) as [|i0 ids]; [by eexists _, _|].
  destruct (playlist_genres_total (i0 :: ids)
              (log ++ [existT (GetPlaylistTracks (Playlist.id playlist))
                         (Ok tracks)])) as (log2 & g & Hgenres).
  rewrite (bind_step _ _ _ _ _ Hgenres).
  destruct g as [u|artist_genres]; [by eexists _, _|].
  destruct (classified _) as [best_category|] eqn:Hbest; [|by eexists _, _].
  apply classified_label in Hbest. unfold record_change.
  destruct (prefixed_name_total style best_category (Playlist.name playlist)
              log2 Hbest) as [new_name Hname].
  rewrite (bind_step _ _ _ _ _ Hname).
  destruct dry_run; [by eexists _, _|]. rewrite bind_attempt_call.
  destruct (answer log2 _); by eexists _, _.
Qed.

(** X13. Once the list of playlists and the current user are known,
    PlaylistLibrarian returns its report whatever the client answers
    afterwards: no failure while the tracks, artists or genres of a
    playlist are fetched, or while a playlist is renamed, ends the run. *)
Theorem librarian_reports_despite_failures arguments log all_playlists user_id :
  answer log GetAllPlaylists = Ok all_playlists →
  answer (log ++ [existT GetAllPlaylists (Ok all_playlists)]) CurrentUser
    = Ok user_id →
  ∃ log' r, handle_call_tool (PlaylistLibrarian arguments) log
            = (log', Ok (LibrarianJson r)).
Proof.
  intros Hall Huser.
  destruct (for_each_total
              (filter (λ p, Playlist.owner_id p = user_id) all_playlists)
              (librarian_step
                 (default false
                    (arg_get_default (LibrarianArgs.dry_run arguments) true))
                 (arg_get_default (LibrarianArgs.category_style arguments)
                    "emoji"))
              {| st_changes := [];
                 st_category_counts :=
                   (λ entry : string * list string, (entry.1, 0))
                   <$> GENRE_CATEGORIES;
                 st_skipped := 0 |}
              ((log ++ [existT GetAllPlaylists (Ok all_playlists)])
                 ++ [existT CurrentUser (Ok user_id)]))
    as (log3 & st & Hloop).
  { intros. apply librarian_step_total. }
  assert (∃ r, playlist_librarian arguments log = (log3, Ok r)) as [r Hlib].
  { unfold playlist_librarian. cbv zeta.
    erewrite bind_step; [|unfold call; rewrite Hall; reflexivity].
    erewrite bind_step; [|unfold call; rewrite Huser; reflexivity].
    erewrite bind_step; [|exact Hloop]. by eexists. }
  exists log3, r. rewrite handle_call_tool_run. simpl run_tool.
  unfold bind. rewrite Hlib. reflexivity.
Qed.

End LibrarianReport.

Lemma librarian_dry_run_changes_nothing_witness :
  default false (arg_get_default (LibrarianArgs.dry_run default_library_args) true)
  = true
  ∧ Forall (λ c, Change.applied c = false)
      (LibrarianResult.changes (librarian_json dry_outcome)).
Proof.
  split; [reflexivity|].
  destruct (@librarian_dry_run_changes_nothing CPython library_catalog
              default_library_args eq_refl) as [_ Hunapplied].
  apply (Hunapplied [] dry_outcome.1). vm_compute. reflexivity.
Defined.

Lemma librarian_applied_means_renamed_witness :
  library_outcome
    = (library_outcome.1, Ok (LibrarianJson (librarian_json library_outcome)))
  ∧ ∃ evs, library_outcome.1 = [] ++ evs ∧
      ∀ c, c ∈ LibrarianResult.changes (librarian_json library_outcome) →
        Change.applied c = true → renamed c ∈ evs.
Proof.
  split; [vm_compute; reflexivity|].
  apply (@librarian_applied_means_renamed CPython library_catalog library_args).
  vm_compute. reflexivity.
Defined.

Lemma librarian_new_names_witness :
  text_style_outcome
    = (text_style_outcome.1, Ok (LibrarianJson (librarian_json text_style_outcome)))
  ∧ first_change text_style_outcome
    ∈ LibrarianResult.changes (librarian_json text_style_outcome)
  ∧ Change.detected_category (first_change text_style_outcome)
    ∈ GENRE_CATEGORIES.*1.
Proof.
  split; [vm_compute; reflexivity|]. split; [vm_compute; left|].
  apply (@librarian_new_names CPython library_catalog text_style_args []
           text_style_outcome.1 (librarian_json text_style_outcome)).
  - vm_compute. reflexivity.
  - vm_compute. left.
Defined.

Lemma librarian_recognizes_emoji_names_witness :
  library_outcome
    = (library_outcome.1, Ok (LibrarianJson (librarian_json library_outcome)))
  ∧ first_change library_outcome
    ∈ LibrarianResult.changes (librarian_json library_outcome)
  ∧ already_categorized (Change.original_name (first_change library_outcome))
    = false.
Proof.
  split; [vm_compute; reflexivity|]. split; [vm_compute; left|].
  apply (@librarian_recognizes_emoji_names CPython library_catalog library_args []
           library_outcome.1 (librarian_json library_outcome)).
  - vm_compute. reflexivity.
  - vm_compute. left.
Defined.

Lemma librarian_summary_counts_changes_witness :
  library_outcome
    = (library_outcome.1, Ok (LibrarianJson (librarian_json library_outcome)))
  ∧ (Py.get "🎸 Rock"
       (LibrarianResult.category_summary (librarian_json library_outcome))
     = Some 1 ↔
     "🎸 Rock" ∈ GENRE_CATEGORIES.*1 ∧ 0 < 1 ∧
     1 = detected_as "🎸 Rock"
           (LibrarianResult.changes (librarian_json library_outcome))).
Proof.
  split; [vm_compute; reflexivity|].
  apply (@librarian_summary_counts_changes CPython library_catalog library_args []
           library_outcome.1).
  vm_compute. reflexivity.
Defined.

Lemma librarian_reports_despite_failures_witness :
  ∃ log' r, @handle_call_tool CPython library_catalog
              (PlaylistLibrarian library_args) []
            = (log', Ok (LibrarianJson r)).
Proof.
  eapply (@librarian_reports_despite_failures CPython library_catalog
            library_args []); reflexivity.
Defined.

(** ** Selections from a sorted list *)

Lemma StronglySorted_app_elem {A} (R : A → A → Prop) l1 l2 x y :
  StronglySorted R (l1 ++ l2) → x ∈ l1 → y ∈ l2 → R x y.
Proof.
  induction l1 as [|a l1 IH]; simpl; intros Hs Hx Hy.
  - by apply elem_of_nil in Hx.
  - apply StronglySorted_inv in Hs as [Hs Hall].
    apply elem_of_cons in Hx as [->|Hx]; [|by apply IH].
    rewrite Forall_forall in Hall. apply Hall, elem_of_app. by right.
Qed.

Section FirstOfSorted.
Context {A K : Type} (kle : K → K → bool) (key : A → K).
Hypothesis kle_total : ∀ a b, kle a b = true ∨ kle b a = true.
Hypothesis kle_trans : ∀ a b c, kle a b = true → kle b c = true → kle a c = true.

Lemma take_sort_by_first n l t s :
  t ∈ take n (Py.sort_by kle key l) → s ∈ l →
  s ∉ take n (Py.sort_by kle key l) →
  kle (key t) (key s) = true.
Proof.
  intros Ht Hs Hns.
  assert (StronglySorted (in_order kle key) (Py.sort_by kle key l)) as Hsorted.
  { apply Sorted_StronglySorted; [|by apply sort_by_sorted].
    intros a b c. unfold in_order. apply kle_trans. }
  rewrite <- (take_drop n (Py.sort_by kle key l)) in Hsorted.
  eapply (StronglySorted_app_elem _ _ _ t s) in Hsorted; [done..|].
  rewrite <- (sort_by_perm kle key l) in Hs.
  rewrite <- (take_drop n (Py.sort_by kle key l)) in Hs.
  apply elem_of_app in Hs as [?|?]; done.
Qed.

Lemma take_sort_by_sorted n l :
  Sorted (in_order kle key) (take n (Py.sort_by kle key l)).
Proof. by apply Sorted_take, sort_by_sorted. Qed.

Lemma take_sort_by_submseteq n l : take n (Py.sort_by kle key l) ⊆+ l.
Proof.
  etrans; [apply sublist_submseteq, sublist_take|].
  apply Permutation_submseteq, sort_by_perm.
Qed.

End FirstOfSorted.

Lemma Zgeb_total (a b : Z) : (b <=? a)%Z = true ∨ (a <=? b)%Z = true.
Proof. lia. Qed.

(** X14. 'Best of' holds the most popular of the deduplicated tracks: 20 of
    them, or all when there are fewer, each taken from the deduplicated
    tracks, in descending order of popularity; no track left out is more
    popular than a track taken. *)
Theorem best_of_most_popular (unique_tracks : list Track.t) :
  length (best_of unique_tracks) = 20 `min` length unique_tracks ∧
  best_of unique_tracks ⊆+ unique_tracks ∧
  Sorted (in_order (λ a b, (b <=? a)%Z) Track.popularity) (best_of unique_tracks) ∧
  ∀ t s, t ∈ best_of unique_tracks → s ∈ unique_tracks →
    s ∉ best_of unique_tracks →
    (Track.popularity s ≤ Track.popularity t)%Z.
Proof.
  unfold best_of, Py.sorted_reverse. split; [|split; [|split]].
  - rewrite length_take. f_equal. apply Permutation_length, sort_by_perm.
  - apply take_sort_by_submseteq.
  - apply take_sort_by_sorted, Zgeb_total.
  - intros t s Ht Hs Hns. apply Z.leb_le.
    apply (take_sort_by_first (λ a b, (b <=? a)%Z) Track.popularity
             Zgeb_total) with 20 unique_tracks; [|done..].
    intros a b c. lia.
Qed.

(** X15. 'Deep Cuts' holds the least popular of the admissible tracks: at
    most 25 deduplicated tracks, each from an album proper, less popular
    than the threshold and not in 'Best of', in ascending order of
    popularity; no admissible track left out is less popular than a track
    taken. *)
Theorem deep_cuts_least_popular deep_cuts_threshold best_of_ids
    (unique_tracks : list Track.t) :
  let deep_cuts := deep_cuts_of deep_cuts_threshold best_of_ids unique_tracks in
  length deep_cuts ≤ 25 ∧
  deep_cuts ⊆+ unique_tracks ∧
  (∀ t, t ∈ deep_cuts → deep_cut deep_cuts_threshold best_of_ids t) ∧
  Sorted (in_order Z.leb Track.popularity) deep_cuts ∧
  ∀ t s, t ∈ deep_cuts → s ∈ unique_tracks →
    deep_cut deep_cuts_threshold best_of_ids s → s ∉ deep_cuts →
    (Track.popularity t ≤ Track.popularity s)%Z.
Proof.
  cbv zeta. unfold deep_cuts_of, Py.sorted.
  fold (deep_cut deep_cuts_threshold best_of_ids).
  split; [|split; [|split; [|split]]].
  - rewrite length_take. lia.
  - etrans; [apply take_sort_by_submseteq|].
    apply sublist_submseteq, sublist_filter.
  - intros t Ht.
    eapply elem_of_submseteq in Ht; [|apply take_sort_by_submseteq].
    by apply list_elem_of_filter in Ht as [? _].
  - apply take_sort_by_sorted, Zleb_total.
  - intros t s Ht Hs Hadm Hns. apply Z.leb_le.
    apply (take_sort_by_first Z.leb Track.popularity Zleb_total) with 25
      (filter (deep_cut deep_cuts_threshold best_of_ids) unique_tracks);
      [|done| |done].
    + intros a b c. lia.
    + by apply list_elem_of_filter.
Qed.

(** ** Counting loops *)

Lemma occurrences_snoc k ks k0 :
  occurrences k (ks ++ [k0])
  = occurrences k ks + (if decide (k0 = k) then 1 else 0).
Proof.
  unfold occurrences. rewrite filter_app, length_app. f_equal.
  rewrite filter_cons, filter_nil. by destruct (decide (k0 = k)).
Qed.

Lemma occurrences_pos k ks : 0 < occurrences k ks ↔ k ∈ ks.
Proof.
  unfold occurrences. split.
  - intros Hpos. destruct (filter _ ks) as [|x l] eqn:Hf; [simpl in Hpos; lia|].
    assert (x ∈ filter (λ x, x = k) ks) as Hx by (rewrite Hf; left).
    by apply list_elem_of_filter in Hx as [-> ?].
  - intros Hin.
    assert (k ∈ filter (λ x, x = k) ks) as Hk by by apply list_elem_of_filter.
    destruct (filter _ ks); [by apply elem_of_nil in Hk|simpl; lia].
Qed.

Lemma tally_snoc ks k : tally (ks ++ [k]) = count_up k (tally ks).
Proof. unfold tally. by rewrite foldl_app. Qed.

Lemma tally_spec ks :
  NoDup (Py.keys (tally ks)) ∧
  ∀ k n, Py.get k (tally ks) = Some n ↔ 0 < n ∧ n = occurrences k ks.
Proof.
  induction ks as [|k0 ks [Hnd IH]] using rev_ind.
  - split; [constructor|]. intros k n. simpl. split; [done|].
    unfold occurrences. rewrite filter_nil. simpl. lia.
  - rewrite tally_snoc. unfold count_up.
    split; [by apply nodup_keys_set|]. intros k n.
    rewrite occurrences_snoc. destruct (decide (k0 = k)) as [->|Hne].
    + rewrite get_set_eq. destruct (Py.get k (tally ks)) as [m|] eqn:Hget.
      * apply IH in Hget as [? ->]. rewrite default_Some.
        split; [intros [= <-]; lia | intros [_ ->]; f_equal; lia].
      * assert (occurrences k ks = 0) as ->.
        { destruct (occurrences k ks) as [|m] eqn:Hocc; [done|].
          assert (Py.get k (tally ks) = Some (S m)) as Hsome
            by (apply IH; lia). congruence. }
        simpl. split; [intros [= <-]; lia | intros [_ ->]; done].
    + rewrite get_set_ne by done. rewrite IH. split; intros [? ->]; (split; lia).
Qed.

Lemma count_up_sum k d :
  sum_list (Py.values (count_up k d)) = S (sum_list (Py.values d)).
Proof.
  unfold count_up. induction d as [|[k' v'] d IH]; simpl; [done|].
  destruct (decide (k = k')) as [->|Hne]; simpl; [lia|].
  rewrite IH. lia.
Qed.

Lemma tally_sum ks : sum_list (Py.values (tally ks)) = length ks.
Proof.
  induction ks as [|k ks IH] using rev_ind; [done|].
  rewrite tally_snoc, count_up_sum, IH, length_app. simpl. lia.
Qed.

Lemma elem_of_tally k n ks :
  (k, n) ∈ tally ks ↔ 0 < n ∧ n = occurrences k ks.
Proof.
  destruct (tally_spec ks) as [Hnd Hget]. rewrite <- Hget. split.
  - by apply elem_get_NoDup.
  - apply get_Some_elem.
Qed.

Lemma Zleb_trans (a b c : Z) :
  (a <=? b)%Z = true → (b <=? c)%Z = true → (a <=? c)%Z = true.
Proof. lia. Qed.

(** The [m] most frequent keys, as both tools select them. *)
Lemma most_frequent m ks :
  let top := take m (by_count_desc snd (tally ks)) in
  NoDup top.*1 ∧
  (∀ k n, (k, n) ∈ top → 0 < n ∧ n = occurrences k ks) ∧
  Sorted (in_order Z.leb (λ x : string * nat, (- Z.of_nat x.2)%Z)) top ∧
  ∀ k n k', (k, n) ∈ top → k' ∈ ks → k' ∉ top.*1 → occurrences k' ks ≤ n.
Proof.
  cbv zeta. unfold by_count_desc, Py.sorted.
  assert (∀ k n, (k, n) ∈ take m (Py.sort_by Z.leb
                     (λ x : string * nat, (- Z.of_nat x.2)%Z) (tally ks)) →
                 0 < n ∧ n = occurrences k ks) as Hin.
  { intros k n Hk. apply elem_of_tally.
    eapply elem_of_submseteq; [done|]. apply take_sort_by_submseteq. }
  split; [|split; [done|split]].
  - eapply NoDup_submseteq_r; [|apply (tally_spec ks)].
    apply fmap_submseteq, take_sort_by_submseteq.
  - apply take_sort_by_sorted, Zleb_total.
  - intros k n k' Hk Hk' Hnot.
    assert ((- Z.of_nat n <=? - Z.of_nat (occurrences k' ks))%Z = true); [|lia].
    apply (take_sort_by_first Z.leb (λ x : string * nat, (- Z.of_nat x.2)%Z)
             Zleb_total Zleb_trans m (tally ks) (k, n) (k', occurrences k' ks));
      [done| |].
    + apply elem_of_tally. split; [by apply occurrences_pos|done].
    + intros Hin'. apply Hnot. apply list_elem_of_fmap. by eexists (_, _).
Qed.

(** ** MyTopMusic *)

Lemma Sorted_weaken {A} (R R' : A → A → Prop) l :
  (∀ a b, R a b → R' a b) → Sorted R l → Sorted R' l.
Proof.
  intros HR. induction 1 as [|a l Hs IH Hhd]; constructor; [done|].
  destruct Hhd; constructor. by apply HR.
Qed.

(** Two tags of three under one word and one under another are 67 and 33
    per cent; a tie goes to the even integer. *)
Example percent_rounds :
  percent 2 3 = 67%Z ∧ percent 1 3 = 33%Z ∧ percent 1 8 = 12%Z
  ∧ percent 3 8 = 38%Z ∧ percent 0 1 = 0%Z.
Proof. vm_compute. by repeat split. Qed.

(** A no-break space (U+00A0) and an ideographic space (U+3000) separate
    words as a blank does. *)
Example split_ws_unicode :
  split_ws "dream pop" = ["dream"; "pop"]
  ∧ split_ws " indie  rock　x " = ["indie"; "rock"; "x"]
  ∧ split_ws " " = [].
Proof. vm_compute. by repeat split. Qed.

Section TopMusicReport.
Context `{Python} `{Catalog}.

Lemma rank_tracks_Ok tracks i total_duration_ms display log log' out :
  rank_tracks i tracks total_duration_ms display log = (log', Ok out) →
  log' = log ∧
  rt_id <$> out.2 = (rt_id <$> display) ++ (TrackObj.id <$> tracks) ∧
  rt_name <$> out.2 = (rt_name <$> display) ++ (TrackObj.name <$> tracks) ∧
  rt_rank <$> out.2 = (rt_rank <$> display) ++ seq (i + 1) (length tracks).
Proof.
  revert i total_duration_ms display.
  induction tracks as [|track tracks IH]; intros i d display; simpl.
  - intros Hret. apply ret_Ok in Hret as [-> ->]. simpl.
    by rewrite !app_nil_r.
  - destruct (TrackObj.artists track) as [|a artists]; [done|].
    intros Hrun. apply IH in Hrun as (-> & -> & -> & ->).
    rewrite !fmap_app, <- !app_assoc. simpl. done.
Qed.

Lemma rank_artists_names artists :
  ra_name <$> rank_artists artists = Artist.name <$> artists.
Proof.
  unfold rank_artists. rewrite fmap_imap.
  exact (imap_const Artist.name artists).
Qed.

Lemma rank_artists_ranks artists :
  ra_rank <$> rank_artists artists = seq 1 (length artists).
Proof.
  unfold rank_artists. rewrite fmap_imap.
  rewrite <- (fmap_S_seq 0), <- (imap_seq_0 artists S).
  apply imap_ext. intros i x _. simpl. lia.
Qed.

Lemma bucket_loop_Ok tags d log log' d' :
  for_each tags bucket d log = (log', Ok d') →
  log' = log ∧
  ∃ words, Forall2 simple_genre tags words ∧
           d' = foldl (λ d k, count_up k d) d words.
Proof.
  revert d log. induction tags as [|tag tags IH]; intros d log Hrun;
    simpl in Hrun.
  - apply ret_Ok in Hrun as [-> ->]. split; [done|]. by exists [].
  - apply bind_Ok in Hrun as (d1 & log1 & Hbucket & Hrun).
    apply IH in Hrun as (-> & words & Hwords & ->).
    unfold bucket in Hbucket. destruct (Py.truthy tag) eqn:Htag.
    + destruct (split_ws tag) as [|simple rest] eqn:Hsplit; [done|].
      apply ret_Ok in Hbucket as [-> ->]. split; [done|].
      exists (simple :: words). split; [|done]. constructor; [|done].
      unfold simple_genre. by rewrite Htag, Hsplit.
    + apply ret_Ok in Hbucket as [-> ->]. split; [done|].
      exists ("other" :: words). split; [|done]. constructor; [|done].
      unfold simple_genre. by rewrite Htag.
Qed.

Lemma handle_top_music_Ok arguments log log' r :
  handle_call_tool (MyTopMusic arguments) log = (log', Ok (TopMusicJson r)) →
  my_top_music arguments log = (log', Ok (inr r)).
Proof.
  rewrite handle_call_tool_run. simpl.
  unfold bind. destruct (my_top_music arguments log) as [log1 [[text|r1]|[se|e]]];
    simpl; intros [= -> Hr]; by simplify_eq.
Qed.

Lemma my_top_music_Ok arguments log log' r :
  my_top_music arguments log = (log', Ok (inr r)) →
  ∃ n top_tracks top_artists rest words,
    arg_get_default (TopMusicArgs.top_count arguments) 10%Z = Some n ∧
    log' = log ++
      existT (GetTopTracks (TopMusicResult.time_range r) 50) (Ok top_tracks)
      :: existT (GetTopArtists (TopMusicResult.time_range r) 50) (Ok top_artists)
      :: rest ∧
    rt_id <$> TopMusicResult.top_tracks r
      = TrackObj.id <$> Py.slice_to top_tracks (Z.min n 50) ∧
    rt_name <$> TopMusicResult.top_tracks r
      = TrackObj.name <$> Py.slice_to top_tracks (Z.min n 50) ∧
    rt_rank <$> TopMusicResult.top_tracks r
      = seq 1 (length (Py.slice_to top_tracks (Z.min n 50))) ∧
    TopMusicResult.top_artists r
      = rank_artists (Py.slice_to top_artists (Z.min n 50)) ∧
    TopMusicResult.top_tracks_analyzed r = length top_tracks ∧
    TopMusicResult.top_artists_analyzed r = length top_artists ∧
    Forall2 simple_genre
      (concat (Artist.genres <$> Py.slice_to top_artists (Z.min n 50))) words ∧
    TopMusicResult.genre_breakdown r
      = (λ gc, (gc.1, percent gc.2 (match length words with 0 => 1 | m => m end)))
          <$> take 5 (by_count_desc snd (tally words)) ∧
    ((TopMusicResult.recap_playlist r = None ∧ rest = [])
     ∨ ∃ playlist_name description playlist,
         rest = [existT (CreatePlaylist playlist_name description) (Ok playlist);
                 existT (AddTracksToPlaylist (Playlist.id playlist)
                           (rt_id <$> TopMusicResult.top_tracks r)) (Ok ())] ∧
         TopMusicResult.recap_playlist r
         = Some {| info_name := Playlist.name playlist;
                   info_id := Playlist.id playlist;
                   info_track_count := length (TopMusicResult.top_tracks r) |}).
Proof.
  unfold my_top_music. intros Hrun.
  apply bind_Ok in Hrun as (top_count & log0 & Hcount & Hrun).
  destruct (arg_get_default (TopMusicArgs.top_count arguments) 10%Z)
    as [n|] eqn:Hn; [|done].
  apply ret_Ok in Hcount as [-> ->].
  destruct (_ ≫= _) as [[time_range period_label]|];
    [|by apply ret_Ok in Hrun as [_ [=]]].
  apply bind_Ok in Hrun as (top_tracks & log1 & Hcall1 & Hrun).
  call_inv Hcall1. subst log1.
  apply bind_Ok in Hrun as (top_artists & log2 & Hcall2 & Hrun).
  call_inv Hcall2. subst log2.
  apply bind_Ok in Hrun as (ranked & log3 & Hrank & Hrun).
  apply rank_tracks_Ok in Hrank as (-> & Hid & Hname & Hranks).
  apply bind_Ok in Hrun as (genre_counts & log4 & Hbucket & Hrun).
  apply bucket_loop_Ok in Hbucket as (-> & words & Hwords & ->).
  apply bind_Ok in Hrun as (recap & log5 & Hrecap & Hrun).
  apply ret_Ok in Hrun as [-> [= ->]].
  cbn [TopMusicResult.time_range TopMusicResult.top_tracks
       TopMusicResult.top_artists TopMusicResult.top_tracks_analyzed
       TopMusicResult.top_artists_analyzed TopMusicResult.genre_breakdown
       TopMusicResult.recap_playlist].
  fold (tally words). rewrite tally_sum.
  assert (∃ rest, log5 = log ++
            existT (GetTopTracks time_range 50) (Ok top_tracks)
            :: existT (GetTopArtists time_range 50) (Ok top_artists) :: rest ∧
            ((recap = None ∧ rest = [])
             ∨ ∃ playlist_name description playlist,
                 rest = [existT (CreatePlaylist playlist_name description)
                           (Ok playlist);
                         existT (AddTracksToPlaylist (Playlist.id playlist)
                                   (rt_id <$> ranked.2)) (Ok ())] ∧
                 recap = Some {| info_name := Playlist.name playlist;
                                 info_id := Playlist.id playlist;
                                 info_track_count := length ranked.2 |}))
    as (rest & -> & Hrest).
  { destruct (_ && _).
    - apply bind_Ok in Hrecap as (playlist & log6 & Hcall3 & Hrecap).
      call_inv Hcall3. subst log6.
      apply bind_Ok in Hrecap as ([] & log7 & Hcall4 & Hrecap).
      call_inv Hcall4. subst log7.
      apply ret_Ok in Hrecap as [-> ->].
      eexists [_; _]. split; [by rewrite <- !app_assoc|]. right.
      eexists _, _, playlist. rewrite Hid. simpl. split; [done|].
      rewrite <- (length_fmap rt_id ranked.2), Hid. simpl. done.
    - apply ret_Ok in Hrecap as [-> ->]. exists [].
      split; [by rewrite <- !app_assoc|]. by left. }
  exists n, top_tracks, top_artists, rest, words.
  simpl in Hid, Hname, Hranks. repeat split; done.
Qed.

(** X16. MyTopMusic lists the first [top_count] (at most 50) of the top
    tracks and of the top artists that the service returned, in the order
    of the service and numbered from 1; the figures analyzed are the
    numbers of tracks and artists returned. A recap playlist, when it is
    reported, was created by the last but one call of the run and filled
    by the last with exactly the tracks listed, in their order. *)
Theorem top_music_lists_first_in_order arguments log log' r :
  handle_call_tool (MyTopMusic arguments) log = (log', Ok (TopMusicJson r)) →
  ∃ n top_tracks top_artists rest,
    arg_get_default (TopMusicArgs.top_count arguments) 10%Z = Some n ∧
    log' = log ++
      existT (GetTopTracks (TopMusicResult.time_range r) 50) (Ok top_tracks)
      :: existT (GetTopArtists (TopMusicResult.time_range r) 50) (Ok top_artists)
      :: rest ∧
    rt_id <$> TopMusicResult.top_tracks r
      = TrackObj.id <$> Py.slice_to top_tracks (Z.min n 50) ∧
    rt_name <$> TopMusicResult.top_tracks r
      = TrackObj.name <$> Py.slice_to top_tracks (Z.min n 50) ∧
    rt_rank <$> TopMusicResult.top_tracks r
      = seq 1 (length (TopMusicResult.top_tracks r)) ∧
    ra_name <$> TopMusicResult.top_artists r
      = Artist.name <$> Py.slice_to top_artists (Z.min n 50) ∧
    ra_rank <$> TopMusicResult.top_artists r
      = seq 1 (length (TopMusicResult.top_artists r)) ∧
    ((0 ≤ n)%Z → length (TopMusicResult.top_tracks r) ≤ 50
                 ∧ length (TopMusicResult.top_artists r) ≤ 50) ∧
    TopMusicResult.top_tracks_analyzed r = length top_tracks ∧
    TopMusicResult.top_artists_analyzed r = length top_artists ∧
    ((TopMusicResult.recap_playlist r = None ∧ rest = [])
     ∨ ∃ playlist_name description playlist,
         rest = [existT (CreatePlaylist playlist_name description) (Ok playlist);
                 existT (AddTracksToPlaylist (Playlist.id playlist)
                           (rt_id <$> TopMusicResult.top_tracks r)) (Ok ())] ∧
         TopMusicResult.recap_playlist r
         = Some {| info_name := Playlist.name playlist;
                   info_id := Playlist.id playlist;
                   info_track_count := length (TopMusicResult.top_tracks r) |}).
Proof.
  intros Hrun. apply handle_top_music_Ok, my_top_music_Ok in Hrun
    as (n & top_tracks & top_artists & rest & words & Hn & Hlog & Hid & Hname
        & Hranks & Hartists & Hta & Haa & _ & _ & Hrecap).
  exists n, top_tracks, top_artists, rest.
  assert (length (TopMusicResult.top_tracks r)
          = length (Py.slice_to top_tracks (Z.min n 50))) as Hlen.
  { by rewrite <- (length_fmap rt_id), Hid, length_fmap. }
  assert (length (TopMusicResult.top_artists r)
          = length (Py.slice_to top_artists (Z.min n 50))) as Hlen'.
  { rewrite Hartists. unfold rank_artists. apply length_imap. }
  split; [done|]. split; [done|]. split; [done|]. split; [done|].
  split; [by rewrite Hlen|]. split; [by rewrite Hartists, rank_artists_names|].
  split; [by rewrite Hlen', Hartists, rank_artists_ranks|].
  split; [|done].
  intros Hn0. rewrite Hlen, Hlen', !slice_to_nonneg, !length_take by lia. lia.
Qed.

Lemma most_frequent_full n words word :
  word ∈ words →
  word ∉ (take n (by_count_desc snd (tally words))).*1 →
  length (take n (by_count_desc snd (tally words))) = n.
Proof.
  intros Hin Hout. rewrite length_take.
  destruct (decide (n ≤ length (by_count_desc snd (tally words))));
    [lia|exfalso].
  apply Hout. rewrite take_ge by lia.
  apply list_elem_of_fmap. exists (word, occurrences word words).
  split; [done|]. unfold by_count_desc, Py.sorted.
  rewrite sort_by_perm. apply elem_of_tally.
  split; [by apply occurrences_pos|done].
Qed.

(** X17. The genre breakdown of MyTopMusic is computed from the genre tags
    of the artists listed, each counted under its first word (the words of
    a tag are separated by white space) or under 'other' when it is empty.
    The reply names the most frequent of these words, most frequent first:
    five of them when a word is left out, each once, and no word left out
    is more frequent than a word named. With each word it gives the
    percentage [round(count / total * 100)] of the tags counted under it,
    where the total is the number of tags, or 1 when there is none. *)
Theorem top_music_genre_breakdown arguments log log' r :
  handle_call_tool (MyTopMusic arguments) log = (log', Ok (TopMusicJson r)) →
  ∃ n top_tracks top_artists rest words top,
    arg_get_default (TopMusicArgs.top_count arguments) 10%Z = Some n ∧
    log' = log ++
      existT (GetTopTracks (TopMusicResult.time_range r) 50) (Ok top_tracks)
      :: existT (GetTopArtists (TopMusicResult.time_range r) 50) (Ok top_artists)
      :: rest ∧
    Forall2 simple_genre
      (concat (Artist.genres <$> Py.slice_to top_artists (Z.min n 50))) words ∧
    TopMusicResult.genre_breakdown r
      = (λ wc, (wc.1, percent wc.2 (match length words with 0 => 1 | m => m end)))
          <$> top ∧
    length top ≤ 5 ∧
    NoDup top.*1 ∧
    (∀ word count, (word, count) ∈ top →
       0 < count ∧ count = occurrences word words) ∧
    Sorted (λ a b : string * nat, b.2 ≤ a.2) top ∧
    (∀ word count word',
      (word, count) ∈ top → word' ∈ words → word' ∉ top.*1 →
      occurrences word' words ≤ count) ∧
    (∀ word', word' ∈ words → word' ∉ top.*1 → length top = 5).
Proof.
  intros Hrun. apply handle_top_music_Ok, my_top_music_Ok in Hrun
    as (n & top_tracks & top_artists & rest & words & Hn & Hlog & _ & _
        & _ & _ & _ & _ & Hwords & Hbreakdown & _).
  exists n, top_tracks, top_artists, rest, words,
    (take 5 (by_count_desc snd (tally words))).
  destruct (most_frequent 5 words) as (Hnd & Hcount & Hsorted & Htop).
  split; [done|]. split; [done|]. split; [done|]. split; [done|].
  split; [rewrite length_take; lia|]. split; [done|]. split; [done|].
  split; [|split; [done|]].
  - eapply Sorted_weaken; [|done]. intros a b. unfold in_order. lia.
  - intros word' Hin Hout. by apply (most_frequent_full 5 words word').
Qed.

End TopMusicReport.

Lemma top_music_lists_first_in_order_witness :
  charts_outcome
    = (charts_outcome.1, Ok (TopMusicJson (top_music_json charts_outcome)))
  ∧ rt_rank <$> TopMusicResult.top_tracks (top_music_json charts_outcome)
    = seq 1 (length (TopMusicResult.top_tracks (top_music_json charts_outcome))).
Proof.
  split; [vm_compute; reflexivity|].
  destruct (@top_music_lists_first_in_order CPython charts_catalog charts_args []
              charts_outcome.1 (top_music_json charts_outcome))
    as (n & top_tracks & top_artists & rest & _ & _ & _ & _ & Hranks & _);
    [vm_compute; reflexivity|].
  exact Hranks.
Defined.

Lemma top_music_genre_breakdown_witness :
  charts_outcome
    = (charts_outcome.1, Ok (TopMusicJson (top_music_json charts_outcome)))
  ∧ TopMusicResult.genre_breakdown (top_music_json charts_outcome)
    = [("indie", 60%Z); ("other", 20%Z); ("dream", 20%Z)]
  ∧ length (TopMusicResult.genre_breakdown (top_music_json charts_outcome)) ≤ 5.
Proof.
  split; [vm_compute; reflexivity|]. split; [vm_compute; reflexivity|].
  destruct (@top_music_genre_breakdown CPython charts_catalog charts_args []
              charts_outcome.1 (top_music_json charts_outcome))
    as (n & top_tracks & top_artists & rest & words & top & _ & _ & _
        & -> & Hlen & _);
    [vm_compute; reflexivity|].
  by rewrite length_fmap.
Defined.

(** ** Discover from the listening history *)

Lemma foldl_concat {A B S} (f : S → B → S) (g : A → list B) s l :
  foldl (λ s a, foldl f s (g a)) s l = foldl f s (concat (g <$> l)).
Proof.
  revert s. induction l as [|a l IH]; intros s; simpl; [done|].
  by rewrite foldl_app, IH.
Qed.

Section HistorySeed.
Context `{Python} `{Catalog}.

Lemma resolve_history_Ok seed_value log log' seed :
  resolve_seed "listening_history" seed_value log = (log', Ok (inr seed)) →
  ∃ top_artists,
    log' = log ++ [existT (GetTopArtists "medium_term" 10) (Ok top_artists)] ∧
    seed_genres seed
    = (take 3 (by_count_desc snd
                 (tally (concat (Artist.genres <$> top_artists))))).*1.
Proof.
  unfold resolve_seed. case_bool_decide; [done|]. case_bool_decide; [done|].
  case_bool_decide; [|done]. intros Hrun.
  apply bind_Ok in Hrun as (top_artists & log1 & Hcall & Hrun).
  call_inv Hcall. subst log1. apply ret_Ok in Hrun as [-> [= ->]].
  exists top_artists. split; [done|]. cbn [seed_genres].
  rewrite fmap_take. unfold count_genres, tally. by rewrite foldl_concat.
Qed.

Lemma discover_result_grows seed_type seed_value year_range flag seed recs :
  emits (λ _, True) (discover_result seed_type seed_value year_range flag seed recs).
Proof.
  unfold discover_result. apply emits_bind; [|intros; apply emits_ret].
  destruct (_ && _); [|apply emits_ret].
  apply emits_bind; [by apply (emits_call _ (CreatePlaylist _ _))|]. intros playlist.
  apply emits_bind; [by apply (emits_call _ (AddTracksToPlaylist _ _))|].
  intros. apply emits_ret.
Qed.

(** X18. With the seed type [listening_history], Discover first asks for
    the listener's 10 top artists of the medium term and seeds the search
    with the genres that occur most often among their genre tags: each seed
    genre is one of these tags, none is named twice, and no tag left out
    occurs more often than a seed genre. *)
Theorem discover_history_seed_genres arguments log log' r :
  arg_get (DiscoverArgs.seed_type arguments) = Some "listening_history" →
  handle_call_tool (Discover arguments) log = (log', Ok (DiscoverJson r)) →
  ∃ top_artists rest,
    log' = log ++
      existT (GetTopArtists "medium_term" 10) (Ok top_artists) :: rest ∧
    let tags := concat (Artist.genres <$> top_artists) in
    NoDup (DiscoverResult.seed_genres r) ∧
    (∀ genre, genre ∈ DiscoverResult.seed_genres r → genre ∈ tags) ∧
    ∀ genre genre',
      genre ∈ DiscoverResult.seed_genres r → genre' ∈ tags →
      genre' ∉ DiscoverResult.seed_genres r →
      occurrences genre' tags ≤ occurrences genre tags.
Proof.
  intros Htype Hrun. apply handle_discover_Ok, discover_Ok_result in Hrun
    as (seed_type & requested & seed & log1 & log2 & run
        & Htype' & _ & Hseed & _ & Hpipe & Hres).
  rewrite Htype in Htype'. injection Htype' as <-.
  apply resolve_history_Ok in Hseed as (top_artists & -> & Hgenres).
  apply discover_pipeline_read_only in Hpipe as (evs1 & -> & _).
  pose proof Hres as Hgrow.
  apply discover_result_grows in Hgrow as (evs2 & -> & _).
  apply discover_result_recommendations in Hres as (_ & _ & ->).
  exists top_artists, (evs1 ++ evs2). split; [by rewrite <- !app_assoc|].
  cbv zeta. rewrite Hgenres.
  destruct (most_frequent 3 (concat (Artist.genres <$> top_artists)))
    as (Hnd & Hcount & _ & Htop).
  split; [done|]. split.
  - intros genre Hin. apply list_elem_of_fmap in Hin as ([g n] & -> & Hin).
    apply Hcount in Hin as [Hpos ->]. by apply occurrences_pos.
  - intros genre genre' Hin Hin' Hnot.
    apply list_elem_of_fmap in Hin as ([g n] & -> & Hin).
    pose proof (Hcount _ _ Hin) as [_ Hn]. cbn [fst]. rewrite <- Hn.
    by eapply Htop.
Qed.

End HistorySeed.

Lemma discover_history_seed_genres_witness :
  arg_get (DiscoverArgs.seed_type negative_limit_args) = Some "listening_history"
  ∧ negative_limit_outcome
    = (negative_limit_outcome.1,
       Ok (DiscoverJson (discover_json negative_limit_outcome)))
  ∧ NoDup (DiscoverResult.seed_genres (discover_json negative_limit_outcome)).
Proof.
  split; [reflexivity|]. split; [vm_compute; reflexivity|].
  destruct (@discover_history_seed_genres CPython wide_catalog negative_limit_args
              [] negative_limit_outcome.1 (discover_json negative_limit_outcome))
    as (top_artists & rest & _ & Hnd & _); [reflexivity|vm_compute; reflexivity|].
  exact Hnd.
Defined.

(** ** ArtistDeepDive *)

Section DeepDiveMore.
Context `{Python} `{Catalog}.

Lemma append_album_tracks_total album release_date album_type tracks all_tracks log :
  ∃ log' out,
    append_album_tracks album release_date album_type tracks all_tracks log
    = (log', Ok out).
Proof.
  revert all_tracks log. induction tracks as [|track tracks IH];
    intros all_tracks log; cbn [append_album_tracks]; [by eexists _, _|].
  rewrite bind_attempt_call.
  destruct (answer log (GetTrack (TrackObj.id track))); [apply IH|by eexists _, _].
Qed.

Lemma collect_album_total all_tracks album log :
  ∃ log' out, collect_album all_tracks album log = (log', Ok out).
Proof.
  unfold collect_album. rewrite bind_attempt_call.
  destruct (answer log (GetAlbumTracksFull (Album.id album)))
    as [[[tracks release_date] album_type]|e]; [|by eexists _, _].
  apply append_album_tracks_total.
Qed.

Section Writable.
Hypothesis creates : ∀ log playlist_name description,
  ∃ playlist, answer log (CreatePlaylist playlist_name description) = Ok playlist.
Hypothesis adds_tracks : ∀ log playlist_id track_ids,
  answer log (AddTracksToPlaylist playlist_id track_ids) = Ok ().

Lemma create_total playlist_name description log :
  ∃ log' playlist,
    call (CreatePlaylist playlist_name description) log = (log', Ok playlist).
Proof.
  destruct (creates log playlist_name description) as [playlist Hp].
  unfold call. rewrite Hp. by eexists _, _.
Qed.

Lemma add_total playlist_id track_ids log :
  ∃ log', call (AddTracksToPlaylist playlist_id track_ids) log = (log', Ok ()).
Proof. unfold call. rewrite adds_tracks. by eexists. Qed.

Lemma add_in_chunks_total playlist_id track_ids log :
  ∃ log', add_in_chunks playlist_id track_ids log = (log', Ok ()).
Proof.
  unfold add_in_chunks.
  destruct (for_each_total (Py.batches 100 track_ids)
              (λ (_ : ()) chunk, call (AddTracksToPlaylist playlist_id chunk)) ()
              log) as (log' & [] & Hrun); [|by eexists].
  intros [] chunk l. destruct (add_total playlist_id chunk l) as [l' Hl'].
  by exists l', ().
Qed.

Lemma when_total b (m : M ()) log :
  (∃ log', m log = (log', Ok ())) → ∃ log', when b m log = (log', Ok ()).
Proof. intros Hm. destruct b; simpl; [done|by eexists]. Qed.

Lemma build_playlists_total artist_id artist_display_name threshold albums
    all_tracks log :
  ∃ log' r,
    build_playlists artist_id artist_display_name (Some threshold) albums
      all_tracks log = (log', Ok r) ∧
    DeepDiveResult.total_albums_analyzed r = length albums ∧
    DeepDiveResult.total_tracks_analyzed r = length (deduplicate all_tracks).
Proof.
  unfold build_playlists. cbv zeta.
  edestruct create_total as (log1 & p1 & Hp1).
  erewrite bind_step; [|exact Hp1].
  edestruct (when_total (nonempty (best_of (deduplicate all_tracks))))
    as (log2 & Ha1); [apply add_total|].
  erewrite bind_step; [|exact Ha1]. rewrite bind_ret_run.
  edestruct create_total as (log3 & p2 & Hp2).
  erewrite bind_step; [|exact Hp2].
  edestruct (when_total
               (nonempty (deep_cuts_of threshold
                            (id_set (best_of (deduplicate all_tracks)))
                            (deduplicate all_tracks))))
    as (log4 & Ha2); [apply add_total|].
  erewrite bind_step; [|exact Ha2].
  edestruct create_total as (log5 & p3 & Hp3).
  erewrite bind_step; [|exact Hp3].
  edestruct (when_total (nonempty (chronological_of (deduplicate all_tracks))))
    as (log6 & Ha3); [apply add_in_chunks_total|].
  erewrite bind_step; [|exact Ha3].
  eexists _, _. split; [reflexivity|]. done.
Qed.

(** X19. ArtistDeepDive returns its report even when albums or tracks
    cannot be loaded: once the artist is found and the list of albums is
    known, and as long as the threshold is not null and playlists can be
    created and filled, no failing album or track lookup ends the run. The
    report counts every album of the list, loaded or not. *)
Theorem deep_dive_reports_despite_album_failures arguments log artist others albums :
  answer log (SearchArtist (arg_get (DeepDiveArgs.artist_name arguments)) 1)
    = Ok (artist :: others) →
  answer
    (log ++ [existT (SearchArtist (arg_get (DeepDiveArgs.artist_name arguments)) 1)
               (Ok (artist :: others))])
    (GetArtistAlbums (Artist.id artist)
       (arg_get_default (DeepDiveArgs.include_singles arguments) true))
    = Ok albums →
  DeepDiveArgs.deep_cuts_max_popularity arguments ≠ Null →
  ∃ log' r,
    handle_call_tool (ArtistDeepDive arguments) log = (log', Ok (DeepDiveJson r)) ∧
    DeepDiveResult.total_albums_analyzed r = length albums.
Proof.
  intros Hsearch Halbums Hthreshold.
  assert (∃ threshold,
            arg_get_default (DeepDiveArgs.deep_cuts_max_popularity arguments) 40%Z
            = Some threshold) as [threshold Hth].
  { destruct (DeepDiveArgs.deep_cuts_max_popularity arguments);
      [by eexists | done | by eexists]. }
  destruct (for_each_total albums collect_album []
              ((log ++ [existT
                          (SearchArtist
                             (arg_get (DeepDiveArgs.artist_name arguments)) 1)
                          (Ok (artist :: others))])
                 ++ [existT
                       (GetArtistAlbums (Artist.id artist)
                          (arg_get_default
                             (DeepDiveArgs.include_singles arguments) true))
                       (Ok albums)]))
    as (log2 & all_tracks & Hcollect).
  { intros. apply collect_album_total. }
  destruct (build_playlists_total (Artist.id artist) (Artist.name artist)
              threshold albums all_tracks log2) as (log3 & r & Hbuild & Hcount & _).
  assert (artist_deep_dive arguments log = (log3, Ok (inr r))) as Hrun.
  { unfold artist_deep_dive. cbv zeta. rewrite Hth.
    erewrite bind_step; [|unfold call; rewrite Hsearch; reflexivity].
    cbv beta iota.
    erewrite bind_step; [|unfold call; rewrite Halbums; reflexivity].
    erewrite bind_step; [|exact Hcollect].
    erewrite bind_step; [|exact Hbuild]. reflexivity. }
  exists log3, r. split; [|done].
  rewrite handle_call_tool_run. simpl run_tool.
  unfold bind. rewrite Hrun. reflexivity.
Qed.

End Writable.

End DeepDiveMore.

Lemma deep_dive_reports_despite_album_failures_witness :
  ∃ log' r,
    @handle_call_tool CPython discography_catalog
      (ArtistDeepDive discography_args) [] = (log', Ok (DeepDiveJson r)) ∧
    DeepDiveResult.total_albums_analyzed r = 2.
Proof.
  assert (∀ log playlist_name description,
            ∃ playlist,
              @answer discography_catalog log
                (CreatePlaylist playlist_name description) = Ok playlist)
    as Hcreates by (intros; eexists; reflexivity).
  assert (∀ log playlist_id track_ids,
            @answer discography_catalog log
              (AddTracksToPlaylist playlist_id track_ids) = Ok ())
    as Hadds by (intros; reflexivity).
  assert (DeepDiveArgs.deep_cuts_max_popularity discography_args ≠ Null)
    as Hthreshold by (simpl; discriminate).
  destruct (@deep_dive_reports_despite_album_failures CPython discography_catalog
              Hcreates Hadds discography_args [] _ _ _ eq_refl eq_refl Hthreshold)
    as (log' & r & Hrun & Hcount).
  exists log', r. split; [exact Hrun | exact Hcount].
Defined.

(** * The client over spotipy *)

(** ** Paginated listings *)

Lemma serves_cons `{Sp.Service} log ev evs :
  Sp.serves log (ev :: evs) →
  Sp.answer log (Sp.request ev) = projT2 ev ∧ Sp.serves (log ++ [ev]) evs.
Proof.
  intros Hserves. split.
  - specialize (Hserves 0 ev eq_refl). simpl in Hserves.
    by rewrite app_nil_r in Hserves.
  - intros i e He. specialize (Hserves (S i) e He). simpl in Hserves.
    by rewrite <- app_assoc.
Qed.

Lemma ends_with_last_page_cons {A} (page : Sp.Page A) rest :
  Sp.ends_with_last_page (page :: rest) →
  (rest = [] ∧ truthy_str (Sp.next page) = false)
  ∨ (truthy_str (Sp.next page) = true ∧ Sp.ends_with_last_page rest).
Proof.
  intros ([|first before] & final & Hpages & Hbefore & Hfinal);
    simpl in Hpages; injection Hpages as -> ->.
  - by left.
  - apply Forall_cons in Hbefore as [Hfirst Hbefore]. right.
    split; [done|]. by exists before, final.
Qed.

Lemma album_events_cons artist_id album_type limit offset page pages :
  Sp.album_events artist_id album_type limit offset (page :: pages)
  = existT (Sp.AlbumsPage artist_id album_type limit offset) (Ok page)
    :: Sp.album_events artist_id album_type limit (offset + limit) pages.
Proof.
  unfold Sp.album_events. rewrite imap_cons. f_equal.
  - replace (offset + Z.of_nat 0 * limit)%Z with offset by lia. done.
  - apply imap_ext. intros i p _. simpl.
    replace (offset + Z.of_nat (S i) * limit)%Z
      with (offset + limit + Z.of_nat i * limit)%Z by lia. done.
Qed.

Lemma playlist_events_cons limit offset page pages :
  Sp.playlist_events limit offset (page :: pages)
  = existT (Sp.PlaylistsPage limit offset) (Ok page)
    :: Sp.playlist_events limit (offset + limit) pages.
Proof.
  unfold Sp.playlist_events. rewrite imap_cons. f_equal.
  - replace (offset + Z.of_nat 0 * limit)%Z with offset by lia. done.
  - apply imap_ext. intros i p _. simpl.
    replace (offset + Z.of_nat (S i) * limit)%Z
      with (offset + limit + Z.of_nat i * limit)%Z by lia. done.
Qed.

Section Pagination.
Context `{Sp.Service}.

Lemma sp_call_answered r log x :
  Sp.answer log r = x → Sp.call r log = (log ++ [existT r x], x).
Proof. intros <-. reflexivity. Qed.

Lemma albums_loop_reads fuel artist_id album_type limit offset all_albums log pages :
  Sp.serves log (Sp.album_events artist_id album_type limit offset pages) →
  Sp.ends_with_last_page pages →
  length pages ≤ fuel →
  Sp.albums_loop fuel artist_id album_type limit offset all_albums log
  = (log ++ Sp.album_events artist_id album_type limit offset pages,
     Ok (Some (all_albums ++ concat (Sp.items <$> pages)))).
Proof.
  revert fuel offset all_albums log.
  induction pages as [|page pages IH]; intros fuel offset all_albums log
    Hserves Hlast Hfuel.
  - destruct Hlast as (before & final & Hnil & _). by destruct before.
  - destruct fuel as [|fuel]; [simpl in Hfuel; lia|].
    rewrite album_events_cons in Hserves |- *.
    apply serves_cons in Hserves as [Hanswer Hserves]. simpl in Hanswer.
    cbn [Sp.albums_loop]. unfold Sp.bind at 1.
    rewrite (sp_call_answered (Sp.AlbumsPage artist_id album_type limit offset)
               log (Ok page) Hanswer). cbv zeta.
    apply ends_with_last_page_cons in Hlast as [[-> Hnext]|[Hnext Hlast]];
      rewrite Hnext.
    + simpl. by rewrite app_nil_r.
    + rewrite (IH fuel (offset + limit)%Z (all_albums ++ Sp.items page)
                 (log ++ [existT (Sp.AlbumsPage artist_id album_type limit offset)
                            (Ok page)])); [|done..|simpl in Hfuel; lia].
      simpl. by rewrite <- !app_assoc.
Qed.

Lemma playlists_loop_reads fuel limit offset playlists log pages :
  Sp.serves log (Sp.playlist_events limit offset pages) →
  Sp.ends_with_last_page pages →
  length pages ≤ fuel →
  Sp.playlists_loop fuel limit offset playlists log
  = (log ++ Sp.playlist_events limit offset pages,
     Ok (Some (playlists ++ concat (Sp.items <$> pages)))).
Proof.
  revert fuel offset playlists log.
  induction pages as [|page pages IH]; intros fuel offset playlists log
    Hserves Hlast Hfuel.
  - destruct Hlast as (before & final & Hnil & _). by destruct before.
  - destruct fuel as [|fuel]; [simpl in Hfuel; lia|].
    rewrite playlist_events_cons in Hserves |- *.
    apply serves_cons in Hserves as [Hanswer Hserves]. simpl in Hanswer.
    cbn [Sp.playlists_loop]. unfold Sp.bind at 1.
    rewrite (sp_call_answered (Sp.PlaylistsPage limit offset) log (Ok page)
               Hanswer). cbv zeta.
    apply ends_with_last_page_cons in Hlast as [[-> Hnext]|[Hnext Hlast]];
      rewrite Hnext.
    + simpl. by rewrite app_nil_r.
    + rewrite (IH fuel (offset + limit)%Z (playlists ++ Sp.items page)
                 (log ++ [existT (Sp.PlaylistsPage limit offset) (Ok page)]));
        [|done..|simpl in Hfuel; lia].
      simpl. by rewrite <- !app_assoc.
Qed.

(** X20. [get_artist_albums] reads the listing of an artist page by page:
    it asks for the offsets 0, [limit], 2 [limit], ... with the album type
    'album,single', or 'album' when singles are not wanted, until a page
    comes without a link to the next one, and returns the items of all the
    pages in that order. As many rounds of the loop as there are pages
    suffice. *)
Theorem get_artist_albums_reads_all_pages fuel artist_id include_singles limit
    log pages :
  Sp.serves log
    (Sp.album_events artist_id
       (if truthy_arg include_singles then "album,single" else "album")
       limit 0 pages) →
  Sp.ends_with_last_page pages →
  length pages ≤ fuel →
  Sp.get_artist_albums fuel artist_id include_singles limit log
  = (log ++ Sp.album_events artist_id
              (if truthy_arg include_singles then "album,single" else "album")
              limit 0 pages,
     Ok (Some (concat (Sp.items <$> pages)))).
Proof.
  intros Hserves Hlast Hfuel. unfold Sp.get_artist_albums. cbv zeta.
  by rewrite (albums_loop_reads fuel _ _ limit 0 [] log pages).
Qed.

(** X21. [get_all_playlists] reads the playlists of the user page by page:
    it asks for the offsets 0, [limit], 2 [limit], ... until a page comes
    without a link to the next one, and returns the items of all the pages
    in that order. As many rounds of the loop as there are pages
    suffice. *)
Theorem get_all_playlists_reads_all_pages fuel limit log pages :
  Sp.serves log (Sp.playlist_events limit 0 pages) →
  Sp.ends_with_last_page pages →
  length pages ≤ fuel →
  Sp.get_all_playlists fuel limit log
  = (log ++ Sp.playlist_events limit 0 pages,
     Ok (Some (concat (Sp.items <$> pages)))).
Proof.
  intros Hserves Hlast Hfuel. unfold Sp.get_all_playlists.
  by rewrite (playlists_loop_reads fuel limit 0 [] log pages).
Qed.

Lemma albums_loop_endless fuel artist_id album_type limit offset all_albums log
    log' albums :
  Sp.endless →
  Sp.albums_loop fuel artist_id album_type limit offset all_albums log
  ≠ (log', Ok (Some albums)).
Proof.
  intros Hendless. revert offset all_albums log.
  induction fuel as [|fuel IH]; intros offset all_albums log; [done|].
  cbn [Sp.albums_loop]. unfold Sp.bind at 1, Sp.call.
  pose proof (Hendless log (Sp.AlbumsPage artist_id album_type limit offset))
    as Hnext. simpl in Hnext.
  destruct (Sp.answer log (Sp.AlbumsPage artist_id album_type limit offset))
    as [page|e]; [|done].
  cbv zeta. rewrite (Hnext page eq_refl). apply IH.
Qed.

Lemma playlists_loop_endless fuel limit offset playlists log log' all_playlists :
  Sp.endless →
  Sp.playlists_loop fuel limit offset playlists log
  ≠ (log', Ok (Some all_playlists)).
Proof.
  intros Hendless. revert offset playlists log.
  induction fuel as [|fuel IH]; intros offset playlists log; [done|].
  cbn [Sp.playlists_loop]. unfold Sp.bind at 1, Sp.call.
  pose proof (Hendless log (Sp.PlaylistsPage limit offset)) as Hnext.
  simpl in Hnext.
  destruct (Sp.answer log (Sp.PlaylistsPage limit offset)) as [page|e]; [|done].
  cbv zeta. rewrite (Hnext page eq_refl). apply IH.
Qed.

(** X22. The two listing loops end only with a last page: against a
    service whose every page carries a link to the next one, no number of
    rounds makes [get_artist_albums] or [get_all_playlists] return a
    list. *)
Theorem listings_need_a_last_page fuel artist_id include_singles limit log :
  Sp.endless →
  (∀ log' albums,
     Sp.get_artist_albums fuel artist_id include_singles limit log
     ≠ (log', Ok (Some albums))) ∧
  (∀ log' playlists,
     Sp.get_all_playlists fuel limit log ≠ (log', Ok (Some playlists))).
Proof.
  intros Hendless. split; intros log' out.
  - by apply albums_loop_endless.
  - by apply playlists_loop_endless.
Qed.

End Pagination.

Lemma get_artist_albums_reads_all_pages_witness :
  @Sp.get_artist_albums Sp.paged_service 3 "A0" None 50 []
  = (Sp.album_events "A0" "album" 50 0 Sp.three_pages,
     Ok (Some (concat (Sp.items <$> Sp.three_pages)))).
Proof.
  apply (@get_artist_albums_reads_all_pages Sp.paged_service 3 "A0" None 50 []
           Sp.three_pages).
  - intros [|[|[|i]]] ev; simpl; intros [= <-]; reflexivity.
  - exists (take 2 Sp.three_pages), {| Sp.items := Sp.some_albums "c" 7;
                                       Sp.next := None |}.
    split; [reflexivity|]. split; [|reflexivity].
    repeat constructor.
  - simpl. lia.
Defined.

Lemma get_all_playlists_reads_all_pages_witness :
  @Sp.get_all_playlists Sp.paged_service 5 50 []
  = (Sp.playlist_events 50 0 Sp.two_playlist_pages,
     Ok (Some (concat (Sp.items <$> Sp.two_playlist_pages)))).
Proof.
  apply (@get_all_playlists_reads_all_pages Sp.paged_service 5 50 []
           Sp.two_playlist_pages).
  - intros [|[|i]] ev; simpl; intros [= <-]; reflexivity.
  - eexists [_], _. split; [reflexivity|]. split; [|reflexivity].
    repeat constructor.
  - simpl. lia.
Defined.

Lemma listings_need_a_last_page_witness :
  @Sp.endless Sp.endless_service
  ∧ ∀ log' playlists,
      @Sp.get_all_playlists Sp.endless_service 100 50 []
      ≠ (log', Ok (Some playlists)).
Proof.
  assert (@Sp.endless Sp.endless_service) as Hendless.
  { intros log [| | |]; simpl; try done; by intros page [= <-]. }
  split; [exact Hendless|].
  apply (@listings_need_a_last_page Sp.endless_service 100 "A0" None 50 []
           Hendless).
Defined.

(** ** Devices *)

Lemma find_first {A} (f : A → bool) l x :
  List.find f l = Some x →
  ∃ before after,
    l = before ++ x :: after ∧ Forall (λ y, f y = false) before ∧ f x = true.
Proof.
  induction l as [|y l IH]; simpl; [done|].
  destruct (f y) eqn:Hy.
  - intros [= ->]. by exists [], l.
  - intros Hfind. destruct (IH Hfind) as (before & after & -> & Hbefore & Hx).
    exists (y :: before), after. split; [done|]. split; [by constructor|done].
Qed.

Lemma find_nothing {A} (f : A → bool) l :
  List.find f l = None → Forall (λ y, f y = false) l.
Proof.
  induction l as [|y l IH]; simpl; [by constructor|].
  destruct (f y) eqn:Hy; [done|]. intros Hfind. constructor; [done|by apply IH].
Qed.

Lemma existsb_idle {A} (f : A → bool) l :
  Forall (λ y, f y = false) l → existsb f l = false.
Proof. induction 1 as [|y l Hy _ IH]; simpl; [done|]. by rewrite Hy, IH. Qed.

(** X23. [_get_candidate_device] asks for the devices once. With no device
    it raises the error 'No active device. Is Spotify open?'; otherwise it
    returns a device of the list: the first active one, and the first
    device when none is active. [is_active_device] answers, for the same
    list, whether that device is active. *)
Theorem candidate_device_is_first_active `{Sp.Service} log :
  match Sp.answer log Sp.DeviceList with
  | Raise e =>
      Sp._get_candidate_device log
      = (log ++ [existT Sp.DeviceList (Raise e)], Raise e)
  | Ok [] =>
      Sp._get_candidate_device log
      = (log ++ [existT Sp.DeviceList (Ok [])],
         Raise (Exception "No active device. Is Spotify open?"))
  | Ok devices =>
      ∃ before device after,
        devices = before ++ device :: after ∧
        Forall Sp.idle before ∧
        (Sp.idle device → before = [] ∧ Forall Sp.idle after) ∧
        Sp._get_candidate_device log
        = (log ++ [existT Sp.DeviceList (Ok devices)], Ok device) ∧
        Sp.is_active_device log
        = (log ++ [existT Sp.DeviceList (Ok devices)],
           Ok (truthy_arg (Sp.is_active device)))
  end.
Proof.
  unfold Sp._get_candidate_device, Sp.is_active_device, Sp.get_devices,
    Sp.bind, Sp.call.
  destruct (Sp.answer log Sp.DeviceList) as [[|first devices]|e]; [done| |done].
  destruct (List.find (λ device, truthy_arg (Sp.is_active device))
              (first :: devices)) as [device|] eqn:Hfind.
  - apply find_first in Hfind as (before & after & Hsplit & Hbefore & Hactive).
    exists before, device, after. rewrite Hsplit at 1.
    split; [done|]. split; [done|]. split.
    { unfold Sp.idle. congruence. }
    split; [done|]. unfold Sp.ret. do 2 f_equal. rewrite Hactive, Hsplit.
    rewrite existsb_app. simpl. rewrite Hactive. apply orb_true_r.
  - apply find_nothing in Hfind. exists [], first, devices.
    split; [done|]. split; [by constructor|].
    apply Forall_cons in Hfind as [Hfirst Hrest].
    split; [done|]. split; [done|]. unfold Sp.ret. do 2 f_equal.
    rewrite Hfirst. apply existsb_idle. by constructor.
Qed.

(** ** Track ids and URIs *)

Lemma colon_free_cons c s :
  Sp.colon_free (String c s) → c ≠ Sp.colon ∧ Sp.colon_free s.
Proof.
  unfold Sp.colon_free. simpl.
  destruct (decide (Ascii.Ascii false true false true true true false false = c))
    as [<-|Hne]; [done|]. simpl. intros Hfree. split; [|done].
  intros ->. by apply Hne.
Qed.

Lemma split_go_colon_free cur s :
  Sp.colon_free s → Sp.split_go Sp.colon cur s = [cur +:+ s].
Proof.
  revert cur. induction s as [|c s IH]; intros cur Hfree; simpl.
  - by rewrite append_empty_r.
  - apply colon_free_cons in Hfree as [Hc Hfree].
    rewrite bool_decide_eq_false_2 by done. rewrite IH by done.
    by rewrite append_assoc, append_cons, append_nil.
Qed.

Lemma last_segment_colon_free cur s :
  Sp.colon_free s → last_segment cur s = cur +:+ s.
Proof.
  revert cur. induction s as [|c s IH]; intros cur Hfree; simpl.
  - by rewrite append_empty_r.
  - apply colon_free_cons in Hfree as [Hc Hfree].
    rewrite bool_decide_eq_false_2 by done. rewrite IH by done.
    by rewrite append_assoc, append_cons, append_nil.
Qed.

Lemma colon_free_no_prefix s :
  Sp.colon_free s → Py.startswith s "spotify:track:" = false.
Proof.
  intros Hfree. destruct (Py.startswith s "spotify:track:") eqn:Hstart; [|done].
  apply startswith_spec in Hstart as [post ->].
  unfold Sp.colon_free in Hfree.
  assert (Py.contains ":" ("spotify:track:" +:+ post) = true) as Hcolon; [|congruence].
  apply contains_spec. by exists "spotify", ("track:" +:+ post).
Qed.

(** X24. A track may be named by its id or by its URI: for an id without
    a colon, [get_track] asks spotipy for the same track whether it is
    given the id or 'spotify:track:' followed by the id, and the track seed
    of Discover reduces both to the id. *)
Theorem track_id_and_uri_name_the_same_track `{Sp.Service} track_id log :
  Sp.colon_free track_id →
  Sp.get_track ("spotify:track:" +:+ track_id) log
    = Sp.call (Sp.TrackById track_id) log ∧
  Sp.get_track track_id log = Sp.call (Sp.TrackById track_id) log ∧
  last_segment "" ("spotify:track:" +:+ track_id) = track_id ∧
  last_segment "" track_id = track_id.
Proof.
  intros Hfree. split; [|split; [|split]].
  - unfold Sp.get_track.
    change (Py.startswith ("spotify:track:" +:+ track_id) "spotify:track:")
      with true. cbv iota.
    change (Sp.split Sp.colon ("spotify:track:" +:+ track_id))
      with ("spotify" :: "track" :: Sp.split_go Sp.colon "" track_id).
    rewrite split_go_colon_free by done. simpl. by rewrite append_nil.
  - unfold Sp.get_track. by rewrite colon_free_no_prefix.
  - change (last_segment "" ("spotify:track:" +:+ track_id))
      with (last_segment "" track_id).
    rewrite last_segment_colon_free by done. apply append_nil.
  - rewrite last_segment_colon_free by done. apply append_nil.
Qed.

Lemma track_id_and_uri_name_the_same_track_witness :
  Sp.colon_free "4uLU6hMCjMI75M1A2tKUQC"
  ∧ @Sp.get_track Sp.paged_service "spotify:track:4uLU6hMCjMI75M1A2tKUQC" []
    = @Sp.call Sp.paged_service (Sp.TrackById "4uLU6hMCjMI75M1A2tKUQC") [].
Proof.
  split; [reflexivity|].
  apply (@track_id_and_uri_name_the_same_track Sp.paged_service
           "4uLU6hMCjMI75M1A2tKUQC" []).
  reflexivity.
Defined.

(** * The remote token cache *)

Section RemoteCache.
Context `{Remote.Tokens} `{!Remote.Backend}.

(** X25. [auth_ok] never raises and makes one request, the GET of the
    token. It answers [True] exactly when the backend answered with a
    status that is not 404 and is [ok], the body decoded to a token that is
    not null, and spotipy finds that token not expired; every failure on
    the way gives [False]. *)
Theorem auth_ok_only_for_a_fresh_token (self : Remote.Handler) log :
  let request :=
    Remote.Get (Remote.backend_url self +:+ "/spotify/mcp-token") 10 in
  ∃ self' fresh,
    Remote.auth_ok self log
    = (self', log ++ [(request, Remote.answer log request)], Remote.Return fresh) ∧
    (fresh = true ↔
     ∃ response token_info,
       Remote.answer log request = Remote.Return response ∧
       Remote.status_code response ≠ 404%Z ∧
       Remote.ok response = true ∧
       Remote.json response = Remote.Return (Some token_info) ∧
       Remote.is_token_expired token_info = Remote.Return false).
Proof.
  cbv zeta. unfold Remote.auth_ok, Remote.get_cached_token. cbv zeta.
  destruct (Remote.answer log _) as [response|[msg|msg]] eqn:Hanswer.
  2,3: by (eexists _, _; split; [reflexivity|]; split;
           [done | intros (? & ? & [=] & _)]).
  case_bool_decide as Hstatus.
  { eexists _, _. split; [reflexivity|]. split; [done|].
    intros (? & ? & [= <-] & ? & _). done. }
  destruct (Remote.ok response) eqn:Hok; simpl.
  2: { eexists _, _. split; [reflexivity|]. split; [done|].
       intros (? & ? & [= <-] & _ & ? & _). congruence. }
  destruct (Remote.json response) as [[token_info|]|[msg|msg]] eqn:Hjson.
  2,3,4: by (eexists _, _; split; [reflexivity|]; split;
             [done | intros (? & ? & [= <-] & _ & _ & ? & _); congruence]).
  destruct (Remote.is_token_expired token_info) as [[|]|e] eqn:Hexpired;
    (eexists _, _; split; [reflexivity|]; split).
  - done.
  - intros (? & ? & [= <-] & _ & _ & ? & ?). congruence.
  - intros _. by exists response, token_info.
  - done.
  - done.
  - intros (? & ? & [= <-] & _ & _ & ? & ?). congruence.
Qed.

Lemma backed_grows url log evs cached :
  Remote.backed url log cached → Remote.backed url (log ++ evs) cached.
Proof.
  intros [->|[(response & Hin & ?)|(token_info & response & -> & Hin & ?)]].
  - by left.
  - right. left. exists response. split; [|done]. apply elem_of_app. by left.
  - right. right. exists token_info, response.
    split; [done|]. split; [|done]. apply elem_of_app. by left.
Qed.

Lemma get_cached_token_backed (self : Remote.Handler) log self' log' res :
  Remote.get_cached_token self log = (self', log', res) →
  Remote.backed (Remote.backend_url self +:+ "/spotify/mcp-token") log
    (Remote._cached_token self) →
  Remote.backend_url self' = Remote.backend_url self ∧
  Remote.backed (Remote.backend_url self +:+ "/spotify/mcp-token") log'
    (Remote._cached_token self').
Proof.
  unfold Remote.get_cached_token. cbv zeta. intros Hrun Hbacked.
  destruct (Remote.answer log _) as [response|[msg|msg]] eqn:Hanswer.
  2,3: by (injection Hrun as <- <- _; split; [done|apply backed_grows]).
  case_bool_decide as Hstatus.
  { injection Hrun as <- <- _. split; [done|by apply backed_grows]. }
  destruct (Remote.ok response) eqn:Hok; simpl in Hrun.
  2: { injection Hrun as <- <- _. split; [done|by apply backed_grows]. }
  destruct (Remote.json response) as [token_info|[msg|msg]] eqn:Hjson.
  2,3: by (injection Hrun as <- <- _; split; [done|apply backed_grows]).
  injection Hrun as <- <- _. split; [done|]. simpl. right. left.
  exists response. split; [|done]. apply elem_of_app. right.
  by apply list_elem_of_singleton.
Qed.

Lemma save_token_to_cache_backed (self : Remote.Handler) token_info log self'
    log' res :
  Remote.save_token_to_cache self token_info log = (self', log', res) →
  Remote.backed (Remote.backend_url self +:+ "/spotify/mcp-token") log
    (Remote._cached_token self) →
  Remote.backend_url self' = Remote.backend_url self ∧
  Remote.backed (Remote.backend_url self +:+ "/spotify/mcp-token") log'
    (Remote._cached_token self').
Proof.
  unfold Remote.save_token_to_cache. cbv zeta. intros Hrun Hbacked.
  destruct (Remote.answer log _) as [response|[msg|msg]] eqn:Hanswer.
  2,3: by (injection Hrun as <- <- _; split; [done|apply backed_grows]).
  destruct (Remote.ok response) eqn:Hok.
  2: { injection Hrun as <- <- _. split; [done|by apply backed_grows]. }
  injection Hrun as <- <- _. split; [done|]. simpl. right. right.
  exists token_info, response. split; [done|]. split; [|done].
  apply elem_of_app. right. by apply list_elem_of_singleton.
Qed.

(** X26. A [RemoteCacheHandler] remembers only what its backend stands
    for: through any sequence of fetches and saves, whatever the backend
    answers, the remembered token is nothing, or the body of an [ok]
    response to a fetch, or a token whose save the backend answered with an
    [ok] response. The address of the backend does not change. *)
Theorem handler_remembers_backed_tokens ops (self : Remote.Handler) log :
  Remote.backed (Remote.backend_url self +:+ "/spotify/mcp-token") log
    (Remote._cached_token self) →
  Remote.backend_url (Remote.run ops self log).1 = Remote.backend_url self ∧
  Remote.backed (Remote.backend_url self +:+ "/spotify/mcp-token")
    (Remote.run ops self log).2
    (Remote._cached_token (Remote.run ops self log).1).
Proof.
  revert self log. induction ops as [|[|token_info] ops IH]; intros self log Hbacked.
  - done.
  - cbn [Remote.run].
    destruct (Remote.get_cached_token self log) as [[self' log'] res] eqn:Hrun.
    apply get_cached_token_backed in Hrun as [Hurl Hbacked']; [|done].
    rewrite <- Hurl in Hbacked' |- *. by apply IH.
  - cbn [Remote.run].
    destruct (Remote.save_token_to_cache self token_info log)
      as [[self' log'] res] eqn:Hrun.
    apply save_token_to_cache_backed in Hrun as [Hurl Hbacked']; [|done].
    rewrite <- Hurl in Hbacked' |- *. by apply IH.
Qed.

End RemoteCache.

Lemma handler_remembers_backed_tokens_witness :
  @Remote.backed Remote.clock_tokens
    (Remote.backend_url Remote.new_handler +:+ "/spotify/mcp-token") []
    (Remote._cached_token Remote.new_handler)
  ∧ @Remote.backed Remote.clock_tokens
      (Remote.backend_url Remote.new_handler +:+ "/spotify/mcp-token")
      (@Remote.run Remote.clock_tokens Remote.open_backend
         Remote.save_then_fetch Remote.new_handler []).2
      Remote.served_token.
Proof.
  split; [by left|].
  destruct (@handler_remembers_backed_tokens Remote.clock_tokens
              Remote.open_backend Remote.save_then_fetch Remote.new_handler [])
    as [_ Hbacked]; [by left|].
  exact Hbacked.
Defined.

(** * The runs of Discover and of ArtistDeepDive, read from the trace *)

(** ** Discover: the events and the stages of a run *)

Lemma existsb_Exists {A} (f : A → bool) (l : list A) :
  existsb f l = true ↔ Exists (λ x, f x = true) l.
Proof.
  induction l as [|x l IH]; simpl.
  - by rewrite Exists_nil.
  - by rewrite Exists_cons, orb_true_iff, IH.
Qed.

Lemma shares_genre_similar seed_genres artist :
  shares_genre seed_genres artist = bool_decide (similar seed_genres artist).
Proof.
  assert (shares_genre seed_genres artist = true ↔ similar seed_genres artist)
    as Hiff.
  { unfold shares_genre, similar. rewrite existsb_Exists, !Exists_exists.
    split; intros (g & Hin & Hg); exists g; (split; [done|]).
    - by apply bool_decide_eq_true in Hg.
    - by apply bool_decide_eq_true. }
  destruct (shares_genre seed_genres artist); symmetry.
  - apply bool_decide_eq_true_2. by apply Hiff.
  - apply bool_decide_eq_false_2. intros Hs. by apply Hiff in Hs.
Qed.

Lemma filter_shares_genre seed_genres artists :
  List.filter (shares_genre seed_genres) artists
  = filter (similar seed_genres) artists.
Proof.
  induction artists as [|artist artists IH]; simpl; [done|].
  rewrite filter_cons, shares_genre_similar, IH.
  by destruct (decide (similar seed_genres artist));
    [rewrite bool_decide_eq_true_2|rewrite bool_decide_eq_false_2].
Qed.

Lemma elem_of_excluded recent saved i :
  i ∈ excluded recent saved ↔
  ∃ ids, recent = Ok ids ∧ (i ∈ ids ∨ ∃ ids', saved = Ok ids' ∧ i ∈ ids').
Proof.
  unfold excluded. destruct recent as [ids|e].
  - destruct saved as [ids'|e'].
    + rewrite elem_of_union, !elem_of_list_to_set. split.
      * intros [Hi|Hi]; exists ids; (split; [done|]); [by left|right; by exists ids'].
      * intros (? & [= <-] & [Hi|(? & [= <-] & Hi)]); [by left|by right].
    + rewrite elem_of_list_to_set. split.
      * intros Hi. exists ids. split; [done|by left].
      * by intros (? & [= <-] & [Hi|(? & [=] & _)]).
  - rewrite elem_of_empty. split; [done|]. by intros (? & [=] & _).
Qed.

Lemma after_searches_inv (I : Stage → Prop) exclude_ids genres searches st :
  (∀ genre st track, I st → I (genre_track exclude_ids genre st track)) →
  I st → I (after_searches exclude_ids genres searches st).
Proof.
  intros Hstep. unfold after_searches. apply foldl_inv.
  intros s [genre [tracks|e]] Hs; unfold search_step; simpl; [|done].
  apply foldl_inv; [|done]. intros. by apply Hstep.
Qed.

Lemma after_artists_inv (I : Stage → Prop) exclude_ids artists top_tracks st :
  (∀ artist st track, I st → I (top_track exclude_ids artist st track)) →
  I st → I (after_artists exclude_ids artists top_tracks st).
Proof.
  intros Hstep. unfold after_artists. apply foldl_inv.
  intros s [artist [tracks|e]] Hs; unfold artist_step; simpl; [|done].
  apply foldl_inv; [|done]. intros. by apply Hstep.
Qed.

Lemma after_searches_cons exclude_ids genre genres search searches st :
  after_searches exclude_ids (genre :: genres) (search :: searches) st
  = after_searches exclude_ids genres searches
      (search_step exclude_ids st (genre, search)).
Proof. reflexivity. Qed.

Lemma after_artists_cons exclude_ids artist artists tracks top_tracks st :
  after_artists exclude_ids (artist :: artists) (tracks :: top_tracks) st
  = after_artists exclude_ids artists top_tracks
      (artist_step exclude_ids st (artist, tracks)).
Proof. reflexivity. Qed.






(** Where the candidates come from. *)
Lemma genre_track_origin exclude_ids genre st track c :
  c ∈ recommendations (genre_track exclude_ids genre st track) →
  c ∈ recommendations st ∨ c = genre_candidate genre track.
Proof.
  unfold genre_track, genre_candidate, primary_artist_id.
  case_bool_decide; [by left|].
  destruct (TrackObj.artists track) as [|a0 rest];
    [|destruct (_ && _); [by left|]];
    simpl; intros Hc; apply elem_of_app in Hc as [Hc|Hc]; try (by left);
    apply list_elem_of_singleton in Hc as ->; by right.
Qed.

Lemma genre_tracks_origin exclude_ids genre tracks st c :
  c ∈ recommendations (foldl (genre_track exclude_ids genre) st tracks) →
  c ∈ recommendations st
  ∨ ∃ track, track ∈ tracks ∧ c = genre_candidate genre track.
Proof.
  revert st. induction tracks as [|t tracks IH]; intros st; simpl; [by left|].
  intros Hc. apply IH in Hc as [Hc|(track & Hin & ->)].
  - apply genre_track_origin in Hc as [Hc| ->]; [by left|].
    right. exists t. split; [left|done].
  - right. exists track. split; [by right|done].
Qed.

Lemma after_searches_origin exclude_ids genres searches st c :
  c ∈ recommendations (after_searches exclude_ids genres searches st) →
  c ∈ recommendations st
  ∨ ∃ i genre tracks track,
      genres !! i = Some genre ∧ searches !! i = Some (Ok tracks) ∧
      track ∈ tracks ∧ c = genre_candidate genre track.
Proof.
  revert searches st.
  induction genres as [|g genres IH]; intros [|s searches] st; try by left.
  rewrite after_searches_cons. intros Hc.
  apply IH in Hc as [Hc|(i & genre & tracks & track & Hg & Hs & Hin & ->)].
  - unfold search_step in Hc. simpl in Hc. destruct s as [tracks|e]; [|by left].
    apply genre_tracks_origin in Hc as [Hc|(track & Hin & ->)]; [by left|].
    right. by exists 0, g, tracks, track.
  - right. by exists (S i), genre, tracks, track.
Qed.

Lemma top_track_origin exclude_ids artist st track c :
  c ∈ recommendations (top_track exclude_ids artist st track) →
  c ∈ recommendations st ∨ c = top_candidate artist track.
Proof.
  unfold top_track, top_candidate. case_bool_decide; [by left|].
  simpl; intros Hc; apply elem_of_app in Hc as [Hc|Hc]; try (by left);
    apply list_elem_of_singleton in Hc as ->; by right.
Qed.

Lemma top_tracks_origin exclude_ids artist tracks st c :
  c ∈ recommendations (foldl (top_track exclude_ids artist) st tracks) →
  c ∈ recommendations st
  ∨ ∃ track, track ∈ tracks ∧ c = top_candidate artist track.
Proof.
  revert st. induction tracks as [|t tracks IH]; intros st; simpl; [by left|].
  intros Hc. apply IH in Hc as [Hc|(track & Hin & ->)].
  - apply top_track_origin in Hc as [Hc| ->]; [by left|].
    right. exists t. split; [left|done].
  - right. exists track. split; [by right|done].
Qed.

Lemma after_artists_origin exclude_ids artists top_tracks st c :
  c ∈ recommendations (after_artists exclude_ids artists top_tracks st) →
  c ∈ recommendations st
  ∨ ∃ j artist tracks track,
      artists !! j = Some artist ∧ top_tracks !! j = Some (Ok tracks) ∧
      track ∈ take 3 tracks ∧ c = top_candidate artist track.
Proof.
  revert top_tracks st.
  induction artists as [|a artists IH]; intros [|s top_tracks] st; try by left.
  rewrite after_artists_cons. intros Hc.
  apply IH in Hc as [Hc|(j & artist & tracks & track & Ha & Hs & Hin & ->)].
  - unfold artist_step in Hc. simpl in Hc. destruct s as [tracks|e]; [|by left].
    apply top_tracks_origin in Hc as [Hc|(track & Hin & ->)]; [by left|].
    right. by exists 0, a, tracks, track.
  - right. by exists (S j), artist, tracks, track.
Qed.





Lemma after_artists_more exclude_ids artists top_tracks st :
  at_most_more (3 * length artists) st
    (after_artists exclude_ids artists top_tracks st).
Proof.
  revert top_tracks st.
  induction artists as [|a artists IH]; intros [|s top_tracks] st;
    try (apply (at_most_more_mono 0); [lia | apply at_most_more_refl]).
  rewrite after_artists_cons.
  apply (at_most_more_mono (3 + 3 * length artists)); [simpl; lia|].
  eapply at_most_more_trans; [|apply IH].
  unfold artist_step. simpl. destruct s as [tracks|e].
  - eapply at_most_more_mono; [|apply top_tracks_more].
    rewrite length_take. lia.
  - apply (at_most_more_mono 0); [lia | apply at_most_more_refl].
Qed.

Lemma similar_artists_length seed_type seed_genres top_artists :
  length (similar_artists seed_type seed_genres top_artists) ≤ 5.
Proof.
  unfold similar_artists. case_bool_decide; [|simpl; lia].
  destruct top_artists; [rewrite length_take|simpl]; lia.
Qed.




Section DiscoverTrace.
Context `{Python} `{Catalog}.

Lemma exclusion_set_trace log log' exclude_ids :
  exclusion_set log = (log', Ok exclude_ids) →
  ∃ recent saved,
    log' = log ++ exclusion_events recent saved ∧
    exclude_ids = excluded recent saved.
Proof.
  unfold exclusion_set. rewrite bind_attempt_call.
  destruct (answer log (GetRecentTrackIds 50)) as [recent|e] eqn:Hrecent.
  - rewrite bind_attempt_call.
    destruct (answer _ (GetUserSavedTrackIds 100)) as [saved|e'] eqn:Hsaved;
      intros Hret; apply ret_Ok in Hret as [-> ->].
    + exists (Ok recent), (Ok saved). split; [by rewrite <- app_assoc|done].
    + exists (Ok recent), (Raise e'). split; [by rewrite <- app_assoc|done].
  - intros Hret. apply ret_Ok in Hret as [-> ->].
    by exists (Raise e), (Raise e).
Qed.

Lemma genre_loop_trace exclude_ids year_range genres st log log' st' :
  for_each genres (genre_search exclude_ids year_range) st log = (log', Ok st') →
  ∃ searches,
    length searches = length genres ∧
    log' = log ++ search_events year_range genres searches ∧
    st' = after_searches exclude_ids genres searches st.
Proof.
  revert st log. induction genres as [|genre genres IH]; intros st log Hrun;
    simpl in Hrun.
  - apply ret_Ok in Hrun as [-> ->]. exists []. by rewrite app_nil_r.
  - apply bind_Ok in Hrun as (st1 & log1 & Hstep & Hrun).
    apply IH in Hrun as (searches & Hlen & -> & ->).
    unfold genre_search in Hstep. rewrite bind_attempt_call in Hstep.
    exists (answer log (SearchByGenre genre year_range 20) :: searches).
    assert (log1 = log ++ [existT (SearchByGenre genre year_range 20)
                             (answer log (SearchByGenre genre year_range 20))]
            ∧ st1 = search_step exclude_ids st
                      (genre, answer log (SearchByGenre genre year_range 20)))
      as [-> ->].
    { unfold search_step. simpl.
      by destruct (answer log (SearchByGenre genre year_range 20));
        apply ret_Ok in Hstep as [-> ->]. }
    split; [simpl; by rewrite Hlen|]. split; [by rewrite <- app_assoc|done].
Qed.

Lemma artists_loop_trace exclude_ids artists st log log' st' :
  for_each artists (artist_top_tracks exclude_ids) st log = (log', Ok st') →
  ∃ top_tracks,
    length top_tracks = length artists ∧
    log' = log ++ zip_with (λ artist (tracks : result (list TrackObj.t)),
                              existT (GetArtistTopTracks (Artist.id artist)) tracks)
                    artists top_tracks ∧
    st' = after_artists exclude_ids artists top_tracks st.
Proof.
  revert st log. induction artists as [|artist artists IH]; intros st log Hrun;
    simpl in Hrun.
  - apply ret_Ok in Hrun as [-> ->]. exists []. by rewrite app_nil_r.
  - apply bind_Ok in Hrun as (st1 & log1 & Hstep & Hrun).
    apply IH in Hrun as (top_tracks & Hlen & -> & ->).
    unfold artist_top_tracks in Hstep. rewrite bind_attempt_call in Hstep.
    exists (answer log (GetArtistTopTracks (Artist.id artist)) :: top_tracks).
    assert (log1 = log ++ [existT (GetArtistTopTracks (Artist.id artist))
                             (answer log (GetArtistTopTracks (Artist.id artist)))]
            ∧ st1 = artist_step exclude_ids st
                      (artist, answer log (GetArtistTopTracks (Artist.id artist))))
      as [-> ->].
    { unfold artist_step. simpl.
      by destruct (answer log (GetArtistTopTracks (Artist.id artist)));
        apply ret_Ok in Hstep as [-> ->]. }
    split; [simpl; by rewrite Hlen|]. split; [by rewrite <- app_assoc|done].
Qed.

Lemma augment_trace seed_type genres exclude_ids st log log' st' :
  augment seed_type genres exclude_ids st log = (log', Ok st') →
  ∃ top_artists top_tracks,
    length top_tracks = length (similar_artists seed_type genres top_artists) ∧
    log' = log ++ augment_events seed_type genres top_artists top_tracks ∧
    st' = after_artists exclude_ids
            (similar_artists seed_type genres top_artists) top_tracks st.
Proof.
  unfold augment, augment_events, similar_artists. case_bool_decide as Hseed.
  - rewrite bind_attempt_call. intros Hrun.
    destruct (answer log (GetTopArtists "medium_term" 20)) as [top_artists|e]
      eqn:Hans.
    + rewrite filter_shares_genre in Hrun.
      apply artists_loop_trace in Hrun as (top_tracks & Hlen & -> & ->).
      exists (Ok top_artists), top_tracks.
      split; [done|]. split; [by rewrite <- app_assoc|done].
    + apply ret_Ok in Hrun as [-> ->]. by exists (Raise e), [].
  - intros Hrun. apply ret_Ok in Hrun as [-> ->].
    exists (Raise (Exception "")), []. by rewrite app_nil_r.
Qed.

Lemma discover_pipeline_trace seed_type seed year_range limit log log' run :
  discover_pipeline seed_type seed year_range limit log = (log', Ok run) →
  ∃ ans,
    answered seed_type (seed_genres seed) ans ∧
    log' = log ++ run_events seed_type year_range (seed_genres seed) ans ∧
    run_exclude_ids run = exclusion_of ans ∧
    run_genre_stage run = genre_stage (seed_genres seed) ans ∧
    run_candidates run
      = recommendations (final_stage seed_type (seed_genres seed) ans) ∧
    run_recommendations run
      = rank (seed_popularity seed) limit (run_candidates run).
Proof.
  intros Hrun. apply discover_pipeline_Ok in Hrun
    as (log1 & log2 & st4 & Hex & H3 & H4 & Hcand & Hrank).
  apply exclusion_set_trace in Hex as (recent & saved & -> & HX).
  apply genre_loop_trace in H3 as (searches & Hlen3 & -> & Hst3).
  apply augment_trace in H4 as (tops & top_tracks & Hlen4 & -> & Hst4).
  exists {| ans_recent := recent; ans_saved := saved; ans_searches := searches;
            ans_top_artists := tops; ans_top_tracks := top_tracks |}.
  unfold answered, run_events, genre_stage, final_stage, exclusion_of, artists_of.
  cbn [ans_recent ans_saved ans_searches ans_top_artists ans_top_tracks].
  rewrite Hrank, Hcand, Hst4, Hst3, HX.
  split; [done|]. split; [by rewrite <- !app_assoc|]. done.
Qed.

Lemma resolve_seed_trace seed_type seed_value log log' seed :
  resolve_seed seed_type seed_value log = (log', Ok (inr seed)) →
  ∃ seed_events,
    log' = log ++ seed_events ∧
    Forall (λ ev, seed_request (request ev) = true) seed_events ∧
    (seed_type ≠ "track" → seed_popularity seed = 50%Z) ∧
    (seed_type = "track" →
       ∃ value track rest,
         seed_value = Some value ∧
         seed_events
           = existT (GetTrack (last_segment "" value)) (Ok track) :: rest ∧
         seed_popularity seed = default 50%Z (TrackObj.popularity track)).
Proof.
  unfold resolve_seed. intros Hrun. case_bool_decide as Hartist.
  - apply bind_Ok in Hrun as ([|artist rest] & log1 & Hc1 & Hrun);
      [by apply ret_Ok in Hrun as [_ [=]]|].
    call_inv Hc1. subst log1.
    apply bind_Ok in Hrun as (details & log2 & Hc2 & Hrun).
    call_inv Hc2. subst log2.
    apply ret_Ok in Hrun as [-> [= ->]].
    eexists [_; _]. split; [by rewrite <- app_assoc|].
    split; [by repeat constructor|]. split; [done|].
    intros ->. done.
  - case_bool_decide as Htrack.
    + destruct seed_value as [value|]; [|done].
      apply bind_Ok in Hrun as (track & log1 & Hc1 & Hrun).
      call_inv Hc1. subst log1.
      destruct (TrackObj.artists track) as [|a rest].
      * apply ret_Ok in Hrun as [-> [= ->]].
        eexists [_]. split; [done|]. split; [by repeat constructor|].
        split; [done|]. intros _. by exists value, track, [].
      * apply bind_Ok in Hrun as (details & log2 & Hc2 & Hrun).
        call_inv Hc2. subst log2.
        apply ret_Ok in Hrun as [-> [= ->]].
        eexists [_; _]. split; [by rewrite <- app_assoc|].
        split; [by repeat constructor|].
        split; [done|]. intros _. by eexists value, track, [_].
    + case_bool_decide as Hhistory.
      * apply bind_Ok in Hrun as (top_artists & log1 & Hc1 & Hrun).
        call_inv Hc1. subst log1.
        apply ret_Ok in Hrun as [-> [= ->]].
        eexists [_]. split; [done|]. split; [by repeat constructor|].
        split; done.
      * apply ret_Ok in Hrun as [-> [= ->]].
        exists []. rewrite app_nil_r. split; [done|]. split; [constructor|].
        split; done.
Qed.

Lemma discover_result_trace seed_type seed_value year_range flag seed recs
    log log' r :
  discover_result seed_type seed_value year_range flag seed recs log
    = (log', Ok r) →
  ∃ playlist_events,
    log' = log ++ playlist_events ∧
    Forall (λ ev, writes (request ev) = true) playlist_events ∧
    DiscoverResult.seed_type r = seed_type ∧
    DiscoverResult.year_range r = year_range ∧
    DiscoverResult.seed_genres r = seed_genres seed ∧
    DiscoverResult.recommendations r = to_recommendation <$> recs.
Proof.
  unfold discover_result. intros Hres.
  apply bind_Ok in Hres as (created & log1 & Hcreate & Hres).
  apply ret_Ok in Hres as [-> ->].
  cbn [DiscoverResult.seed_type DiscoverResult.year_range
       DiscoverResult.seed_genres DiscoverResult.recommendations].
  assert (∃ playlist_events, log1 = log ++ playlist_events ∧
            Forall (λ ev, writes (request ev) = true) playlist_events)
    as (playlist_events & -> & Hwrites).
  { destruct (_ && _).
    - apply bind_Ok in Hcreate as (playlist & log2 & Hc1 & Hcreate).
      call_inv Hc1. subst log2.
      apply bind_Ok in Hcreate as ([] & log3 & Hc2 & Hcreate).
      call_inv Hc2. subst log3.
      apply ret_Ok in Hcreate as [-> _].
      eexists [_; _]. split; [by rewrite <- app_assoc|]. by repeat constructor.
    - apply ret_Ok in Hcreate as [-> _]. exists [].
      split; [by rewrite app_nil_r|constructor]. }
  by exists playlist_events.
Qed.

(** Every run of Discover that returns recommendations is one described
    by [discover_run], the seed popularity being that of the seed track
    (50 when it has none) and 50 for another seed. *)
Lemma discover_run_of arguments log log' r :
  handle_call_tool (Discover arguments) log = (log', Ok (DiscoverJson r)) →
  ∃ seed_events ans seed_popularity limit,
    discover_run arguments log log' r seed_events ans seed_popularity limit ∧
    (DiscoverResult.seed_type r ≠ "track" → seed_popularity = 50%Z) ∧
    (DiscoverResult.seed_type r = "track" →
       ∃ value track rest,
         arg_get (DiscoverArgs.seed_value arguments) = Some value ∧
         seed_events
           = existT (GetTrack (last_segment "" value)) (Ok track) :: rest ∧
         seed_popularity = default 50%Z (TrackObj.popularity track)).
Proof.
  intros Hrun. apply handle_discover_Ok, discover_Ok_result in Hrun
    as (seed_type & requested & seed & log1 & log2 & run
        & Htype & Hlimit & Hseed & _ & Hpipe & Hres).
  apply resolve_seed_trace in Hseed as (seed_events & -> & Hreqs & Hnot & Htrack).
  apply discover_pipeline_trace in Hpipe
    as (ans & Hans & -> & _ & _ & Hcand & Hrank).
  apply discover_result_trace in Hres
    as (playlist_events & -> & Hwrites & Hst & Hyr & Hgen & Hrecs).
  exists seed_events, ans, (seed_popularity seed), (Z.min requested 50).
  rewrite Hst. split; [|done].
  unfold discover_run. rewrite Hst, Hgen, Hyr.
  exists requested, playlist_events.
  split; [done|]. split; [done|]. split; [done|]. split; [done|].
  split; [done|]. split; [done|]. split; [done|].
  split; [by rewrite <- !app_assoc|].
  by rewrite Hrecs, Hrank, Hcand.
Qed.

End DiscoverTrace.

Section DiscoverRuns.
Context `{Python} `{Catalog}.

(** X3. The calls of steps 2 to 4 of Discover, with what the service
    answers, are exactly these, in order: the recent plays and, once they
    are answered, the saved tracks (the ids excluded are those answered);
    one search per seed genre, each for 20 tracks; then, for an artist or
    a track seed only, the listener's 20 top artists and the top tracks of
    the first five of them that share a genre with the seed. Step 4 adds
    at most three candidates per such artist, 15 in all, and none for a
    listening-history seed. *)
Theorem discover_pipeline_calls seed_type seed year_range limit log log' run :
  discover_pipeline seed_type seed year_range limit log = (log', Ok run) →
  ∃ ans,
    let genres := seed_genres seed in
    let artists := similar_artists seed_type genres (ans_top_artists ans) in
    length (ans_searches ans) = length genres ∧
    length (ans_top_tracks ans) = length artists ∧
    log' = log
      ++ exclusion_events (ans_recent ans) (ans_saved ans)
      ++ search_events year_range genres (ans_searches ans)
      ++ augment_events seed_type genres (ans_top_artists ans)
           (ans_top_tracks ans) ∧
    run_exclude_ids run = excluded (ans_recent ans) (ans_saved ans) ∧
    (∀ i, i ∈ run_exclude_ids run ↔
       ∃ recent, ans_recent ans = Ok recent ∧
         (i ∈ recent ∨ ∃ saved, ans_saved ans = Ok saved ∧ i ∈ saved)) ∧
    length artists ≤ 5 ∧
    (∀ top_artists,
       seed_type ∈ ["artist"; "track"] → ans_top_artists ans = Ok top_artists →
       artists = take 5 (filter (similar genres) top_artists)) ∧
    run_genre_stage run = genre_stage genres ans ∧
    run_candidates run = recommendations (final_stage seed_type genres ans) ∧
    (∃ extra,
       run_candidates run = recommendations (run_genre_stage run) ++ extra ∧
       length extra ≤ 3 * length artists ∧ length extra ≤ 15) ∧
    (seed_type ∉ ["artist"; "track"] →
       augment_events seed_type genres (ans_top_artists ans) (ans_top_tracks ans)
         = [] ∧
       run_candidates run = recommendations (run_genre_stage run)).
Proof.
  intros Hrun. apply discover_pipeline_trace in Hrun
    as (ans & [Hlen3 Hlen4] & Hlog & HX & Hst3 & Hcand & _).
  exists ans. cbv zeta.
  pose proof (similar_artists_length seed_type (seed_genres seed)
                (ans_top_artists ans)) as Hfive.
  split; [done|]. split; [done|]. split; [done|]. split; [done|].
  split; [intros i; rewrite HX; apply elem_of_excluded|].
  split; [done|]. split.
  { intros top_artists Hseed ->. unfold similar_artists.
    by rewrite bool_decide_eq_true_2. }
  split; [done|]. split; [done|]. split.
  - destruct (after_artists_more (exclusion_of ans)
                (artists_of seed_type (seed_genres seed) ans)
                (ans_top_tracks ans) (genre_stage (seed_genres seed) ans))
      as (extra & Hextra & Hle).
    exists extra. rewrite Hcand, Hst3. split; [done|].
    unfold artists_of in Hle. split; [done|lia].
  - intros Hseed. unfold augment_events.
    rewrite bool_decide_eq_false_2 by done. split; [done|].
    rewrite Hcand, Hst3. unfold final_stage, artists_of, similar_artists.
    by rewrite bool_decide_eq_false_2.
Qed.

(** C5. For every Discover invocation that returns recommendations, with
    the ids that the service answered at step 2 of this run to the lookup
    of the recent plays and to that of the saved tracks: no recommendation
    returned has one of these ids, and no candidate has one, neither after
    the genre searches of step 3 nor after the top tracks of the similar
    artists of step 4; a track with such an id among those answered to a
    search or to a lookup of top tracks is therefore never a candidate. *)
Theorem discover_skips_excluded arguments log log' r :
  handle_call_tool (Discover arguments) log = (log', Ok (DiscoverJson r)) →
  ∃ seed_events ans seed_popularity limit,
    let seed_type := DiscoverResult.seed_type r in
    let genres := DiscoverResult.seed_genres r in
    discover_run arguments log log' r seed_events ans seed_popularity limit ∧
    (∀ i, i ∈ exclusion_of ans ↔
       ∃ recent, ans_recent ans = Ok recent ∧
         (i ∈ recent ∨ ∃ saved, ans_saved ans = Ok saved ∧ i ∈ saved)) ∧
    (∀ x, x ∈ DiscoverResult.recommendations r →
       Recommendation.id x ∉ exclusion_of ans) ∧
    (∀ c, c ∈ recommendations (genre_stage genres ans) →
       Candidate.id c ∉ exclusion_of ans) ∧
    (∀ c, c ∈ recommendations (final_stage seed_type genres ans) →
       Candidate.id c ∉ exclusion_of ans) ∧
    (∀ c, c ∈ recommendations (final_stage seed_type genres ans) →
       ∃ track,
         TrackObj.id track = Candidate.id c ∧
         (TrackObj.id track ∉ exclusion_of ans) ∧
         ((∃ i tracks, ans_searches ans !! i = Some (Ok tracks) ∧ track ∈ tracks)
          ∨ (∃ j tracks, ans_top_tracks ans !! j = Some (Ok tracks)
                         ∧ track ∈ take 3 tracks))).
Proof.
  intros Hrun. destruct (discover_run_of _ _ _ _ Hrun)
    as (seed_events & ans & sp & limit & Hdr & _).
  exists seed_events, ans, sp, limit. cbv zeta.
  assert (clean (exclusion_of ans)
            (genre_stage (DiscoverResult.seed_genres r) ans)) as Hclean3.
  { unfold genre_stage. apply after_searches_inv.
    - intros. by apply genre_track_clean.
    - intros c Hc. by apply elem_of_nil in Hc. }
  assert (clean (exclusion_of ans)
            (final_stage (DiscoverResult.seed_type r)
               (DiscoverResult.seed_genres r) ans)) as Hclean4.
  { unfold final_stage. apply after_artists_inv; [|done].
    intros. by apply top_track_clean. }
  split; [done|]. split; [intros i; apply elem_of_excluded|].
  split; [|split; [done|split; [done|]]].
  - destruct Hdr as (requested & playlist_events & _ & _ & _ & _ & _ & _ & _
                     & _ & Hrecs).
    intros x Hx. rewrite Hrecs in Hx.
    apply list_elem_of_fmap in Hx as (c & -> & Hc). simpl.
    apply elem_of_rank in Hc. by apply Hclean4.
  - intros c Hc. pose proof (Hclean4 c Hc) as Hnot.
    apply after_artists_origin in Hc
      as [Hc|(j & artist & tracks & track & _ & Hj & Hin & ->)].
    + apply after_searches_origin in Hc
        as [Hc|(i & genre & tracks & track & _ & Hi & Hin & ->)];
        [by apply elem_of_nil in Hc|].
      exists track. split; [done|]. split; [done|]. left. by exists i, tracks.
    + exists track. split; [done|]. split; [done|]. right. by exists j, tracks.
Qed.


End DiscoverRuns.

Lemma discover_pipeline_calls_witness :
  example_pipeline = (example_pipeline.1, Ok (pipeline_run example_pipeline))
  ∧ length (run_candidates (pipeline_run example_pipeline))
    ≤ length (recommendations (run_genre_stage (pipeline_run example_pipeline))) + 15.
Proof.
  split; [vm_compute; reflexivity|].
  destruct (@discover_pipeline_calls example_catalog "artist" example_seed
              (Some "2015-2025") 30 [] example_pipeline.1
              (pipeline_run example_pipeline))
    as (ans & _ & _ & _ & _ & _ & _ & _ & _ & _ & (extra & Hcand & _ & Hlen) & _).
  - vm_compute. reflexivity.
  - rewrite Hcand, length_app. lia.
Defined.


Lemma discover_skips_excluded_witness :
  example_outcome
    = (example_outcome.1, Ok (DiscoverJson (discover_json example_outcome)))
  ∧ ∃ ans,
      ∀ x, x ∈ DiscoverResult.recommendations (discover_json example_outcome) →
        Recommendation.id x ∉ exclusion_of ans.
Proof.
  split; [vm_compute; reflexivity|].
  destruct (@discover_skips_excluded CPython example_catalog example_args []
              example_outcome.1 (discover_json example_outcome))
    as (seed_events & ans & sp & limit & _ & _ & Hout & _).
  - vm_compute. reflexivity.
  - by exists ans.
Defined.

(** ** ArtistDeepDive: the events and the tracks of a run *)


Lemma Sorted_map {A B} (f : A → B) (R : B → B → Prop) l :
  Sorted (λ x y, R (f x) (f y)) l → Sorted R (f <$> l).
Proof.
  induction 1 as [|x l Hs IH Hhd]; [constructor|].
  rewrite fmap_cons. constructor; [done|].
  destruct Hhd; constructor. done.
Qed.

Lemma in_range_elem evs ev p :
  in_range evs → ev ∈ evs → p ∈ popularities ev → (0 ≤ p ≤ 100)%Z.
Proof.
  intros Hrange Hev Hp. unfold in_range in Hrange.
  rewrite Forall_forall in Hrange. specialize (Hrange ev Hev).
  rewrite Forall_forall in Hrange. by apply Hrange.
Qed.

Lemma in_range_default evs ev (field : option Z) (d : Z) :
  in_range evs → ev ∈ evs → (0 ≤ d ≤ 100)%Z →
  (∀ p, field = Some p → p ∈ popularities ev) →
  (0 ≤ default d field ≤ 100)%Z.
Proof.
  intros Hrange Hev Hd Hp. destruct field as [p|]; simpl; [|done].
  eapply in_range_elem; [done..|]. by apply Hp.
Qed.

Lemma search_event_elem year_range genres searches i tracks :
  length searches = length genres →
  searches !! i = Some (Ok tracks) →
  ∃ genre, genres !! i = Some genre ∧
    existT (SearchByGenre genre year_range 20) (Ok tracks)
      ∈ search_events year_range genres searches.
Proof.
  intros Hlen Hi.
  destruct (lookup_lt_is_Some_2 genres i) as [genre Hg].
  { rewrite <- Hlen. by eapply lookup_lt_Some. }
  exists genre. split; [done|]. unfold search_events.
  apply (list_elem_of_lookup_2 _ i). by rewrite lookup_zip_with, Hg, Hi.
Qed.

Lemma augment_event_elem seed_type genres top_artists top_tracks j tracks :
  length top_tracks = length (similar_artists seed_type genres top_artists) →
  top_tracks !! j = Some (Ok tracks) →
  ∃ artist,
    similar_artists seed_type genres top_artists !! j = Some artist ∧
    existT (GetArtistTopTracks (Artist.id artist)) (Ok tracks)
      ∈ augment_events seed_type genres top_artists top_tracks.
Proof.
  intros Hlen Hj.
  destruct (lookup_lt_is_Some_2 (similar_artists seed_type genres top_artists) j)
    as [artist Ha].
  { rewrite <- Hlen. by eapply lookup_lt_Some. }
  exists artist. split; [done|]. unfold augment_events.
  case_bool_decide as Hseed.
  - right. apply (list_elem_of_lookup_2 _ j). by rewrite lookup_zip_with, Ha, Hj.
  - unfold similar_artists in Ha. by rewrite bool_decide_eq_false_2 in Ha.
Qed.


Lemma album_tracks_looked_up album a t :
  t ∈ album_tracks album a →
  ∃ full_track,
    existT (GetTrack (Track.id t)) (Ok full_track) ∈ album_trace album a ∧
    Track.popularity t = default 0%Z (TrackObj.popularity full_track).
Proof.
  unfold album_tracks, album_trace, listed_tracks, lookups.
  destruct (aa_listing a) as [[[tracks rd] ty]|e]; [|by intros ?%elem_of_nil].
  intros Ht.
  apply elem_of_lookup_zip_with_1 in Ht as (i & track & full & -> & Hi & Hfull).
  exists full. split; [|done]. right. simpl.
  apply (list_elem_of_lookup_2 _ i). rewrite lookup_zip_with, Hi. simpl.
  by rewrite (lookup_app_l_Some _ _ _ (Ok full));
    [|rewrite list_lookup_fmap, Hfull].
Qed.



Lemma collected_looked_up albums answers t :
  t ∈ collected albums answers →
  ∃ full_track,
    existT (GetTrack (Track.id t)) (Ok full_track)
      ∈ collection_trace albums answers ∧
    Track.popularity t = default 0%Z (TrackObj.popularity full_track).
Proof.
  unfold collected, collection_trace. revert answers.
  induction albums as [|album albums IH]; intros [|a answers];
    try by intros ?%elem_of_nil.
  cbn [zip_with concat]. rewrite elem_of_app. intros [Ht|Ht].
  - apply album_tracks_looked_up in Ht as (full & Hin & Hpop). exists full.
    split; [|done]. apply elem_of_app. by left.
  - apply IH in Ht as (full & Hin & Hpop). exists full. split; [|done].
    apply elem_of_app. by right.
Qed.

Section DeepDiveTrace.
Context `{Python} `{Catalog}.



Lemma append_album_tracks_trace album release_date album_type tracks all_tracks
    log log' out :
  append_album_tracks album release_date album_type tracks all_tracks log
    = (log', Ok out) →
  ∃ fulls failure,
    match failure with
    | None => length fulls = length tracks
    | Some _ => length fulls < length tracks
    end ∧
    log' = log ++ zip_with (λ track (full_track : result TrackObj.t),
                              existT (GetTrack (TrackObj.id track)) full_track)
                    tracks
                    ((Ok <$> fulls)
                     ++ match failure with Some e => [Raise e] | None => [] end) ∧
    out = all_tracks
          ++ zip_with (collected_track album release_date album_type) tracks fulls.
Proof.
  revert all_tracks log.
  induction tracks as [|track tracks IH]; intros all_tracks log Hrun.
  - apply ret_Ok in Hrun as [-> ->]. exists [], None. by rewrite !app_nil_r.
  - cbn [append_album_tracks] in Hrun. rewrite bind_attempt_call in Hrun.
    destruct (answer log (GetTrack (TrackObj.id track))) as [full|e] eqn:Hans.
    + apply IH in Hrun as (fulls & failure & Hlen & -> & ->).
      exists (full :: fulls), failure.
      split; [destruct failure; simpl; lia|].
      split; by rewrite <- app_assoc.
    + apply ret_Ok in Hrun as [-> ->]. exists [], (Some e).
      split; [simpl; lia|]. simpl. by rewrite zip_with_nil_r, app_nil_r.
Qed.

Lemma collect_album_trace all_tracks album log log' out :
  collect_album all_tracks album log = (log', Ok out) →
  ∃ a, well_answered a ∧
    log' = log ++ album_trace album a ∧
    out = all_tracks ++ album_tracks album a.
Proof.
  unfold collect_album. rewrite bind_attempt_call.
  destruct (answer log (GetAlbumTracksFull (Album.id album)))
    as [[[tracks rd] ty]|e] eqn:Hans; intros Hrun.
  - apply append_album_tracks_trace in Hrun as (fulls & failure & Hlen & -> & ->).
    exists {| aa_listing := Ok (tracks, rd, ty); aa_tracks := fulls;
              aa_failure := failure |}.
    split; [done|]. split; [by rewrite <- app_assoc|done].
  - apply ret_Ok in Hrun as [-> ->].
    exists {| aa_listing := Raise e; aa_tracks := []; aa_failure := None |}.
    split; [done|]. split; [done|by rewrite app_nil_r].
Qed.

Lemma collect_loop_trace albums all_tracks log log' out :
  for_each albums collect_album all_tracks log = (log', Ok out) →
  ∃ answers,
    length answers = length albums ∧
    Forall well_answered answers ∧
    log' = log ++ collection_trace albums answers ∧
    out = all_tracks ++ collected albums answers.
Proof.
  revert all_tracks log.
  induction albums as [|album albums IH]; intros all_tracks log Hrun;
    simpl in Hrun.
  - apply ret_Ok in Hrun as [-> ->]. exists []. by rewrite !app_nil_r.
  - apply bind_Ok in Hrun as (out1 & log1 & Hstep & Hrun).
    apply collect_album_trace in Hstep as (a & Hwell & -> & ->).
    apply IH in Hrun as (answers & Hlen & Hall & -> & ->).
    exists (a :: answers). split; [simpl; by rewrite Hlen|].
    split; [by constructor|].
    unfold collection_trace, collected. simpl. by rewrite <- !app_assoc.
Qed.

Lemma build_playlists_artist artist_id artist_display_name threshold albums
    all_tracks :
  yields (λ r, DeepDiveResult.artist_id r = artist_id
               ∧ DeepDiveResult.artist_name r = artist_display_name
               ∧ DeepDiveResult.total_albums_analyzed r = length albums)
    (build_playlists artist_id artist_display_name threshold albums all_tracks).
Proof. unfold build_playlists. repeat yields_step; done. Qed.

(** Every run of ArtistDeepDive that builds its playlists is one
    described by [deep_dive_run]. *)
Lemma deep_dive_run_of arguments log log' r :
  handle_call_tool (ArtistDeepDive arguments) log = (log', Ok (DeepDiveJson r)) →
  ∃ albums answers deep,
    deep_dive_run arguments log log' r albums answers
      (best_of (deduplicate (collected albums answers))) deep
      (chronological_of (deduplicate (collected albums answers))) ∧
    deep_cuts_for arguments (best_of (deduplicate (collected albums answers)))
      (deduplicate (collected albums answers)) deep.
Proof.
  intros Hrun. apply handle_deep_dive_Ok in Hrun. unfold artist_deep_dive in Hrun.
  apply bind_Ok in Hrun as ([|artist others] & log0 & Hc1 & Hrun);
    [by apply ret_Ok in Hrun as [_ [=]]|].
  call_inv Hc1. subst log0.
  apply bind_Ok in Hrun as (albums & log1 & Hc2 & Hrun).
  call_inv Hc2. subst log1.
  apply bind_Ok in Hrun as (all_tracks & log2 & Hloop & Hrun).
  apply collect_loop_trace in Hloop as (answers & Hlen & Hwell & -> & ->).
  apply bind_Ok in Hrun as (r' & log3 & Hbuild & Hrun).
  apply ret_Ok in Hrun as [-> [= ->]].
  pose proof (build_playlists_artist _ _ _ _ _ _ _ _ Hbuild)
    as (Hid & Hname & Halbums).
  apply build_playlists_Ok in Hbuild
    as (deep & p1 & p2 & p3 & evs & Hdeep & -> & Hreq & Hcount).
  rewrite app_nil_l in *.
  exists albums, answers, deep. split; [|done].
  exists artist, others, p1, p2, p3, evs.
  split; [done|]. split; [done|]. split; [done|]. split; [done|].
  split; [done|]. split; [by rewrite <- !app_assoc|]. done.
Qed.


End DeepDiveTrace.


(** ** C7: the popularity used in ranking *)

Section PopularityRuns.
Context `{Python} `{Catalog}.

(** C7, as the code has it. The popularity used in ranking is the value
    that the service answered in the run. In Discover, every
    recommendation returned carries the popularity of a track of its id
    answered to a genre search or among the first three top tracks
    answered for a similar artist, and 0 when that track has none; the
    recommendations are in ascending order of the distance of this value
    to the seed popularity, which for a track seed is the popularity
    answered for the seed track, and 50 when that track has none (50 also
    for another seed). In ArtistDeepDive, every collected track carries
    the popularity answered to the lookup of its id in the run, and 0 when
    there is none. When the service keeps to the data model (popularity
    within 0..100), so do all these values. *)
Theorem popularity_is_the_catalog_value :
  (∀ arguments log log' r,
     handle_call_tool (Discover arguments) log = (log', Ok (DiscoverJson r)) →
     ∃ seed_events ans seed_popularity limit,
       discover_run arguments log log' r seed_events ans seed_popularity limit ∧
       (∀ x, x ∈ DiscoverResult.recommendations r →
          ∃ track,
            ((∃ i tracks, ans_searches ans !! i = Some (Ok tracks) ∧ track ∈ tracks)
             ∨ (∃ j tracks, ans_top_tracks ans !! j = Some (Ok tracks)
                            ∧ track ∈ take 3 tracks)) ∧
            TrackObj.id track = Recommendation.id x ∧
            Recommendation.popularity x
              = default 0%Z (TrackObj.popularity track)) ∧
       Sorted (λ x y, (Z.abs (Recommendation.popularity x - seed_popularity)
                       ≤ Z.abs (Recommendation.popularity y - seed_popularity))%Z)
         (DiscoverResult.recommendations r) ∧
       (DiscoverResult.seed_type r ≠ "track" → seed_popularity = 50%Z) ∧
       (DiscoverResult.seed_type r = "track" →
          ∃ value track rest,
            arg_get (DiscoverArgs.seed_value arguments) = Some value ∧
            seed_events
              = existT (GetTrack (last_segment "" value)) (Ok track) :: rest ∧
            seed_popularity = default 50%Z (TrackObj.popularity track)) ∧
       (in_range (drop (length log) log') →
          (0 ≤ seed_popularity ≤ 100)%Z ∧
          ∀ x, x ∈ DiscoverResult.recommendations r →
            (0 ≤ Recommendation.popularity x ≤ 100)%Z)) ∧
  (∀ arguments log log' r,
     handle_call_tool (ArtistDeepDive arguments) log
       = (log', Ok (DeepDiveJson r)) →
     ∃ albums answers best deep chrono,
       deep_dive_run arguments log log' r albums answers best deep chrono ∧
       best = best_of (deduplicate (collected albums answers)) ∧
       deep_cuts_for arguments best (deduplicate (collected albums answers))
         deep ∧
       (∀ t, t ∈ collected albums answers →
          ∃ full_track,
            existT (GetTrack (Track.id t)) (Ok full_track)
              ∈ collection_trace albums answers ∧
            Track.popularity t
              = default 0%Z (TrackObj.popularity full_track)) ∧
       (in_range (drop (length log) log') →
          ∀ t, t ∈ collected albums answers →
            (0 ≤ Track.popularity t ≤ 100)%Z)).
Proof.
  split.
  - intros arguments log log' r Hrun. destruct (discover_run_of _ _ _ _ Hrun)
      as (seed_events & ans & sp & limit & Hdr & Hnot & Htrack).
    exists seed_events, ans, sp, limit. split; [done|].
    destruct Hdr as (requested & playlist_events & _ & _ & _ & _ & [Hlen3 Hlen4]
                     & _ & _ & Hlog & Hrecs).
    assert (∀ x, x ∈ DiscoverResult.recommendations r →
              ∃ track,
                ((∃ i tracks, ans_searches ans !! i = Some (Ok tracks)
                              ∧ track ∈ tracks)
                 ∨ (∃ j tracks, ans_top_tracks ans !! j = Some (Ok tracks)
                                ∧ track ∈ take 3 tracks)) ∧
                TrackObj.id track = Recommendation.id x ∧
                Recommendation.popularity x
                  = default 0%Z (TrackObj.popularity track)) as Horigin.
    { intros x Hx. rewrite Hrecs in Hx.
      apply list_elem_of_fmap in Hx as (c & -> & Hc).
      apply elem_of_rank in Hc. unfold final_stage in Hc.
      apply after_artists_origin in Hc
        as [Hc|(j & artist & tracks & track & _ & Hj & Hin & ->)].
      - unfold genre_stage in Hc. apply after_searches_origin in Hc
          as [Hc|(i & genre & tracks & track & _ & Hi & Hin & ->)];
          [by apply elem_of_nil in Hc|].
        exists track. split; [|done]. left. by exists i, tracks.
      - exists track. split; [|done]. right. by exists j, tracks. }
    split; [done|]. split.
    { rewrite Hrecs. apply Sorted_map.
      eapply Sorted_weaken; [|apply rank_sorted].
      intros c1 c2. unfold in_order, score_track. simpl. lia. }
    split; [done|]. split; [done|].
    intros Hrange. rewrite Hlog, drop_app_length in Hrange. split.
    + destruct (decide (DiscoverResult.seed_type r = "track")) as [Hseed|Hseed];
        [|rewrite Hnot by done; lia].
      destruct (Htrack Hseed) as (value & track & rest & _ & -> & ->).
      eapply (in_range_default _ _ _ _ Hrange); [left|lia|].
      intros p Hp. simpl. rewrite Hp. left.
    + intros x Hx.
      destruct (Horigin x Hx)
        as (track & [(i & tracks & Hi & Hin)|(j & tracks & Hj & Hin)] & _ & ->).
      * destruct (search_event_elem (DiscoverResult.year_range r)
                    (DiscoverResult.seed_genres r) _ _ _ Hlen3 Hi)
          as (genre & _ & Hev).
        eapply (in_range_default _ _ _ _ Hrange); [|lia|].
        -- apply elem_of_app. right. apply elem_of_app. left.
           unfold run_events. apply elem_of_app. right. apply elem_of_app. left.
           exact Hev.
        -- intros p Hp. simpl. apply list_elem_of_omap. by exists track.
      * destruct (augment_event_elem _ _ _ _ _ _ Hlen4 Hj) as (artist & _ & Hev).
        eapply (in_range_default _ _ _ _ Hrange); [|lia|].
        -- apply elem_of_app. right. apply elem_of_app. left.
           unfold run_events. apply elem_of_app. right. apply elem_of_app. right.
           exact Hev.
        -- intros p Hp. simpl. apply list_elem_of_omap. exists track.
           split; [|done]. eapply elem_of_sublist; [done|apply sublist_take].
  - intros arguments log log' r Hrun. destruct (deep_dive_run_of _ _ _ _ Hrun)
      as (albums & answers & deep & Hdd & Hdeep).
    exists albums, answers, (best_of (deduplicate (collected albums answers))),
      deep, (chronological_of (deduplicate (collected albums answers))).
    split; [done|]. split; [done|]. split; [done|].
    split; [intros t Ht; by apply collected_looked_up|].
    intros Hrange t Ht.
    destruct Hdd as (artist & others & p1 & p2 & p3 & evs & _ & _ & _ & _ & _
                     & Hlog & _).
    rewrite Hlog, drop_app_length in Hrange.
    apply collected_looked_up in Ht as (full & Hev & ->).
    eapply (in_range_default _ _ _ _ Hrange); [|lia|].
    + apply elem_of_app. right. apply elem_of_app. left. exact Hev.
    + intros p Hp. simpl. rewrite Hp. left.
Qed.

End PopularityRuns.

(** C7 as claimed fails for the seed track. The seed track of
    [quiet_outcome] carries no popularity; the search finds a track of
    popularity 0, then one of popularity 50, and one recommendation is
    asked for. The track of popularity 50 is returned, as the ranking
    against 50 has it; against 0, the value the claim gives a track without
    popularity, it would be the other. *)
Lemma seed_popularity_counterexample :
  ∃ log' r seed_track,
    quiet_outcome = (log', Ok (DiscoverJson r)) ∧
    head log' = Some (existT (GetTrack "s1") (Ok seed_track)) ∧
    TrackObj.popularity seed_track = None ∧
    log' !! 4
      = Some (existT (SearchByGenre "ambient" (Some "2015-2025") 20)
                (Ok [a_track "far" "B1" 0; a_track "near" "B2" 50])) ∧
    Recommendation.id <$> DiscoverResult.recommendations r = ["near"] ∧
    Recommendation.popularity <$> DiscoverResult.recommendations r = [50%Z] ∧
    Candidate.id <$> rank 50 1 [genre_candidate "ambient" (a_track "far" "B1" 0);
                                genre_candidate "ambient" (a_track "near" "B2" 50)]
      = ["near"] ∧
    Candidate.id <$> rank 0 1 [genre_candidate "ambient" (a_track "far" "B1" 0);
                               genre_candidate "ambient" (a_track "near" "B2" 50)]
      = ["far"].
Proof.
  exists quiet_outcome.1, (discover_json quiet_outcome).
  eexists. split; [vm_compute; reflexivity|].
  split; [vm_compute; reflexivity|].
  repeat split; vm_compute; reflexivity.
Qed.

Lemma popularity_is_the_catalog_value_witness :
  quiet_outcome
    = (quiet_outcome.1, Ok (DiscoverJson (discover_json quiet_outcome)))
  ∧ discography_outcome
    = (discography_outcome.1,
       Ok (DeepDiveJson (default no_playlists (deep_dive_json discography_outcome))))
  ∧ in_range (drop (length (@nil Event)) quiet_outcome.1)
  ∧ (∀ x, x ∈ DiscoverResult.recommendations (discover_json quiet_outcome) →
       (0 ≤ Recommendation.popularity x ≤ 100)%Z)
  ∧ ∃ albums answers,
      ∀ t, t ∈ collected albums answers →
        ∃ full_track,
          existT (GetTrack (Track.id t)) (Ok full_track)
            ∈ collection_trace albums answers ∧
          Track.popularity t = default 0%Z (TrackObj.popularity full_track).
Proof.
  split; [vm_compute; reflexivity|]. split; [vm_compute; reflexivity|].
  assert (in_range (drop (length (@nil Event)) quiet_outcome.1)) as Hrange.
  { unfold in_range. apply (bool_decide_unpack _). vm_compute. exact I. }
  split; [done|].
  destruct (@popularity_is_the_catalog_value CPython discography_catalog)
    as [_ Hdeep].
  destruct (@popularity_is_the_catalog_value CPython quiet_catalog)
    as [Hdiscover _].
  split.
  - destruct (Hdiscover quiet_args [] quiet_outcome.1
                (discover_json quiet_outcome))
      as (seed_events & ans & sp & limit & _ & _ & _ & _ & _ & Hin);
      [vm_compute; reflexivity|].
    by apply Hin.
  - destruct (Hdeep discography_args []
                discography_outcome.1
                (default no_playlists (deep_dive_json discography_outcome)))
      as (albums & answers & best & deep & chrono & _ & _ & _ & Hpop & _);
      [vm_compute; reflexivity|].
    by exists albums, answers.
Defined.
